(** * Trading journal: the CSV-backed Flask variant (test.py)

    A shallow embedding of [get_journal_data], [calculate_summary] and the
    [index] request handler, together with the properties of the summary
    statistics and of the append-only journal file.

    Modelling choices, all visible in the definitions below:
    - the file system is a finite map from file names to CSV contents, a CSV
      file being the list of rows the [csv] module wrote into it; the reader
      raises [_csv.Error] on a field longer than its limit of 131072
      characters, and [get_journal_data] does not catch it;
    - a row dictionary produced by [csv.DictReader] is a finite map from field
      names to cells, a cell being [None] (the reader's [restval]) or a string;
    - Python code that touches the file system or raises lives in the [Py]
      monad (state over the file system, plus exceptions);
    - [pandas.to_numeric] is a parameter that maps a cell's text to a number
      or to NaN ([None]); the values of the P/L column are rationals, and its
      comparisons, maximum and minimum are taken on them;
    - the sum of the column is computed as pandas computes it, by the dtype
      of the column (a second parameter): 64-bit integer addition with
      wrap-around, or numpy's pairwise summation of binary64 numbers;
    - the win and lose rates are Python floats: they are computed with the
      kernel's binary64 numbers, and [format_2f] is the correctly rounded
      two-decimal conversion that [f"{x:.2f}"] performs; bounds on them are
      derived from the kernel's specification of binary64 ([SpecFloat]);
    - [calculate_summary] is embedded a second time on a heap of objects
      ([calculate_summary_at]), where the list it is handed and the row
      dictionaries in it are shared with the caller.

    The same Python code is the head of the second CSV variant of the
    repository. The summary the browser variants compute in JavaScript
    ([updateSummary]) is embedded in the section on the page's script. *)

From Stdlib Require Import ZArith QArith Qpower Qabs Qminmax Qreduction Lqa Lia Ascii String.
From Stdlib Require Import Floats DecimalString DecimalNat.
From stdpp Require Import base option list gmap strings.

Open Scope string_scope.
Open Scope list_scope.

(** ** Exceptions and the [Py] monad *)

Inductive exn : Type :=
| FileNotFoundError (path : string)
| KeyError (key : string)
| BadRequestKeyError (key : string)
| CsvError.

(** One CSV row as the [csv] writer receives it and the reader returns it. *)
Abbreviation csv_row := (list string).

(** The files of the working directory: name ↦ rows written so far. *)
Abbreviation filesystem := (gmap string (list csv_row)).

Definition Py (A : Type) : Type := filesystem -> (exn + A) * filesystem.

Definition ret {A} (a : A) : Py A := fun fs => (inr a, fs).

Definition raise {A} (e : exn) : Py A := fun fs => (inl e, fs).

Definition bind {A B} (m : Py A) (k : A -> Py B) : Py B :=
  fun fs =>
    match m fs with
    | (inr a, fs') => k a fs'
    | (inl e, fs') => (inl e, fs')
    end.

(** [try: body except <handled>: handler] *)
Definition try_except {A} (body : Py A) (handler : exn -> option (Py A)) : Py A :=
  fun fs =>
    match body fs with
    | (inr a, fs') => (inr a, fs')
    | (inl e, fs') =>
        match handler e with
        | Some h => h fs'
        | None => (inl e, fs')
        end
    end.

Declare Scope py_scope.
Delimit Scope py_scope with py.
Notation "x <- m ;; k" := (bind m (fun x => k))
  (at level 100, m at next level, right associativity) : py_scope.
Notation "m ;;; k" := (bind m (fun _ => k))
  (at level 100, right associativity) : py_scope.

(** ** The journal file *)

Definition DATA_FILE : string := "trading_journal.csv".

Definition HEADER : csv_row :=
  [ "Sl No."; "Script Name"; "Time"; "Long/Short"; "Entry Price"; "SL";
    "Quantity"; "% of Account Risked"; "Target Price"; "Exit Price";
    "Exit Time"; "R/R"; "P/L"; "Did I followd MY RUES?" ].

(** [open(path, 'r')] followed by reading every row. *)
Definition open_read (path : string) : Py (list csv_row) :=
  fun fs =>
    match fs !! path with
    | Some rows => (inr rows, fs)
    | None => (inl (FileNotFoundError path), fs)
    end.

(** [open(path, 'w')] followed by [writer.writerow(row)]: truncates. *)
Definition open_write_row (path : string) (row : csv_row) : Py unit :=
  fun fs => (inr tt, <[path := [row]]> fs).

(** [open(path, 'a')] followed by [writer.writerow(row)]: creates the file
    when it is missing. *)
Definition open_append_row (path : string) (row : csv_row) : Py unit :=
  fun fs => (inr tt, <[path := default [] (fs !! path) ++ [row]]> fs).

(** Module level: "Ensure the data file exists with the correct headers." *)
Definition ensure_data_file : Py unit :=
  fun fs =>
    match fs !! DATA_FILE with
    | Some _ => (inr tt, fs)
    | None => open_write_row DATA_FILE HEADER fs
    end.

(** ** Reading rows back: text mode and [csv.DictReader] *)

Definition CR : ascii := ascii_of_nat 13.
Definition LF : ascii := ascii_of_nat 10.

(** [get_journal_data] opens the file with [open(DATA_FILE, 'r')], that is
    without [newline='']: Python's universal-newlines translation turns CR LF
    and a lone CR into LF, also inside a quoted field. *)
Fixpoint universal_newlines (s : string) : string :=
  match s with
  | EmptyString => EmptyString
  | String c rest =>
      if Ascii.eqb c CR then
        match rest with
        | String c' rest' =>
            if Ascii.eqb c' LF then String LF (universal_newlines rest')
            else String LF (universal_newlines rest)
        | EmptyString => String LF EmptyString
        end
      else String c (universal_newlines rest)
  end.

Definition read_text (rows : list csv_row) : list csv_row :=
  map (map universal_newlines) rows.

(** The text holds a carriage return, the one character the translation
    rewrites. *)
Fixpoint contains_cr (s : string) : bool :=
  match s with
  | EmptyString => false
  | String c rest => Ascii.eqb c CR || contains_cr rest
  end.

(** A row dictionary: the named fields, and under the reader's [restkey]
    ([None] in Python, kept apart here) the cells of an over-long row. *)
Record dict : Type := Dict {
  fields : gmap string (option string);
  restkey : option (list string)
}.

(** [dict(zip(fieldnames, row))]: a later duplicate of a name wins. *)
Definition dict_zip (fieldnames : list string) (row : csv_row)
  : gmap string (option string) :=
  foldl (fun d kv => <[kv.1 := Some kv.2]> d) ∅ (zip fieldnames row).

(** The body of [DictReader.__next__] for one non-empty row. *)
Definition DictReader_row (fieldnames : list string) (row : csv_row) : dict :=
  let d := dict_zip fieldnames row in
  let lf := length fieldnames in
  let lr := length row in
  if (lf <? lr)%nat then Dict d (Some (drop lf row))
  else Dict (foldl (fun d key => <[key := None]> d) d (drop lr fieldnames)) None.

Definition is_blank (row : csv_row) : bool :=
  match row with [] => true | _ => false end.

(** [list(csv.DictReader(file))]: the first row gives the field names, blank
    rows are skipped. *)
Definition DictReader (rows : list csv_row) : list dict :=
  match rows with
  | [] => []
  | fieldnames :: body =>
      map (DictReader_row fieldnames) (List.filter (fun r => negb (is_blank r)) body)
  end.

(** [csv.field_size_limit()], which the module leaves at its default: the
    reader raises [_csv.Error] on a field that grows beyond it. *)
Definition field_size_limit : Z := 131072.

Definition oversized (cell : string) : bool :=
  (field_size_limit <? Z.of_nat (String.length cell))%Z.

(** [list(reader)] on the rows of the text: every row is parsed, the header's
    included, and a field over the limit anywhere ends the listing with
    [_csv.Error]. *)
Definition list_DictReader (rows : list csv_row) : Py (list dict) :=
  if existsb (existsb oversized) rows then raise CsvError
  else ret (DictReader rows).

Definition get_journal_data : Py (list dict) :=
  try_except
    (rows <- open_read DATA_FILE ;; list_DictReader (read_text rows))%py
    (fun e => match e with
              | FileNotFoundError _ => Some (ret [])
              | _ => None
              end).

(** ** Python numbers: [str], true division, [f"{x:.2f}"] *)

(** [str(n)] for a non-negative [int]. *)
Definition str (n : nat) : string := NilZero.string_of_uint (Nat.to_uint n).

(** [float(n)] for a non-negative [int]; exact below 2^53, which every
    [len(...)] is. *)
Definition float_of_nat (n : nat) : float :=
  PrimFloat.of_uint63 (Uint63.of_Z (Z.of_nat n)).

(** Round the fraction [n / d] ([d > 0]) to the nearest integer, ties to
    even. *)
Definition round_half_even (n d : Z) : Z :=
  let q := (n / d)%Z in
  let r := (n mod d)%Z in
  match (2 * r ?= d)%Z with
  | Lt => q
  | Gt => (q + 1)%Z
  | Eq => if Z.even q then q else (q + 1)%Z
  end.

(** The number of hundredths nearest to [m * 2^e]. *)
Definition hundredths (m : positive) (e : Z) : Z :=
  if (0 <=? e)%Z then (Z.pos m * 2 ^ e * 100)%Z
  else round_half_even (Z.pos m * 100) (2 ^ (- e)).

Definition digits (n : Z) : string := NilZero.string_of_uint (N.to_uint (Z.to_N n)).

Definition fixed2 (h : Z) : string :=
  let frac := (h mod 100)%Z in
  (digits (h / 100) ++ "." ++ (if (frac <? 10)%Z then "0" else EmptyString) ++ digits frac)%string.

(** [f"{x:.2f}"]: the decimal expansion of the binary64 value [x], correctly
    rounded (ties to even) to two places. *)
Definition format_2f (x : float) : string :=
  match Prim2SF x with
  | S754_nan => "nan"
  | S754_infinity s => if s then "-inf" else "inf"
  | S754_zero s => ((if s then "-" else EmptyString) ++ "0.00")%string
  | S754_finite s m e => ((if s then "-" else EmptyString) ++ fixed2 (hundredths m e))%string
  end.

(** [(count / total_trades) * 100 if total_trades > 0 else 0] *)
Definition rate (count total_trades : nat) : float :=
  if (0 <? total_trades)%nat
  then (float_of_nat count / float_of_nat total_trades * 100)%float
  else 0%float.

(** The exact value [m * 2^e] of a finite binary64 number. *)
Definition scaled (m e : Z) : Q := (inject_Z m * 2 ^ e)%Q.

Definition spec_value (x : spec_float) : option Q :=
  match x with
  | S754_zero _ => Some 0%Q
  | S754_finite s m e => Some (if s then (- scaled (Z.pos m) e)%Q else scaled (Z.pos m) e)
  | _ => None
  end.

Definition float_value (x : float) : option Q := spec_value (Prim2SF x).

(** A shift record that has lost no bit so far. *)
Definition exact_record (r : shr_record) : Prop := shr_r r = false /\ shr_s r = false.

(** [x] is a non-negative finite number of value at most [b]. *)
Definition at_most (x : spec_float) (b : Q) : Prop :=
  match x with
  | S754_zero false => (0 <= b)%Q
  | S754_finite false m e => (scaled (Z.pos m) e <= b)%Q
  | _ => False
  end.

(** ** A decimal-literal reader, one instance of [pandas.to_numeric] on a cell *)

Definition digit_of (c : ascii) : option Z :=
  let n := nat_of_ascii c in
  if ((48 <=? n) && (n <=? 57))%nat then Some (Z.of_nat n - 48)%Z else None.

(** Reads [digits] or [digits.digits]; returns numerator and denominator. *)
Fixpoint read_digits (s : string) (num : Z) (den : positive) (seen_dot : bool)
  : option (Z * positive) :=
  match s with
  | EmptyString => Some (num, den)
  | String c rest =>
      if Ascii.eqb c "."%char then
        if seen_dot then None else read_digits rest num den true
      else
        match digit_of c with
        | Some d => read_digits rest (10 * num + d)%Z
                      (if seen_dot then (10 * den)%positive else den) seen_dot
        | None => None
        end
  end.

Definition has_digit (s : string) : bool :=
  existsb (fun c => bool_decide (is_Some (digit_of c))) (list_ascii_of_string s).

Definition decimal_literal (s : string) : option Q :=
  let '(neg, body) :=
    match s with
    | String "-"%char rest => (true, rest)
    | String "+"%char rest => (false, rest)
    | _ => (false, s)
    end in
  if has_digit body then
    match read_digits body 0 1 false with
    | Some (n, d) => Some (if neg then (- n # d)%Q else (n # d)%Q)
    | None => None
    end
  else None.

(** ** Numbers as pandas and numpy hold them *)

(** The dtype [pd.to_numeric] gives a column: one of the two 64-bit integer
    types when every cell reads as an integer, [float64] as soon as one cell
    reads as a float or as no number at all. *)
Inductive dtype : Type := int64 | uint64 | float64.

(** A scalar a reduction returns: an integer or a binary64 number. *)
Inductive number : Type :=
| Int (z : Z)
| Float (f : float).

Definition number_value (x : number) : option Q :=
  match x with
  | Int z => Some (inject_Z z)
  | Float f => float_value f
  end.

(** The binary64 number nearest to a rational, ties to even: what a cell of
    a [float64] column holds for the number the cell denotes. *)
Definition binary64 (q : Q) : float :=
  let q := Qred q in
  match Qnum q with
  | Z0 => 0%float
  | Zpos n =>
      SF2Prim (SFdiv FloatOps.prec FloatOps.emax
                 (S754_finite false n 0) (S754_finite false (Qden q) 0))
  | Zneg n =>
      SF2Prim (SFdiv FloatOps.prec FloatOps.emax
                 (S754_finite true n 0) (S754_finite false (Qden q) 0))
  end.

(** The integer a cell of an integer column holds. *)
Definition whole (q : Q) : Z := (Qnum q / Z.pos (Qden q))%Z.

(** Addition in [int64] wraps around. *)
Definition wrap_int64 (z : Z) : Z := ((z + 2 ^ 63) mod 2 ^ 64 - 2 ^ 63)%Z.

(** An integer literal: an optional sign, then digits only. *)
Definition integer_literal (s : string) : bool :=
  let body :=
    match s with
    | String "-"%char rest => rest
    | String "+"%char rest => rest
    | _ => s
    end in
  has_digit body &&
  forallb (fun c => bool_decide (is_Some (digit_of c))) (list_ascii_of_string body).

Definition integer_cell (cell : option (option string)) : option Z :=
  match cell with
  | Some (Some text) =>
      if integer_literal text then whole <$> decimal_literal text else None
  | _ => None
  end.

(** The dtype of the converted column for cells read by [decimal_literal]:
    [int64] when every cell is an integer literal within its range; [uint64]
    when every cell is an integer literal, none is negative and all are below
    2^64; [float64] otherwise, so as soon as a cell has a decimal point, is
    no number, or is missing. *)
Definition decimal_dtype (raw : list (option (option string))) : dtype :=
  match mapM integer_cell raw with
  | Some zs =>
      if forallb (fun z => (- 2 ^ 63 <=? z) && (z <? 2 ^ 63))%Z zs then int64
      else if forallb (fun z => (0 <=? z) && (z <? 2 ^ 64))%Z zs then uint64
      else float64
  | None => float64
  end.

(** numpy's pairwise summation of a contiguous [float64] array
    ([DOUBLE_pairwise_sum]): fewer than eight elements are added from left to
    right; up to 128 elements go into eight accumulators, element [i] into
    accumulator [i mod 8], which are then added as a balanced tree, and the
    elements left over are added one by one; a longer array is split near its
    middle, at a multiple of eight, and the sums of the halves are added. *)
Definition add8 (r a : list float) : list float :=
  map (fun p => (p.1 + p.2)%float) (combine r a).

Fixpoint unrolled (blocks : nat) (r a : list float) : list float * list float :=
  match blocks with
  | O => (r, a)
  | S b =>
      if (8 <=? length a)%nat then unrolled b (add8 r (firstn 8 a)) (skipn 8 a)
      else (r, a)
  end.

Definition accumulate (r : list float) : float :=
  match r with
  | [r0; r1; r2; r3; r4; r5; r6; r7] =>
      (((r0 + r1) + (r2 + r3)) + ((r4 + r5) + (r6 + r7)))%float
  | _ => 0%float
  end.

Fixpoint pairwise_sum (fuel : nat) (a : list float) : float :=
  let n := length a in
  if (n <? 8)%nat then fold_left PrimFloat.add a 0%float
  else if (n <=? 128)%nat then
    let '(r, rest) := unrolled n (firstn 8 a) (skipn 8 a) in
    fold_left PrimFloat.add rest (accumulate r)
  else
    match fuel with
    | O => 0%float
    | S fuel' =>
        let n2 := (n / 2 - (n / 2) mod 8)%nat in
        (pairwise_sum fuel' (firstn n2 a) + pairwise_sum fuel' (skipn n2 a))%float
    end.

Definition numpy_sum (a : list float) : float := pairwise_sum (length a) a.

(** A binary64 number that holds the integer [z], in canonical form. *)
Definition int_float (f : spec_float) (z : Z) : Prop :=
  match z with
  | 0%Z => f = S754_zero false
  | _ => exists m e, f = S754_finite (z <? 0)%Z m e /\
           digits2_pos m = 53%positive /\ (-52 <= e <= 0)%Z /\
           Z.pos m = (Z.abs z * 2 ^ (- e))%Z
  end.

(** Lists of binary64 numbers that hold integers. *)
Definition ints (a : list float) (zs : list Z) : Prop :=
  Forall2 (fun f z => int_float (Prim2SF f) z) a zs.

Definition sumZ (zs : list Z) : Z := fold_right Z.add 0%Z zs.

Definition abs_sum (zs : list Z) : Z := fold_right (fun z acc => (Z.abs z + acc)%Z) 0%Z zs.

(** A rational that is a whole number. *)
Definition whole_number (q : Q) : Prop := Qden (Qred q) = 1%positive.

(** ** The summary *)

Record Summary : Type := {
  total_trades : nat;          (* "Total Number of Trades" *)
  winning_trades : nat;        (* "Total Number of Winning Trades" *)
  losing_trades : nat;         (* "Total Number of Losing Trades" *)
  break_even_trades : nat;     (* "Total Number of Break Even Trades" *)
  win_rate : string;           (* "Total Number of Win Rate in %" *)
  lose_rate : string;          (* "Total Number of Lose Rate in %" *)
  largest_win : Q;             (* "Largest Winning Trade" *)
  largest_loss : Q;            (* "Largest Losing Trade" *)
  total_pl : number            (* "Total P/L" *)
}.

(** The dictionary returned under [if not data]. *)
Definition empty_summary : Summary :=
  {| total_trades := 0; winning_trades := 0; losing_trades := 0;
     break_even_trades := 0; win_rate := "0.00"; lose_rate := "0.00";
     largest_win := 0%Q; largest_loss := 0%Q; total_pl := Int 0 |}.

(** ** pandas: frames built from row dictionaries, numeric columns *)

Definition has_key (key : string) (d : dict) : bool :=
  bool_decide (is_Some (fields d !! key)).

(** [pd.DataFrame(data)[key]]: the frame has a column for every key that
    occurs in some row; a row without the key holds NaN there (the outer
    [None]). A key that occurs in no row raises [KeyError]. *)
Definition frame_column (data : list dict) (key : string)
  : exn + list (option (option string)) :=
  if existsb (has_key key) data
  then inr (map (fun d => fields d !! key) data)
  else inl (KeyError key).

Definition Qltb (x y : Q) : bool := negb (Qle_bool y x).

(** [len(df[mask])] for a mask computed from the numeric column. *)
Definition count_where (mask : Q -> bool) (column : list Q) : nat :=
  length (List.filter mask column).

(** [Series.max()] and [Series.min()] of a numeric column without NaN. On an
    empty column pandas answers NaN; [calculate_summary] only reaches them
    with [len(df) >= 1]. *)
Definition series_max (column : list Q) : Q :=
  match column with
  | [] => 0%Q
  | x :: xs => fold_left Qmax xs x
  end.

Definition series_min (column : list Q) : Q :=
  match column with
  | [] => 0%Q
  | x :: xs => fold_left Qmin xs x
  end.

(** [Series.sum()] of a numeric column without NaN, by its dtype: integer
    addition wraps around at 64 bits, whatever the order; a [float64] column
    is summed by numpy's pairwise summation. *)
Definition series_sum (dt : dtype) (column : list Q) : number :=
  match dt with
  | int64 => Int (wrap_int64 (fold_left Z.add (map whole column) 0%Z))
  | uint64 => Int (fold_left Z.add (map whole column) 0%Z mod 2 ^ 64)%Z
  | float64 => Float (numpy_sum (map binary64 column))
  end.

(** ** The request handler's vocabulary *)

Inductive request : Type :=
| GET
| POST (form : gmap string string).

Inductive response : Type :=
| Redirect (endpoint : string)
| RenderTemplate (template : string) (journal_data : list dict) (summary_data : Summary).

(** [request.form[key]]: a missing key aborts the request with 400. *)
Definition form_get (form : gmap string string) (key : string) : Py string :=
  match form !! key with
  | Some v => ret v
  | None => raise (BadRequestKeyError key)
  end.

Definition FORM_KEYS : list string :=
  [ "script_name"; "time"; "long_short"; "entry_price"; "sl"; "quantity";
    "account_risked"; "target_price"; "exit_price"; "exit_time"; "rr"; "pl";
    "follow_rules" ].

(** The words of the specification: "win rate = winning/total × 100,
    formatted to two decimal places, "0.00" when total is zero", the quotient
    taken over the rationals and printed as the nearest number of hundredths;
    [ties] says where a quotient half-way between two of them goes. *)
Definition spec_rate (ties : Z -> Z -> Z) (count total : nat) : string :=
  match total with
  | O => "0.00"
  | S _ => fixed2 (ties (Z.of_nat count * 10000)%Z (Z.of_nat total))
  end.

(** The quotient [count / total × 100] over the rationals, before any
    rounding to binary64. *)
Definition exact_rate (count total : nat) : Q :=
  (inject_Z (Z.of_nat count) / inject_Z (Z.of_nat total) * 100)%Q.

(** [m] is the greatest (least) element of [l]. *)
Definition is_maximum (m : Q) (l : list Q) : Prop :=
  In m l /\ forall x, In x l -> (x <= m)%Q.

Definition is_minimum (m : Q) (l : list Q) : Prop :=
  In m l /\ forall x, In x l -> (m <= x)%Q.

(** The arithmetic sum of a list of numbers. *)
Fixpoint sum_list (l : list Q) : Q :=
  match l with
  | [] => 0%Q
  | x :: xs => (x + sum_list xs)%Q
  end.

(** A journal row as [index] writes it, with the given sequence number and
    P/L cell, and the dictionary the reader makes of it. *)
Definition sample_row (sl_no : nat) (pl : string) : csv_row :=
  [ str sl_no; "NIFTY"; "09:30"; "Long"; "100"; "95"; "10"; "1"; "110"; "108";
    "10:15"; "2"; pl; "Yes" ].

Definition sample_record (sl_no : nat) (pl : string) : dict :=
  DictReader_row HEADER (sample_row sl_no pl).

Definition sample_form (pl : string) : gmap string string :=
  list_to_map
    [ ("script_name", "NIFTY"); ("time", "09:30"); ("long_short", "Long");
      ("entry_price", "100"); ("sl", "95"); ("quantity", "10");
      ("account_risked", "1"); ("target_price", "110"); ("exit_price", "108");
      ("exit_time", "10:15"); ("rr", "2"); ("pl", pl); ("follow_rules", "Yes") ].



(** The example of the specification: P/L values 100, -50 and 0. *)
Definition example_journal : list dict :=
  [ sample_record 1 "100"; sample_record 2 "-50"; sample_record 3 "0" ].

(** Eleven trades: two winners and nine losers. *)
Definition eleven_trades : list dict :=
  map (fun i => sample_record i (if (i <=? 2)%nat then "120.50" else "-40")) (seq 1 11).

(** Twenty-three winners among a hundred and sixty trades. *)
Definition trades_23_of_160 : list dict :=
  map (fun i => sample_record i (if (i <=? 23)%nat then "10" else "-10")) (seq 1 160).




(** What [calculate_summary] puts into each entry, read off the numeric
    column it works on. *)
Definition summarises (s : Summary) (column : list Q) (total : number) : Prop :=
  total_trades s = length column /\
  winning_trades s = count_where (fun x => Qltb 0 x) column /\
  losing_trades s = count_where (fun x => Qltb x 0) column /\
  break_even_trades s = count_where (fun x => Qeq_bool x 0) column /\
  win_rate s = format_2f (rate (winning_trades s) (total_trades s)) /\
  lose_rate s = format_2f (rate (losing_trades s) (total_trades s)) /\
  largest_win s =
    (if (0 <? winning_trades s)%nat then series_max column else 0%Q) /\
  largest_loss s =
    (if (0 <? losing_trades s)%nat then series_min column else 0%Q) /\
  total_pl s = total.

(** * The page's script *)

(** A trade document as [updateSummary] reads it: its [pl] property, the
    number the form handler stored with [parseFloat] (NaN for text that is no
    number), or [undefined] for a document without the property. *)
Record trade : Type := Trade {
  doc_id : string;
  pl : option float
}.

(** What the callers pass: the array built from a snapshot, or the object
    literal [{}] of the sign-out handler. *)
Inductive js_value : Type :=
| JsArray (trades : list trade)
| JsEmptyObject.

(** The one exception the script can raise; its message is the engine's. *)
Inductive js_error : Type :=
| TypeError.

(** An element of the page: its text and the ordered set of the tokens of its
    [class] attribute. *)
Record element : Type := Element {
  textContent : string;
  classList : list string
}.

Abbreviation document := (gmap string element).

Definition Js (A : Type) : Type := document -> (js_error + A) * document.

Definition js_bind {A B} (m : Js A) (k : A -> Js B) : Js B :=
  fun doc =>
    match m doc with
    | (inl e, doc') => (inl e, doc')
    | (inr a, doc') => k a doc'
    end.

Declare Scope js_scope.
Delimit Scope js_scope with js.
Notation "m ;;; k" := (js_bind m (fun _ => k))
  (at level 100, right associativity) : js_scope.

(** [document.getElementById(id).textContent = text] *)
Definition set_textContent (id text : string) : Js unit :=
  fun doc =>
    match doc !! id with
    | Some el => (inr tt, <[id := Element text (classList el)]> doc)
    | None => (inl TypeError, doc)
    end.

(** [document.getElementById(id).classList.remove(...tokens)] *)
Definition classList_remove (id : string) (tokens : list string) : Js unit :=
  fun doc =>
    match doc !! id with
    | Some el =>
        (inr tt,
         <[id := Element (textContent el)
                   (List.filter (fun c => negb (bool_decide (c ∈ tokens))) (classList el))]> doc)
    | None => (inl TypeError, doc)
    end.

(** [document.getElementById(id).classList.add(token)] *)
Definition classList_add (id token : string) : Js unit :=
  fun doc =>
    match doc !! id with
    | Some el =>
        (inr tt,
         <[id := Element (textContent el)
                   (if bool_decide (token ∈ classList el) then classList el
                    else classList el ++ [token])]> doc)
    | None => (inl TypeError, doc)
    end.

(** [x > y] and [x < y] for a property value [x] and a number [y]:
    [undefined] converts to NaN, which compares false. *)
Definition js_gt (x : option float) (y : float) : bool :=
  match x with
  | Some a => (y <? a)%float
  | None => false
  end.

Definition js_lt (x : option float) (y : float) : bool :=
  match x with
  | Some a => (a <? y)%float
  | None => false
  end.

(** A number is falsy when it is 0, -0 or NaN; [undefined] is falsy. *)
Definition falsy_number (a : float) : bool := (a =? 0)%float || negb (a =? a)%float.

Definition falsy (x : option float) : bool :=
  match x with
  | Some a => falsy_number a
  | None => true
  end.

(** [x || 0] *)
Definition or_zero (x : option float) : float :=
  match x with
  | Some a => if falsy_number a then 0%float else a
  | None => 0%float
  end.

(** [trades.reduce((sum, t) => sum + (t.pl || 0), 0)] *)
Definition totalPL (trades : list trade) : float :=
  fold_left (fun sum t => (sum + or_zero (pl t))%float) trades 0%float.

(** [trades.reduce((max, t) => t.pl > max ? t.pl : max, 0)] *)
Definition largestWin (trades : list trade) : float :=
  fold_left (fun max t => if js_gt (pl t) max then default max (pl t) else max)
            trades 0%float.

(** [trades.reduce((min, t) => t.pl < min ? t.pl : min, 0)] *)
Definition largestLoss (trades : list trade) : float :=
  fold_left (fun min t => if js_lt (pl t) min then default min (pl t) else min)
            trades 0%float.

Definition winningTrades (trades : list trade) : nat :=
  length (List.filter (fun t => js_gt (pl t) 0) trades).

Definition losingTrades (trades : list trade) : nat :=
  length (List.filter (fun t => js_lt (pl t) 0) trades).

(** Round the fraction [n / d] ([d > 0], [n >= 0]) to the nearest integer,
    ties upwards. *)
Definition round_half_up (n d : Z) : Z := ((2 * n + d) / (2 * d))%Z.

Definition hundredths_up (m : positive) (e : Z) : Z :=
  if (0 <=? e)%Z then (Z.pos m * 2 ^ e * 100)%Z
  else round_half_up (Z.pos m * 100) (2 ^ (- e)).

(** The class of the total, by its sign. *)
Definition total_class (total : float) : string :=
  if (0 <? total)%float then "text-green-600"
  else if (total <? 0)%float then "text-red-600"
  else "text-gray-600".

Definition TOTAL_CLASSES : list string :=
  [ "text-green-600"; "text-red-600"; "text-gray-600" ].

Definition SUMMARY_IDS : list string :=
  [ "total-trades"; "win-rate"; "total-pl"; "largest-win"; "largest-loss" ].

Section Script.

(** [Number::toString] on the finite numbers of magnitude 10^21 and more,
    which [toFixed] prints in exponent notation. *)
Variable Number_toString : float -> string.

(** [x.toFixed(2)]: below 10^21 the number of hundredths nearest to the
    magnitude of [x], the larger one of two, behind the sign. *)
Definition toFixed2 (x : float) : string :=
  match Prim2SF x with
  | S754_nan => "NaN"
  | S754_infinity s => if s then "-Infinity" else "Infinity"
  | S754_zero _ => "0.00"
  | S754_finite s m e =>
      ((if s then "-" else EmptyString) ++
       (if ((0 <=? e) && (10 ^ 21 <=? Z.pos m * 2 ^ e))%Z
        then Number_toString (abs x)
        else fixed2 (hundredths_up m e)))%string
  end.

Definition updateSummary (trades : js_value) : Js unit :=
  match trades with
  | JsEmptyObject =>
      (* [trades.length] is [undefined]; [trades.filter] is not a function *)
      fun doc => (inl TypeError, doc)
  | JsArray trades =>
      let totalTrades := length trades in
      let winningTrades := winningTrades trades in
      let losingTrades := losingTrades trades in
      let totalPL := totalPL trades in
      let winRate :=
        if (0 <? totalTrades)%nat
        then toFixed2 (float_of_nat winningTrades / float_of_nat totalTrades * 100)%float
        else "0.00" in
      let largestWin := toFixed2 (largestWin trades) in
      let largestLoss := toFixed2 (largestLoss trades) in
      (set_textContent "total-trades" (str totalTrades) ;;;
       set_textContent "win-rate" (winRate ++ "%")%string ;;;
       set_textContent "total-pl" (toFixed2 totalPL) ;;;
       classList_remove "total-pl" TOTAL_CLASSES ;;;
       classList_add "total-pl" (total_class totalPL) ;;;
       set_textContent "largest-win" largestWin ;;;
       set_textContent "largest-loss" largestLoss)%js
  end.

End Script.

(** The summary boxes of the page as the template has them. *)
Definition summary_page : document :=
  list_to_map
    [ ("total-trades", Element "0" ["text-4xl"; "font-extrabold"; "text-blue-600"]);
      ("win-rate", Element "0.00%" ["text-4xl"; "font-extrabold"; "text-purple-600"]);
      ("total-pl", Element "0.00" ["text-4xl"; "font-extrabold"; "text-gray-600"]);
      ("largest-win", Element "0.00" []);
      ("largest-loss", Element "0.00" []) ].

Definition sample_trades : list trade :=
  [ Trade "a" (Some 120.5%float); Trade "b" (Some (-40)%float); Trade "c" None ].

(** Two numbers that are the same or both a zero. *)
Definition same_number (a b : float) : Prop :=
  a = b \/ (exists s s', Prim2SF a = S754_zero s /\ Prim2SF b = S754_zero s').

(** An engine's [Number::toString] for the examples, which print numbers
    below 10^21 only and so never consult it. *)
Definition example_Number_toString (x : float) : string := "1e+21".

(** * The journal's functions *)

Section Journal.

(** [pd.to_numeric(..., errors='coerce')] on the text of one cell: the number
    it denotes, or [None] for NaN. *)
Variable to_numeric : string -> option Q.

(** The dtype [pd.to_numeric(..., errors='coerce')] gives the column for the
    cells of the object column. *)
Variable column_dtype : list (option (option string)) -> dtype.

(** One cell of the frame's object column through
    [pd.to_numeric(df['P/L'], errors='coerce').fillna(0)]. *)
Definition coerce (cell : option (option string)) : option Q :=
  match cell with
  | Some (Some text) => to_numeric text
  | Some None => None
  | None => None
  end.

Definition fillna (value : Q) (x : option Q) : Q := default value x.

(** The P/L of one record after coercion, NaN for a row without the key. *)
Definition pl_of (d : dict) : Q := fillna 0%Q (coerce (fields d !! "P/L")).

Definition calculate_summary (data : list dict) : Py Summary :=
  match data with
  | [] => ret empty_summary
  | _ :: _ =>
      match frame_column data "P/L" with
      | inl e => raise e
      | inr raw =>
          let pl := map (fun cell => fillna 0%Q (coerce cell)) raw in
          let total_trades := length pl in
          let winning_trades := count_where (fun x => Qltb 0 x) pl in
          let losing_trades := count_where (fun x => Qltb x 0) pl in
          let break_even_trades := count_where (fun x => Qeq_bool x 0) pl in
          let win_rate := rate winning_trades total_trades in
          let lose_rate := rate losing_trades total_trades in
          let largest_win :=
            if (0 <? winning_trades)%nat then series_max pl else 0%Q in
          let largest_loss :=
            if (0 <? losing_trades)%nat then series_min pl else 0%Q in
          let total_pl := series_sum (column_dtype raw) pl in
          ret {| total_trades := total_trades;
                 winning_trades := winning_trades;
                 losing_trades := losing_trades;
                 break_even_trades := break_even_trades;
                 win_rate := format_2f win_rate;
                 lose_rate := format_2f lose_rate;
                 largest_win := largest_win;
                 largest_loss := largest_loss;
                 total_pl := total_pl |}
      end
  end.

(** The route [/], methods GET and POST. *)
Definition index (req : request) : Py response :=
  match req with
  | POST form =>
      (journal <- get_journal_data ;;
       let sl_no := (length journal + 1)%nat in
       script_name <- form_get form "script_name" ;;
       time <- form_get form "time" ;;
       long_short <- form_get form "long_short" ;;
       entry_price <- form_get form "entry_price" ;;
       sl <- form_get form "sl" ;;
       quantity <- form_get form "quantity" ;;
       account_risked <- form_get form "account_risked" ;;
       target_price <- form_get form "target_price" ;;
       exit_price <- form_get form "exit_price" ;;
       exit_time <- form_get form "exit_time" ;;
       rr <- form_get form "rr" ;;
       pl <- form_get form "pl" ;;
       follow_rules <- form_get form "follow_rules" ;;
       let new_entry :=
         [ str sl_no; script_name; time; long_short; entry_price; sl; quantity;
           account_risked; target_price; exit_price; exit_time; rr; pl;
           follow_rules ] in
       open_append_row DATA_FILE new_entry ;;;
       ret (Redirect "index"))%py
  | GET =>
      (journal_data <- get_journal_data ;;
       summary_data <- calculate_summary journal_data ;;
       ret (RenderTemplate "index.html" journal_data summary_data))%py
  end.

(** The file systems the application can be in: the module is loaded in a
    directory without a journal, then requests are served. *)
Inductive reachable : filesystem -> Prop :=
| reachable_start (fs : filesystem) :
    fs !! DATA_FILE = None ->
    reachable (ensure_data_file fs).2
| reachable_request (fs : filesystem) (req : request) :
    reachable fs ->
    reachable (index req fs).2.


(** The row [index] appends for a form that has every field. *)
Definition new_entry_of (sl_no : nat) (form : gmap string string) : option csv_row :=
  values ← mapM (fun key => form !! key) FORM_KEYS; Some (str sl_no :: values).

(** The rows below the header are the appended entries: fourteen cells each,
    the first one the position of the row, counted from 1. *)
Definition numbered_rows (rows : list csv_row) : Prop :=
  forall i row, rows !! i = Some row ->
    length row = 14%nat /\ row !! 0%nat = Some (str (S i)).

(** A cell the reader accepts: read back in text mode it stays within the
    field size limit. *)
Definition readable_cell (cell : string) : Prop :=
  oversized (universal_newlines cell) = false.

Definition readable_row (row : csv_row) : Prop := Forall readable_cell row.

Definition journal_file (fs : filesystem) (rows : list csv_row) : Prop :=
  fs !! DATA_FILE = Some (HEADER :: rows) /\ numbered_rows rows /\
  Forall readable_row rows.

(** The row a POST of the form appends, if it appends one, can be read
    back. *)
Definition readable_entry (sl_no : nat) (form : gmap string string) : Prop :=
  forall row, new_entry_of sl_no form = Some row -> readable_row row.

(** The file systems the application reaches when every appended row can be
    read back. *)
Inductive reachable_readable : filesystem -> Prop :=
| readable_start (fs : filesystem) :
    fs !! DATA_FILE = None ->
    reachable_readable (ensure_data_file fs).2
| readable_get (fs : filesystem) :
    reachable_readable fs ->
    reachable_readable (index GET fs).2
| readable_post (fs : filesystem) (form : gmap string string) (journal : list dict) :
    reachable_readable fs ->
    get_journal_data fs = (inr journal, fs) ->
    readable_entry (length journal + 1) form ->
    reachable_readable (index (POST form) fs).2.

(** The record the reader makes of a row written under [HEADER]. *)
Definition listed (row : csv_row) : dict :=
  DictReader_row HEADER (map universal_newlines row).


(** A trade record: a row dictionary that has the P/L field, whatever the
    cell holds (a number, other text, nothing, or the reader's [None]). *)
Definition trade_record (d : dict) : Prop := is_Some (fields d !! "P/L").

(** The numeric P/L column of the frame. *)
Definition pl_column (data : list dict) : list Q := map pl_of data.

(** The cells of the frame's P/L column before the conversion, one per
    record, and the total [calculate_summary] reports for trade records. *)
Definition raw_column (data : list dict) : list (option (option string)) :=
  map (fun d => fields d !! "P/L") data.

Definition total_of (data : list dict) : number :=
  match data with
  | [] => Int 0
  | _ :: _ => series_sum (column_dtype (raw_column data)) (pl_column data)
  end.

(** ** The objects [calculate_summary] is handed

    Python passes [data] by reference: the list and the row dictionaries in
    it are objects the caller keeps, and a callee that assigned to one of
    them would change what the caller sees. The heap holds these objects.
    [pd.DataFrame(data)] copies the cells of the rows into a new frame, and
    the assignment [df['P/L'] = ...] writes to that frame. *)

Abbreviation loc := positive.

Inductive object : Type :=
| PyList (items : list loc)
| PyDict (d : dict)
| DataFrame (rows : list dict) (assigned : gmap string (dtype * list Q))
| SummaryDict (s : Summary).

Record world : Type := World {
  files : filesystem;
  heap : gmap loc object
}.

(** Statements over a world. [None] is for a reference that holds no object
    of the kind the statement needs, which does not happen when [data] is a
    list of row dictionaries. *)
Definition Mem (A : Type) : Type := world -> option ((exn + A) * world).

Definition mem_ret {A} (a : A) : Mem A := fun w => Some (inr a, w).

Definition mem_raise {A} (e : exn) : Mem A := fun w => Some (inl e, w).

Definition mem_stuck {A} : Mem A := fun _ => None.

Definition mem_bind {A B} (m : Mem A) (k : A -> Mem B) : Mem B :=
  fun w =>
    match m w with
    | Some (inr a, w') => k a w'
    | Some (inl e, w') => Some (inl e, w')
    | None => None
    end.

Declare Scope mem_scope.
Delimit Scope mem_scope with mem.
Notation "x <- m ;; k" := (mem_bind m (fun x => k))
  (at level 100, m at next level, right associativity) : mem_scope.
Notation "m ;;; k" := (mem_bind m (fun _ => k))
  (at level 100, right associativity) : mem_scope.

(** A new object, at a location nothing refers to yet. *)
Definition new (o : object) : Mem loc :=
  fun w =>
    let l := fresh (dom (heap w)) in
    Some (inr l, World (files w) (<[l := o]> (heap w))).

Definition load (l : loc) : Mem object :=
  fun w =>
    match heap w !! l with
    | Some o => Some (inr o, w)
    | None => None
    end.

Definition store (l : loc) (o : object) : Mem unit :=
  fun w => Some (inr tt, World (files w) (<[l := o]> (heap w))).

Definition load_list (l : loc) : Mem (list loc) :=
  (o <- load l ;;
   match o with
   | PyList items => mem_ret items
   | _ => mem_stuck
   end)%mem.

Definition load_dict (l : loc) : Mem dict :=
  (o <- load l ;;
   match o with
   | PyDict d => mem_ret d
   | _ => mem_stuck
   end)%mem.

(** The rows [pd.DataFrame(data)] reads through the list. *)
Fixpoint load_rows (items : list loc) : Mem (list dict) :=
  match items with
  | [] => mem_ret []
  | l :: rest =>
      (d <- load_dict l ;; ds <- load_rows rest ;; mem_ret (d :: ds))%mem
  end.

(** A column taken out of a frame: the cells as the rows gave them, or the
    numbers assigned to the column since. *)
Inductive series : Type :=
| ObjectSeries (cells : list (option (option string)))
| NumericSeries (dt : dtype) (values : list Q).

(** [df[key]] *)
Definition getitem (df : loc) (key : string) : Mem series :=
  (o <- load df ;;
   match o with
   | DataFrame rows assigned =>
       match assigned !! key with
       | Some (dt, values) => mem_ret (NumericSeries dt values)
       | None =>
           match frame_column rows key with
           | inr cells => mem_ret (ObjectSeries cells)
           | inl e => mem_raise e
           end
       end
   | _ => mem_stuck
   end)%mem.

(** [df[key] = column] *)
Definition setitem (df : loc) (key : string) (column : dtype * list Q) : Mem unit :=
  (o <- load df ;;
   match o with
   | DataFrame rows assigned => store df (DataFrame rows (<[key := column]> assigned))
   | _ => mem_stuck
   end)%mem.

(** [pd.to_numeric(column, errors='coerce').fillna(0)], a new column. *)
Definition to_numeric_fillna (column : series) : dtype * list Q :=
  match column with
  | ObjectSeries raw => (column_dtype raw, map (fun cell => fillna 0%Q (coerce cell)) raw)
  | NumericSeries dt values => (dt, values)
  end.

(** [calculate_summary(data)] on the objects: [data] is the location of the
    list, the answer the location of the dictionary returned. The masks, the
    filtered frames and the columns taken out again are new objects that
    nothing refers to after the call; they are left out of the heap. *)
Definition calculate_summary_at (data : loc) : Mem loc :=
  (items <- load_list data ;;
   match items with
   | [] => new (SummaryDict empty_summary)
   | _ :: _ =>
       rows <- load_rows items ;;
       df <- new (DataFrame rows ∅) ;;
       raw <- getitem df "P/L" ;;
       setitem df "P/L" (to_numeric_fillna raw) ;;;
       column <- getitem df "P/L" ;;
       match column with
       | NumericSeries dt pl =>
           let total_trades := length pl in
           let winning_trades := count_where (fun x => Qltb 0 x) pl in
           let losing_trades := count_where (fun x => Qltb x 0) pl in
           let break_even_trades := count_where (fun x => Qeq_bool x 0) pl in
           let win_rate := rate winning_trades total_trades in
           let lose_rate := rate losing_trades total_trades in
           let largest_win :=
             if (0 <? winning_trades)%nat then series_max pl else 0%Q in
           let largest_loss :=
             if (0 <? losing_trades)%nat then series_min pl else 0%Q in
           let total_pl := series_sum dt pl in
           new (SummaryDict
                  {| total_trades := total_trades;
                     winning_trades := winning_trades;
                     losing_trades := losing_trades;
                     break_even_trades := break_even_trades;
                     win_rate := format_2f win_rate;
                     lose_rate := format_2f lose_rate;
                     largest_win := largest_win;
                     largest_loss := largest_loss;
                     total_pl := total_pl |})
       | ObjectSeries _ => mem_stuck
       end
   end)%mem.

(** The list at [data] holds the row dictionaries [records], in this order. *)
Definition holds (w : world) (data : loc) (records : list dict) : Prop :=
  exists items, heap w !! data = Some (PyList items) /\
    Forall2 (fun l d => heap w !! l = Some (PyDict d)) items records.

(** What a call answered: the exception raised, or the summary in the
    dictionary returned. *)
Definition answer (r : exn + loc) (w : world) : option (exn + Summary) :=
  match r with
  | inl e => Some (inl e)
  | inr l =>
      match heap w !! l with
      | Some (SummaryDict s) => Some (inr s)
      | _ => None
      end
  end.

(** A world in which the list at location 1 holds the three records of the
    example journal. *)
Definition example_world : world :=
  World ∅ (list_to_map
             [ (1%positive, PyList [2; 3; 4]%positive);
               (2%positive, PyDict (sample_record 1 "100"));
               (3%positive, PyDict (sample_record 2 "-50"));
               (4%positive, PyDict (sample_record 3 "0")) ]).

(** The journals whose total is computed without rounding or wrap-around:
    every P/L value is a whole number, and the sum is within the range of the
    column's integer type or, for a [float64] column, the absolute values add
    up to less than 2^53. *)
Definition whole_in_range (data : list dict) : Prop :=
  Forall (fun d => whole_number (pl_of d)) data /\
  match column_dtype (raw_column data) with
  | int64 => (- 2 ^ 63 <= sum_list (pl_column data) < 2 ^ 63)%Q
  | uint64 => (0 <= sum_list (pl_column data) < 2 ^ 64)%Q
  | float64 => (sum_list (map Qabs (pl_column data)) < 2 ^ 53)%Q
  end.

Definition winners (data : list dict) : list Q :=
  List.filter (fun x => Qltb 0 x) (pl_column data).

Definition losers (data : list dict) : list Q :=
  List.filter (fun x => Qltb x 0) (pl_column data).

(** Every field the handler reads is in the submitted form. *)
Definition form_complete (form : gmap string string) : Prop :=
  Forall (fun key => is_Some (form !! key)) FORM_KEYS.

(** ** Comparisons on the numeric column *)

Lemma Qltb_lt (x y : Q) : Qltb x y = true <-> (x < y)%Q.
Proof.
  unfold Qltb. rewrite negb_true_iff. split.
  - intros H. apply Qnot_le_lt. intros Hle.
    apply Qle_bool_iff in Hle. congruence.
  - intros H. destruct (Qle_bool y x) eqn:E; [|reflexivity].
    apply Qle_bool_iff in E. exfalso. eapply Qlt_not_le; eauto.
Qed.

(** A number is positive, negative or zero, and only one of the three. *)
Lemma sign_trichotomy (x : Q) :
  (Qltb 0 x = true /\ Qltb x 0 = false /\ Qeq_bool x 0 = false) \/
  (Qltb 0 x = false /\ Qltb x 0 = true /\ Qeq_bool x 0 = false) \/
  (Qltb 0 x = false /\ Qltb x 0 = false /\ Qeq_bool x 0 = true).
Proof.
  destruct (Q_dec x 0) as [[Hlt | Hgt] | Heq].
  - right; left. repeat split.
    + destruct (Qltb 0 x) eqn:E; [|reflexivity].
      apply Qltb_lt in E. lra.
    + apply Qltb_lt; assumption.
    + destruct (Qeq_bool x 0) eqn:E; [|reflexivity].
      apply Qeq_bool_iff in E. lra.
  - left. repeat split.
    + apply Qltb_lt; assumption.
    + destruct (Qltb x 0) eqn:E; [|reflexivity].
      apply Qltb_lt in E. lra.
    + destruct (Qeq_bool x 0) eqn:E; [|reflexivity].
      apply Qeq_bool_iff in E. lra.
  - right; right. repeat split.
    + destruct (Qltb 0 x) eqn:E; [|reflexivity].
      apply Qltb_lt in E. lra.
    + destruct (Qltb x 0) eqn:E; [|reflexivity].
      apply Qltb_lt in E. lra.
    + apply Qeq_bool_iff; assumption.
Qed.

Lemma count_where_cons (mask : Q -> bool) (x : Q) (xs : list Q) :
  count_where mask (x :: xs) =
  ((if mask x then 1 else 0) + count_where mask xs)%nat.
Proof. unfold count_where. simpl. destruct (mask x); reflexivity. Qed.


Lemma count_partition (column : list Q) :
  (count_where (fun x => Qltb 0 x) column
   + count_where (fun x => Qltb x 0) column
   + count_where (fun x => Qeq_bool x 0) column)%nat = length column.
Proof.
  induction column as [|x xs IH]; [reflexivity|].
  rewrite !count_where_cons. simpl length.
  destruct (sign_trichotomy x) as [(-> & -> & ->) | [(-> & -> & ->) | (-> & -> & ->)]];
    lia.
Qed.

Lemma count_where_pos_iff (mask : Q -> bool) (column : list Q) :
  (0 <? count_where mask column)%nat = true <-> List.filter mask column <> [].
Proof.
  unfold count_where. rewrite Nat.ltb_lt.
  destruct (List.filter mask column); simpl; split; intros; try lia; congruence.
Qed.

(** ** Extrema and sum of a column *)

Lemma Qmax_cases (x y : Q) : (Qmax x y = x /\ (y <= x)%Q) \/ (Qmax x y = y /\ (x <= y)%Q).
Proof.
  unfold Qmax, GenericMinMax.gmax.
  destruct (Qcompare x y) eqn:E.
  - left. split; [reflexivity|]. apply Qeq_alt in E. lra.
  - right. split; [reflexivity|]. apply Qlt_alt in E. lra.
  - left. split; [reflexivity|]. apply Qgt_alt in E. lra.
Qed.

Lemma Qmin_cases (x y : Q) : (Qmin x y = x /\ (x <= y)%Q) \/ (Qmin x y = y /\ (y <= x)%Q).
Proof.
  unfold Qmin, GenericMinMax.gmin.
  destruct (Qcompare x y) eqn:E.
  - left. split; [reflexivity|]. apply Qeq_alt in E. lra.
  - left. split; [reflexivity|]. apply Qlt_alt in E. lra.
  - right. split; [reflexivity|]. apply Qgt_alt in E. lra.
Qed.

Lemma fold_max_spec (xs : list Q) (x : Q) :
  is_maximum (fold_left Qmax xs x) (x :: xs).
Proof.
  revert x. induction xs as [|y ys IH]; intros x.
  - simpl. split; [left; reflexivity|].
    intros z [<- | []]. lra.
  - simpl fold_left. destruct (IH (Qmax x y)) as [Hin Hle].
    split.
    + destruct Hin as [Heq | Hin].
      * destruct (Qmax_cases x y) as [[E _] | [E _]]; rewrite E in Heq |- *.
        -- left; assumption.
        -- right; left; assumption.
      * right; right; assumption.
    + intros z Hz.
      assert (Hm : (Qmax x y <= fold_left Qmax ys (Qmax x y))%Q)
        by (apply Hle; left; reflexivity).
      destruct Hz as [<- | [<- | Hz]].
      * destruct (Qmax_cases x y) as [[E ?] | [E ?]]; rewrite E in *; lra.
      * destruct (Qmax_cases x y) as [[E ?] | [E ?]]; rewrite E in *; lra.
      * apply Hle. right; assumption.
Qed.

Lemma fold_min_spec (xs : list Q) (x : Q) :
  is_minimum (fold_left Qmin xs x) (x :: xs).
Proof.
  revert x. induction xs as [|y ys IH]; intros x.
  - simpl. split; [left; reflexivity|].
    intros z [<- | []]. lra.
  - simpl fold_left. destruct (IH (Qmin x y)) as [Hin Hle].
    split.
    + destruct Hin as [Heq | Hin].
      * destruct (Qmin_cases x y) as [[E _] | [E _]]; rewrite E in Heq |- *.
        -- left; assumption.
        -- right; left; assumption.
      * right; right; assumption.
    + intros z Hz.
      assert (Hm : (fold_left Qmin ys (Qmin x y) <= Qmin x y)%Q)
        by (apply Hle; left; reflexivity).
      destruct Hz as [<- | [<- | Hz]].
      * destruct (Qmin_cases x y) as [[E ?] | [E ?]]; rewrite E in *; lra.
      * destruct (Qmin_cases x y) as [[E ?] | [E ?]]; rewrite E in *; lra.
      * apply Hle. right; assumption.
Qed.

Lemma series_max_spec (column : list Q) :
  column <> [] -> is_maximum (series_max column) column.
Proof. destruct column; [congruence|]. intros _. apply fold_max_spec. Qed.

Lemma series_min_spec (column : list Q) :
  column <> [] -> is_minimum (series_min column) column.
Proof. destruct column; [congruence|]. intros _. apply fold_min_spec. Qed.

(** The greatest element of the whole column is the greatest winner as soon
    as there is one winner. *)
Lemma maximum_of_winners (m : Q) (column : list Q) :
  is_maximum m column ->
  List.filter (fun x => Qltb 0 x) column <> [] ->
  is_maximum m (List.filter (fun x => Qltb 0 x) column) /\ (0 < m)%Q.
Proof.
  intros [Hin Hle] Hne.
  destruct (List.filter (fun x => Qltb 0 x) column) as [|w ws] eqn:E; [congruence|].
  assert (Hw : In w column /\ Qltb 0 w = true).
  { apply (proj1 (filter_In (fun x => Qltb 0 x) w column)). rewrite E. left; reflexivity. }
  destruct Hw as [Hw Hpos]. apply Qltb_lt in Hpos.
  assert (Hm : (0 < m)%Q) by (specialize (Hle w Hw); lra).
  rewrite <- E. split; [split|assumption].
  - apply filter_In. split; [assumption|]. apply Qltb_lt; assumption.
  - intros x Hx. apply filter_In in Hx. apply Hle, Hx.
Qed.

Lemma minimum_of_losers (m : Q) (column : list Q) :
  is_minimum m column ->
  List.filter (fun x => Qltb x 0) column <> [] ->
  is_minimum m (List.filter (fun x => Qltb x 0) column) /\ (m < 0)%Q.
Proof.
  intros [Hin Hle] Hne.
  destruct (List.filter (fun x => Qltb x 0) column) as [|w ws] eqn:E; [congruence|].
  assert (Hw : In w column /\ Qltb w 0 = true).
  { apply (proj1 (filter_In (fun x => Qltb x 0) w column)). rewrite E. left; reflexivity. }
  destruct Hw as [Hw Hneg]. apply Qltb_lt in Hneg.
  assert (Hm : (m < 0)%Q) by (specialize (Hle w Hw); lra).
  rewrite <- E. split; [split|assumption].
  - apply filter_In. split; [assumption|]. apply Qltb_lt; assumption.
  - intros x Hx. apply filter_In in Hx. apply Hle, Hx.
Qed.

Lemma fold_left_Qplus (xs : list Q) (acc : Q) :
  (fold_left Qplus xs acc == acc + sum_list xs)%Q.
Proof.
  revert acc. induction xs as [|x xs IH]; intros acc; simpl.
  - lra.
  - rewrite IH. lra.
Qed.


(** ** Running [calculate_summary] *)

Lemma frame_column_records (data : list dict) :
  data <> [] -> Forall trade_record data ->
  frame_column data "P/L" = inr (map (fun d => fields d !! "P/L") data).
Proof.
  intros Hne Hall. unfold frame_column.
  destruct data as [|d rest]; [congruence|].
  apply Forall_cons_1 in Hall as [Hd _].
  simpl existsb. unfold has_key at 1.
  rewrite (bool_decide_eq_true_2 _ Hd). reflexivity.
Qed.

Lemma pl_column_map (data : list dict) :
  map (fun cell => fillna 0%Q (coerce cell)) (map (fun d => fields d !! "P/L") data)
  = pl_column data.
Proof. unfold pl_column. rewrite map_map. reflexivity. Qed.

Lemma calculate_summary_run (data : list dict) (fs : filesystem) :
  Forall trade_record data ->
  exists s, calculate_summary data fs = (inr s, fs) /\
    summarises s (pl_column data) (total_of data).
Proof.
  intros Hall. destruct data as [|d rest].
  - exists empty_summary. split; [reflexivity|].
    unfold summarises. simpl. repeat split; reflexivity.
  - assert (Hcol := frame_column_records (d :: rest) ltac:(discriminate) Hall).
    unfold calculate_summary. rewrite Hcol, pl_column_map.
    eexists. split; [reflexivity|].
    unfold summarises. cbn [total_trades winning_trades losing_trades
      break_even_trades win_rate lose_rate largest_win largest_loss total_pl].
    unfold pl_column. rewrite length_map.
    repeat split; reflexivity.
Qed.

Lemma count_where_zero_iff (mask : Q -> bool) (column : list Q) :
  (0 <? count_where mask column)%nat = false <-> List.filter mask column = [].
Proof.
  unfold count_where. rewrite Nat.ltb_ge.
  destruct (List.filter mask column); simpl; split; intros; try lia; congruence.
Qed.

Lemma filter_nonempty_column (mask : Q -> bool) (column : list Q) :
  List.filter mask column <> [] -> column <> [].
Proof. intros H ->. apply H. reflexivity. Qed.

Lemma largest_win_spec (column : list Q) (m : Q) :
  m = (if (0 <? count_where (fun x => Qltb 0 x) column)%nat
       then series_max column else 0%Q) ->
  (List.filter (fun x => Qltb 0 x) column <> [] ->
     is_maximum m (List.filter (fun x => Qltb 0 x) column)) /\
  (List.filter (fun x => Qltb 0 x) column = [] -> m = 0%Q) /\
  (0 <= m)%Q.
Proof.
  intros ->.
  destruct (0 <? count_where (fun x => Qltb 0 x) column)%nat eqn:E.
  - apply count_where_pos_iff in E.
    destruct (maximum_of_winners (series_max column) column) as [Hmax Hpos].
    + apply series_max_spec. eapply filter_nonempty_column; eassumption.
    + assumption.
    + split; [intros _; assumption|]. split; [intros H; contradiction|]. lra.
  - apply count_where_zero_iff in E.
    split; [intros H; contradiction|].
    split; [reflexivity|]. lra.
Qed.

Lemma largest_loss_spec (column : list Q) (m : Q) :
  m = (if (0 <? count_where (fun x => Qltb x 0) column)%nat
       then series_min column else 0%Q) ->
  (List.filter (fun x => Qltb x 0) column <> [] ->
     is_minimum m (List.filter (fun x => Qltb x 0) column)) /\
  (List.filter (fun x => Qltb x 0) column = [] -> m = 0%Q) /\
  (m <= 0)%Q.
Proof.
  intros ->.
  destruct (0 <? count_where (fun x => Qltb x 0) column)%nat eqn:E.
  - apply count_where_pos_iff in E.
    destruct (minimum_of_losers (series_min column) column) as [Hmin Hneg].
    + apply series_min_spec. eapply filter_nonempty_column; eassumption.
    + assumption.
    + split; [intros _; assumption|]. split; [intros H; contradiction|]. lra.
  - apply count_where_zero_iff in E.
    split; [intros H; contradiction|].
    split; [reflexivity|]. lra.
Qed.

(** ** The summary statistics *)

(** C1. For every sequence of trade records the largest winning trade is the
    maximum P/L among the records with P/L > 0 when there is such a record and
    0 otherwise, the largest losing trade is the minimum P/L among the records
    with P/L < 0 when there is such a record and 0 otherwise; hence the first
    is never negative and the second never positive. *)
Theorem largest_trades_are_bucket_extrema (data : list dict) (fs : filesystem) :
  Forall trade_record data ->
  exists s, calculate_summary data fs = (inr s, fs) /\
    (winners data <> [] -> is_maximum (largest_win s) (winners data)) /\
    (winners data = [] -> largest_win s = 0%Q) /\
    (losers data <> [] -> is_minimum (largest_loss s) (losers data)) /\
    (losers data = [] -> largest_loss s = 0%Q) /\
    (0 <= largest_win s)%Q /\ (largest_loss s <= 0)%Q.
Proof.
  intros Hall.
  destruct (calculate_summary_run data fs Hall)
    as (s & Hrun & _ & Hw & Hl & _ & _ & _ & Hmax & Hmin & _).
  exists s. split; [assumption|].
  rewrite Hw in Hmax. rewrite Hl in Hmin. unfold winners, losers.
  destruct (largest_win_spec _ _ Hmax) as (W1 & W2 & W3).
  destruct (largest_loss_spec _ _ Hmin) as (L1 & L2 & L3).
  exact (conj W1 (conj W2 (conj L1 (conj L2 (conj W3 L3))))).
Qed.

Lemma count_where_records (data : list dict) (mask : Q -> bool) :
  count_where mask (pl_column data)
  = length (List.filter (fun d => mask (pl_of d)) data).
Proof.
  unfold count_where, pl_column.
  induction data as [|d rest IH]; [reflexivity|].
  simpl. destruct (mask (pl_of d)); simpl; rewrite IH; reflexivity.
Qed.

Lemma count_where_Forall2 (mask : Q -> bool) (xs ys : list Q) :
  (forall x y, (x == y)%Q -> mask x = mask y) ->
  Forall2 Qeq xs ys -> count_where mask xs = count_where mask ys.
Proof.
  intros Hmask H. induction H as [|x y xs ys Hxy _ IH]; [reflexivity|].
  rewrite !count_where_cons, IH, (Hmask x y Hxy). reflexivity.
Qed.

Lemma Qltb_0_compat (x y : Q) : (x == y)%Q -> Qltb 0 x = Qltb 0 y.
Proof.
  intros H. destruct (Qltb 0 x) eqn:Ex, (Qltb 0 y) eqn:Ey; try reflexivity.
  - apply Qltb_lt in Ex. assert (Qltb 0 y = true) by (apply Qltb_lt; lra). congruence.
  - apply Qltb_lt in Ey. assert (Qltb 0 x = true) by (apply Qltb_lt; lra). congruence.
Qed.

(** C3. For every sequence of trade records the winning (P/L > 0), losing
    (P/L < 0) and break-even (P/L == 0) counts add up to the total count. *)
Theorem counts_partition_total (data : list dict) (fs : filesystem) :
  Forall trade_record data ->
  exists s, calculate_summary data fs = (inr s, fs) /\
    total_trades s = length data /\
    winning_trades s = length (List.filter (fun d => Qltb 0 (pl_of d)) data) /\
    losing_trades s = length (List.filter (fun d => Qltb (pl_of d) 0) data) /\
    break_even_trades s = length (List.filter (fun d => Qeq_bool (pl_of d) 0) data) /\
    (winning_trades s + losing_trades s + break_even_trades s)%nat = total_trades s.
Proof.
  intros Hall.
  destruct (calculate_summary_run data fs Hall)
    as (s & Hrun & Ht & Hw & Hl & Hb & _).
  exists s. split; [assumption|].
  pose proof (count_where_records data) as Hfilter.
  split; [rewrite Ht; unfold pl_column; apply length_map|].
  split; [rewrite Hw; apply (Hfilter (fun x => Qltb 0 x))|].
  split; [rewrite Hl; apply (Hfilter (fun x => Qltb x 0))|].
  split; [rewrite Hb; apply (Hfilter (fun x => Qeq_bool x 0))|].
  rewrite Hw, Hl, Hb, Ht. apply count_partition.
Qed.


(** C5. On the empty sequence the summary has every count 0, both rate
    strings "0.00", both extrema 0 and total P/L 0. *)
Theorem empty_journal_summary (fs : filesystem) :
  exists s, calculate_summary [] fs = (inr s, fs) /\
    total_trades s = 0%nat /\ winning_trades s = 0%nat /\
    losing_trades s = 0%nat /\ break_even_trades s = 0%nat /\
    win_rate s = "0.00" /\ lose_rate s = "0.00" /\
    largest_win s = 0%Q /\ largest_loss s = 0%Q /\ total_pl s = Int 0.
Proof.
  exists empty_summary. repeat split; reflexivity.
Qed.

(** The file system passes through [calculate_summary] untouched and unread. *)
Lemma calculate_summary_frame (data : list dict) (fs : filesystem) :
  calculate_summary data fs = ((calculate_summary data ∅).1, fs).
Proof.
  unfold calculate_summary. destruct data; [reflexivity|].
  destruct (frame_column _ _); reflexivity.
Qed.

Lemma load_rows_holds (w : world) (items : list loc) (records : list dict) :
  Forall2 (fun l d => heap w !! l = Some (PyDict d)) items records ->
  load_rows items w = Some (inr records, w).
Proof.
  induction 1 as [|l d items records Hl _ IH]; [reflexivity|].
  cbn [load_rows]. unfold mem_bind, load_dict, load, mem_bind.
  rewrite Hl. cbn. rewrite IH. reflexivity.
Qed.

Lemma fresh_unused (h : gmap loc object) : h !! fresh (dom h) = None.
Proof. apply not_elem_of_dom, is_fresh. Qed.

Lemma new_keeps (h : gmap loc object) (o o' : object) (l : loc) :
  h !! l = Some o -> <[fresh (dom h) := o']> h !! l = Some o.
Proof.
  intros Hl. rewrite lookup_insert_ne; [assumption|].
  intros <-. rewrite fresh_unused in Hl. discriminate.
Qed.

Lemma holds_keeps (w w' : world) (data : loc) (records : list dict) :
  (forall l o, heap w !! l = Some o -> heap w' !! l = Some o) ->
  holds w data records -> holds w' data records.
Proof.
  intros Hkeep (items & Hdata & Hrows). exists items. split; [auto|].
  eapply Forall2_impl; [exact Hrows|]. intros l d Hl. simpl in Hl. auto.
Qed.

(** The call on the objects: it returns, it keeps the files and every object
    there was, and it answers as [calculate_summary] does on the records. *)
Lemma calculate_summary_at_run (w : world) (data : loc) (records : list dict) :
  holds w data records ->
  exists r w',
    calculate_summary_at data w = Some (r, w') /\
    files w' = files w /\
    (forall l o, heap w !! l = Some o -> heap w' !! l = Some o) /\
    answer r w' = Some (calculate_summary records ∅).1.
Proof.
  intros (items & Hdata & Hrows).
  unfold calculate_summary_at, mem_bind at 1, load_list, mem_bind at 1, load.
  rewrite Hdata. cbn [mem_ret].
  destruct Hrows as [|l d items records Hl Hrows].
  - eexists _, _. split; [reflexivity|]. cbn [files heap].
    split; [reflexivity|]. split; [intros; apply new_keeps; assumption|].
    cbn [answer heap]. rewrite lookup_insert_eq. reflexivity.
  - assert (Hload : load_rows (l :: items) w = Some (inr (d :: records), w)).
    { apply load_rows_holds. constructor; assumption. }
    unfold mem_bind at 1. rewrite Hload.
    set (rows := d :: records). set (h := heap w).
    set (df := fresh (dom h)).
    unfold mem_bind at 1, new. fold h. fold df.
    unfold mem_bind at 1, getitem, mem_bind at 1, load. cbn [heap files].
    rewrite lookup_insert_eq, lookup_empty.
    unfold calculate_summary. fold rows.
    destruct (frame_column rows "P/L") as [e|raw] eqn:Hcol.
    + unfold mem_raise. eexists _, _. split; [reflexivity|]. cbn [files heap].
      split; [reflexivity|]. split; [intros; apply new_keeps; assumption|].
      reflexivity.
    + cbn [mem_ret]. unfold mem_bind at 1, setitem, mem_bind at 1, load.
      cbn [heap files]. rewrite lookup_insert_eq. unfold store. cbn [heap files].
      unfold mem_bind at 1, getitem, mem_bind at 1, load. cbn [heap files].
      rewrite lookup_insert_eq, lookup_insert_eq. cbn [to_numeric_fillna mem_ret].
      unfold new. cbn [heap files].
      eexists _, _. split; [reflexivity|]. cbn [files heap].
      split; [reflexivity|]. split.
      * intros l0 o Hl0. apply new_keeps.
        rewrite lookup_insert_ne.
        -- rewrite lookup_insert_ne; [assumption|].
           intros <-. subst df h. rewrite fresh_unused in Hl0. discriminate.
        -- intros <-. subst df h. rewrite fresh_unused in Hl0. discriminate.
      * cbn [answer heap]. rewrite lookup_insert_eq.
        reflexivity.
Qed.

(** C8. [calculate_summary] is a pure function. Called on a list of row
    dictionaries it returns, leaves the files as they were and every object
    the caller holds as it was (the list and the records in it among them: the
    list holds the same records after the call as before), and its answer is
    a function of the records alone, so two calls on lists that hold equal
    records, the second after the first or from any other state, answer with
    equal summaries. *)
Theorem calculate_summary_pure (w : world) (data : loc) (records : list dict) :
  holds w data records ->
  exists r w',
    calculate_summary_at data w = Some (r, w') /\
    files w' = files w /\
    (forall l o, heap w !! l = Some o -> heap w' !! l = Some o) /\
    holds w' data records /\
    answer r w' = Some (calculate_summary records (files w)).1 /\
    (exists r2 w'', calculate_summary_at data w' = Some (r2, w'') /\
       answer r2 w'' = answer r w') /\
    (forall w2 data2, holds w2 data2 records ->
       exists r2 w2', calculate_summary_at data2 w2 = Some (r2, w2') /\
         answer r2 w2' = answer r w').
Proof.
  intros Hholds.
  destruct (calculate_summary_at_run w data records Hholds)
    as (r & w' & Hrun & Hfiles & Hkeep & Hanswer).
  assert (Hholds' : holds w' data records) by (eapply holds_keeps; eassumption).
  exists r, w'. repeat (split; [assumption|]).
  split; [|split].
  - rewrite Hanswer, (calculate_summary_frame records (files w)). reflexivity.
  - destruct (calculate_summary_at_run w' data records Hholds')
      as (r2 & w'' & Hrun2 & _ & _ & Hanswer2).
    exists r2, w''. split; [assumption|]. congruence.
  - intros w2 data2 Hholds2.
    destruct (calculate_summary_at_run w2 data2 records Hholds2)
      as (r2 & w2' & Hrun2 & _ & _ & Hanswer2).
    exists r2, w2'. split; [assumption|]. congruence.
Qed.

(** ** Binary64: the rates stay within 0 and 100

    The specification of the kernel's floats ([SpecFloat]) gives division and
    multiplication as an exact integer operation followed by
    [binary_round_aux]. The lemmas below bound that rounding from above by any
    number that lies on the grid of the result's exponent, which 1 does for
    the quotient of two counts and 100 for the product. *)

Section Binary64.

Local Open Scope Z_scope.

Lemma digits2_pos_size (p : positive) : digits2_pos p = Pos.size p.
Proof. induction p; simpl; congruence. Qed.

Lemma digits_upper (p : positive) : Z.pos p < 2 ^ Z.pos (digits2_pos p).
Proof.
  rewrite digits2_pos_size.
  pose proof (Pos.size_gt p) as H.
  rewrite <- Pos2Z.inj_pow. lia.
Qed.

Lemma digits_lower (p : positive) : 2 ^ (Z.pos (digits2_pos p) - 1) <= Z.pos p.
Proof.
  rewrite digits2_pos_size.
  pose proof (Pos.size_le p) as H.
  assert (E : 2 ^ Z.pos (Pos.size p) = 2 * 2 ^ (Z.pos (Pos.size p) - 1)).
  { rewrite <- Z.pow_succ_r by lia. f_equal. lia. }
  assert (Z.pos (2 ^ Pos.size p) <= Z.pos p~0) by lia.
  rewrite Pos2Z.inj_pow in H0. lia.
Qed.

Lemma shr_1_m (r : shr_record) : 0 <= shr_m r -> shr_m (shr_1 r) = shr_m r / 2.
Proof.
  destruct r as [m r s]. cbn [shr_m]. intros H.
  destruct m as [|[p|p|]|p]; cbn [shr_1 shr_m]; try lia.
  - reflexivity.
  - apply Z.div_unique with 1; lia.
  - apply Z.div_unique with 0; lia.
  - reflexivity.
Qed.

Lemma pow2_xO (p : positive) : 2 ^ Z.pos p~0 = 2 ^ Z.pos p * 2 ^ Z.pos p.
Proof.
  replace (Z.pos p~0) with (Z.pos p + Z.pos p) by lia.
  apply Z.pow_add_r; lia.
Qed.

Lemma pow2_xI (p : positive) : 2 ^ Z.pos p~1 = 2 * (2 ^ Z.pos p * 2 ^ Z.pos p).
Proof.
  replace (Z.pos p~1) with (1 + Z.pos p~0) by lia.
  rewrite Z.pow_add_r, pow2_xO by lia. reflexivity.
Qed.

Lemma pow2_pos (e : Z) : 0 <= e -> 0 < 2 ^ e.
Proof. intros H. apply Z.pow_pos_nonneg; lia. Qed.

Lemma iter_shr_1_m (p : positive) (r : shr_record) :
  0 <= shr_m r -> shr_m (SpecFloat.iter_pos shr_1 p r) = shr_m r / 2 ^ Z.pos p.
Proof.
  revert r. induction p as [p IH|p IH|]; intros r Hr; simpl SpecFloat.iter_pos.
  - pose proof (pow2_pos (Z.pos p) ltac:(lia)) as P.
    assert (H1 : 0 <= shr_m (shr_1 r)) by (rewrite shr_1_m by lia; apply Z.div_pos; lia).
    assert (H2 : 0 <= shr_m (SpecFloat.iter_pos shr_1 p (shr_1 r)))
      by (rewrite IH by lia; apply Z.div_pos; lia).
    rewrite IH, IH, shr_1_m by lia.
    rewrite !Z.div_div by lia. rewrite pow2_xI. f_equal; ring.
  - pose proof (pow2_pos (Z.pos p) ltac:(lia)) as P.
    assert (H2 : 0 <= shr_m (SpecFloat.iter_pos shr_1 p r))
      by (rewrite IH by lia; apply Z.div_pos; lia).
    rewrite IH, IH by lia.
    rewrite !Z.div_div by lia. rewrite pow2_xO. reflexivity.
  - rewrite shr_1_m by lia. reflexivity.
Qed.

Lemma shr_1_exact (r : shr_record) :
  0 <= shr_m r -> exact_record r -> shr_m r mod 2 = 0 -> exact_record (shr_1 r).
Proof.
  destruct r as [m r s]. unfold exact_record. cbn [shr_m shr_r shr_s].
  intros H [-> ->] Hm.
  destruct m as [|[p|p|]|p]; cbn [shr_1 shr_r shr_s orb]; try (split; reflexivity); try lia.
  - exfalso. assert (Z.pos p~1 mod 2 = 1) by (symmetry; apply Z.mod_unique with (Z.pos p); lia).
    lia.
  - discriminate.
Qed.

Lemma iter_shr_1_exact (p : positive) (r : shr_record) :
  0 <= shr_m r -> exact_record r -> shr_m r mod 2 ^ Z.pos p = 0 ->
  exact_record (SpecFloat.iter_pos shr_1 p r).
Proof.
  revert r. induction p as [p IH|p IH|]; intros r Hr He Hm; simpl SpecFloat.iter_pos.
  - pose proof (pow2_pos (Z.pos p) ltac:(lia)) as P.
    rewrite pow2_xI in Hm.
    apply Z.mod_divide in Hm; [|nia]. destruct Hm as [k Hk].
    assert (E0 : shr_m r = k * 2 ^ Z.pos p * 2 ^ Z.pos p * 2) by (rewrite Hk; ring).
    assert (E1 : shr_m (shr_1 r) = k * 2 ^ Z.pos p * 2 ^ Z.pos p).
    { rewrite shr_1_m by lia. rewrite E0. apply Z.div_mul. lia. }
    assert (X1 : exact_record (shr_1 r)).
    { apply shr_1_exact; try assumption. rewrite E0. apply Z.mod_mul. lia. }
    assert (H1 : 0 <= shr_m (shr_1 r)) by (rewrite shr_1_m by lia; apply Z.div_pos; lia).
    assert (H2 : 0 <= shr_m (SpecFloat.iter_pos shr_1 p (shr_1 r)))
      by (rewrite iter_shr_1_m by lia; apply Z.div_pos; lia).
    apply IH; try assumption.
    + apply IH; try assumption. rewrite E1. apply Z.mod_mul. lia.
    + rewrite iter_shr_1_m by lia. rewrite E1, Z.div_mul by lia. apply Z.mod_mul. lia.
  - pose proof (pow2_pos (Z.pos p) ltac:(lia)) as P.
    rewrite pow2_xO in Hm.
    apply Z.mod_divide in Hm; [|nia]. destruct Hm as [k Hk].
    assert (E0 : shr_m r = k * 2 ^ Z.pos p * 2 ^ Z.pos p) by (rewrite Hk; ring).
    assert (H2 : 0 <= shr_m (SpecFloat.iter_pos shr_1 p r))
      by (rewrite iter_shr_1_m by lia; apply Z.div_pos; lia).
    apply IH; try assumption.
    + apply IH; try assumption. rewrite E0. apply Z.mod_mul. lia.
    + rewrite iter_shr_1_m by lia. rewrite E0, Z.div_mul by lia. apply Z.mod_mul. lia.
  - apply shr_1_exact; assumption.
Qed.

Lemma two_neq_0 : ~ (2 == 0)%Q.
Proof. intros H. discriminate H. Qed.

Lemma pow2_Q_pos (e : Z) : (0 < 2 ^ e)%Q.
Proof. apply Qpower_0_lt. reflexivity. Qed.

Lemma scaled_shift (m e k : Z) : 0 <= k -> (scaled m (e + k) == scaled (m * 2 ^ k) e)%Q.
Proof.
  intros H. unfold scaled.
  rewrite Qpower_plus by apply two_neq_0.
  rewrite inject_Z_mult, Zpower_Qpower by assumption.
  change (inject_Z 2) with 2%Q. ring.
Qed.

Lemma scaled_le (m m' e : Z) : m <= m' -> (scaled m e <= scaled m' e)%Q.
Proof.
  intros H. unfold scaled. apply Qmult_le_compat_r.
  - rewrite <- Zle_Qle. assumption.
  - apply Qlt_le_weak, pow2_Q_pos.
Qed.

Lemma scaled_nonneg (m e : Z) : 0 <= m -> (0 <= scaled m e)%Q.
Proof.
  intros H. unfold scaled. apply Qmult_le_0_compat.
  - rewrite <- (Zle_Qle 0). assumption.
  - apply Qlt_le_weak, pow2_Q_pos.
Qed.

Lemma shr_m_of_loc (q : Z) (l : location) : shr_m (shr_record_of_loc q l) = q.
Proof. destruct l as [|[]]; reflexivity. Qed.

Lemma shr_spec (q e n : Z) (l : location) :
  0 <= q ->
  exists mrs,
    shr (shr_record_of_loc q l) e n = (mrs, e + Z.max 0 n) /\
    shr_m mrs = q / 2 ^ Z.max 0 n /\
    (l = loc_Exact -> q mod 2 ^ Z.max 0 n = 0 -> exact_record mrs).
Proof.
  intros Hq. destruct n as [|p|p]; cbn [shr Z.max Z.compare].
  - exists (shr_record_of_loc q l). rewrite Z.add_0_r, shr_m_of_loc, Z.div_1_r.
    repeat split; try reflexivity; subst l; reflexivity.
  - exists (SpecFloat.iter_pos shr_1 p (shr_record_of_loc q l)).
    replace (Z.max 0 (Z.pos p)) with (Z.pos p) by lia.
    split; [reflexivity|]. split.
    + rewrite iter_shr_1_m by (rewrite shr_m_of_loc; assumption).
      rewrite shr_m_of_loc. reflexivity.
    + intros -> Hm. apply iter_shr_1_exact.
      * rewrite shr_m_of_loc; assumption.
      * split; reflexivity.
      * rewrite shr_m_of_loc; assumption.
  - exists (shr_record_of_loc q l).
    replace (Z.max 0 (Z.neg p)) with 0 by lia.
    rewrite Z.add_0_r, shr_m_of_loc, Z.div_1_r.
    repeat split; try reflexivity; subst l; reflexivity.
Qed.

Lemma round_nearest_even_bounds (m : Z) (l : location) :
  m <= round_nearest_even m l <= m + 1.
Proof. destruct l as [|[]]; simpl; try destruct (Z.even m); lia. Qed.

Lemma round_nearest_even_exact (mrs : shr_record) :
  exact_record mrs ->
  round_nearest_even (shr_m mrs) (loc_of_shr_record mrs) = shr_m mrs.
Proof. destruct mrs as [m r s]. intros [E1 E2]. simpl in *. subst. reflexivity. Qed.

Lemma Zdigits2_bound (q : Z) : 0 <= q -> q < 2 ^ Zdigits2 q.
Proof.
  destruct q as [|p|p]; intros H; simpl; try lia. apply digits_upper.
Qed.

Lemma Zdigits2_le (q d : Z) : 0 <= q -> 0 <= d -> q < 2 ^ d -> Zdigits2 q <= d.
Proof.
  intros Hq Hd H. destruct q as [|p|p]; simpl; try lia.
  pose proof (digits_lower p) as L.
  destruct (Z_lt_le_dec d (Z.pos (digits2_pos p))) as [Hlt|]; [|assumption].
  exfalso. assert (2 ^ d <= 2 ^ (Z.pos (digits2_pos p) - 1)) by (apply Z.pow_le_mono_r; lia).
  lia.
Qed.

Lemma Zdigits2_nonneg (q : Z) : 0 <= Zdigits2 q.
Proof. destruct q; simpl; lia. Qed.

Lemma fexp64_eq (e : Z) : SpecFloat.fexp FloatOps.prec FloatOps.emax e = Z.max (e - 53) (-1074).
Proof. reflexivity. Qed.

Lemma at_most_value (x : spec_float) (b : Q) :
  at_most x b -> exists v, spec_value x = Some v /\ (0 <= v <= b)%Q.
Proof.
  destruct x as [[|]|s| |[|] m e]; simpl; try contradiction; intros H.
  - exists 0%Q. split; [reflexivity|]. split; [lra|assumption].
  - eexists. split; [reflexivity|]. split; [apply scaled_nonneg; lia|assumption].
Qed.

Lemma at_most_le (x : spec_float) (b b' : Q) :
  at_most x b -> (b <= b')%Q -> at_most x b'.
Proof.
  destruct x as [[|]|s| |[|] m e]; simpl; try contradiction; intros H H'; lra.
Qed.

(** Rounding a non-negative mantissa never goes above a bound that lies on
    the grid of the result's exponent. *)
Lemma binary_round_aux_upper (q e b0 : Z) (l : location) :
  0 <= q ->
  q / 2 ^ Z.max 0 (SpecFloat.fexp FloatOps.prec FloatOps.emax (Zdigits2 q + e) - e) <= b0 ->
  (q / 2 ^ Z.max 0 (SpecFloat.fexp FloatOps.prec FloatOps.emax (Zdigits2 q + e) - e) = b0 ->
     l = loc_Exact /\ q mod 2 ^ Z.max 0 (SpecFloat.fexp FloatOps.prec FloatOps.emax (Zdigits2 q + e) - e) = 0) ->
  e + Z.max 0 (SpecFloat.fexp FloatOps.prec FloatOps.emax (Zdigits2 q + e) - e) <= 970 ->
  at_most (binary_round_aux FloatOps.prec FloatOps.emax false q e l)
    (scaled b0 (e + Z.max 0 (SpecFloat.fexp FloatOps.prec FloatOps.emax (Zdigits2 q + e) - e))).
Proof.
  intros Hq Hle Heq Hov.
  set (k := Z.max 0 (SpecFloat.fexp FloatOps.prec FloatOps.emax (Zdigits2 q + e) - e)) in *.
  assert (Hk : 0 <= k) by (unfold k; lia).
  pose proof (pow2_pos k Hk) as P.
  unfold binary_round_aux, shr_fexp.
  destruct (shr_spec q e (SpecFloat.fexp FloatOps.prec FloatOps.emax (Zdigits2 q + e) - e) l Hq)
    as (mrs & -> & Hm & Hex).
  fold k in Hm, Hex |- *.
  set (e1 := e + k) in *.
  set (m1 := round_nearest_even (shr_m mrs) (loc_of_shr_record mrs)).
  assert (Hm0 : 0 <= shr_m mrs) by (rewrite Hm; apply Z.div_pos; lia).
  assert (Hm1 : 0 <= m1 <= b0).
  { pose proof (round_nearest_even_bounds (shr_m mrs) (loc_of_shr_record mrs)) as B.
    fold m1 in B. split; [lia|].
    destruct (Z.eq_dec (q / 2 ^ k) b0) as [E | NE].
    - destruct (Heq E) as [El Emod]. unfold m1.
      rewrite round_nearest_even_exact by (apply Hex; assumption). lia.
    - lia. }
  assert (Hlt : shr_m mrs < 2 ^ 53).
  { rewrite Hm. apply Z.div_lt_upper_bound; [lia|].
    rewrite <- Z.pow_add_r by lia.
    pose proof (Zdigits2_bound q Hq) as B.
    pose proof (Zdigits2_nonneg q) as D.
    assert (2 ^ Zdigits2 q <= 2 ^ (k + 53)).
    { apply Z.pow_le_mono_r; [lia|]. unfold k. rewrite fexp64_eq. lia. }
    lia. }
  assert (He1 : -1074 <= e1).
  { unfold e1, k. rewrite fexp64_eq. lia. }
  assert (Hd1 : Zdigits2 m1 <= 54).
  { apply Zdigits2_le; try lia.
    pose proof (round_nearest_even_bounds (shr_m mrs) (loc_of_shr_record mrs)) as B.
    fold m1 in B. change (2 ^ 54) with (2 * 2 ^ 53). lia. }
  destruct (shr_spec m1 e1 (SpecFloat.fexp FloatOps.prec FloatOps.emax (Zdigits2 m1 + e1) - e1) loc_Exact
              ltac:(lia)) as (mrs2 & -> & Hm2 & _).
  set (k2 := Z.max 0 (SpecFloat.fexp FloatOps.prec FloatOps.emax (Zdigits2 m1 + e1) - e1)) in *.
  assert (Hk2 : 0 <= k2 <= 1) by (unfold k2; rewrite fexp64_eq; lia).
  pose proof (pow2_pos k2 ltac:(lia)) as P2.
  assert (Hm2' : 0 <= shr_m mrs2 /\ shr_m mrs2 * 2 ^ k2 <= m1).
  { rewrite Hm2. split; [apply Z.div_pos; lia|].
    rewrite Z.mul_comm. apply Z.mul_div_le. lia. }
  destruct Hm2' as [Hm2a Hm2b].
  destruct (shr_m mrs2) as [|m|m] eqn:Em; [| |lia].
  - cbn [at_most]. apply scaled_nonneg. lia.
  - assert (Hov' : (e1 + k2 <=? FloatOps.emax - FloatOps.prec) = true).
    { apply Z.leb_le. change (FloatOps.emax - FloatOps.prec) with 971. lia. }
    rewrite Hov'. cbn [at_most].
    rewrite scaled_shift by lia.
    apply Qle_trans with (scaled m1 e1); apply scaled_le; lia.
Qed.

Lemma iter_xO_spec (m j : positive) :
  Z.pos (Pos.iter xO m j) = Z.pos m * 2 ^ Z.pos j /\
  digits2_pos (Pos.iter xO m j) = (digits2_pos m + j)%positive.
Proof.
  apply (Pos.iter_ind positive xO m
           (fun p a => Z.pos a = Z.pos m * 2 ^ Z.pos p /\
                       digits2_pos a = (digits2_pos m + p)%positive)).
  - split; [rewrite Z.pow_1_r; lia|]. simpl. lia.
  - intros p a [Ha Hd]. split.
    + rewrite Pos2Z.inj_succ, Z.pow_succ_r by lia. rewrite Pos2Z.inj_xO, Ha. ring.
    + simpl. rewrite Hd. lia.
Qed.

Lemma binary_round_aux_canonical (m : positive) (e : Z) :
  digits2_pos m = 53%positive -> -1074 <= e <= 971 ->
  binary_round_aux FloatOps.prec FloatOps.emax false (Z.pos m) e loc_Exact = S754_finite false m e.
Proof.
  intros Hd He. unfold binary_round_aux, shr_fexp.
  assert (E : SpecFloat.fexp FloatOps.prec FloatOps.emax (Zdigits2 (Z.pos m) + e) - e = 0).
  { rewrite fexp64_eq. simpl Zdigits2. rewrite Hd. lia. }
  rewrite E. cbn [shr shr_record_of_loc shr_m loc_of_shr_record round_nearest_even].
  rewrite E. cbn [shr shr_record_of_loc shr_m].
  replace (e <=? FloatOps.emax - FloatOps.prec) with true; [reflexivity|].
  symmetry. apply Z.leb_le. change (FloatOps.emax - FloatOps.prec) with 971. lia.
Qed.

Lemma float_of_nat_0 : Prim2SF (float_of_nat 0) = S754_zero false.
Proof. reflexivity. Qed.

Lemma float_of_nat_spec (n : nat) :
  (0 < n)%nat -> Z.of_nat n < 2 ^ 53 ->
  exists m e, Prim2SF (float_of_nat n) = S754_finite false m e /\
    digits2_pos m = 53%positive /\ -52 <= e <= 0 /\
    Z.pos m = Z.of_nat n * 2 ^ (- e).
Proof.
  intros Hpos Hlt. unfold float_of_nat.
  rewrite of_uint63_spec, Uint63.of_Z_spec.
  rewrite Z.mod_small by (change Uint63Axioms.wB with (2 ^ 63); lia).
  destruct (Z.of_nat n) as [|p|p] eqn:Ep; try lia.
  cbn [binary_normalize]. unfold binary_round.
  pose proof (digits_upper p) as U. pose proof (digits_lower p) as L.
  assert (Hd : Z.pos (digits2_pos p) <= 53).
  { destruct (Z_lt_le_dec 53 (Z.pos (digits2_pos p))) as [H|]; [|assumption].
    exfalso. assert (2 ^ 53 <= 2 ^ (Z.pos (digits2_pos p) - 1)) by (apply Z.pow_le_mono_r; lia).
    lia. }
  rewrite fexp64_eq. unfold shl_align.
  replace (Z.max (Z.pos (digits2_pos p) + 0 - 53) (-1074) - 0)
    with (Z.pos (digits2_pos p) - 53) by lia.
  destruct (Z.pos (digits2_pos p) - 53) as [|j|j] eqn:Ej; try lia.
  - exists p, 0. split.
    + apply binary_round_aux_canonical; [|lia]. lia.
    + split; [lia|]. split; [lia|]. simpl. lia.
  - destruct (iter_xO_spec p j) as [Hv Hdig].
    exists (Pos.iter xO p j), (Z.max (Z.pos (digits2_pos p) + 0 - 53) (-1074)).
    replace (Z.max (Z.pos (digits2_pos p) + 0 - 53) (-1074)) with (Z.neg j) by lia.
    split.
    + apply binary_round_aux_canonical; [|lia]. rewrite Hdig. lia.
    + split; [rewrite Hdig; lia|]. split; [lia|]. rewrite Hv. reflexivity.
Qed.

Lemma scaled_pow2 (a e : Z) : 0 <= a -> (scaled (2 ^ a) e == 2 ^ (a + e))%Q.
Proof.
  intros H. unfold scaled. rewrite Zpower_Qpower by assumption.
  rewrite Qpower_plus by apply two_neq_0. reflexivity.
Qed.

Lemma new_location_0 (n : Z) : new_location n 0 = loc_Exact.
Proof. unfold new_location. destruct (Z.even n); reflexivity. Qed.

Lemma SFdiv_finite (mx my : positive) (ex ey : Z) :
  digits2_pos mx = 53%positive -> digits2_pos my = 53%positive ->
  -52 <= ex <= 0 -> -52 <= ey <= 0 ->
  SFdiv FloatOps.prec FloatOps.emax (S754_finite false mx ex) (S754_finite false my ey) =
  binary_round_aux FloatOps.prec FloatOps.emax false (Z.pos mx * 2 ^ 53 / Z.pos my) (ex - ey - 53)
    (new_location (Z.pos my) ((Z.pos mx * 2 ^ 53) mod Z.pos my)).
Proof.
  intros Hdx Hdy Hex Hey.
  unfold SFdiv, SFdiv_core_binary. cbn [Zdigits2 xorb]. rewrite Hdx, Hdy, fexp64_eq.
  replace (Z.min (Z.max (53 + ex - (53 + ey) - 53) (-1074)) (ex - ey))
    with (ex - ey - 53) by lia.
  replace (ex - ey - (ex - ey - 53)) with 53 by lia.
  rewrite Z.shiftl_mul_pow2 by lia.
  unfold Z.div, Z.modulo.
  destruct (Z.div_eucl (Z.pos mx * 2 ^ 53) (Z.pos my)) as [q r]. reflexivity.
Qed.

Lemma SFdiv_at_most_1 (mx my : positive) (ex ey c t : Z) :
  digits2_pos mx = 53%positive -> digits2_pos my = 53%positive ->
  -52 <= ex <= 0 -> -52 <= ey <= 0 ->
  Z.pos mx = c * 2 ^ (- ex) -> Z.pos my = t * 2 ^ (- ey) ->
  c <= t ->
  at_most (SFdiv FloatOps.prec FloatOps.emax (S754_finite false mx ex) (S754_finite false my ey)) 1.
Proof.
  intros Hdx Hdy Hex Hey Hx Hy Hct.
  rewrite SFdiv_finite by assumption.
  set (m' := Z.pos mx * 2 ^ 53).
  set (q := m' / Z.pos my).
  set (e' := ex - ey - 53).
  set (k := Z.max 0 (SpecFloat.fexp FloatOps.prec FloatOps.emax (Zdigits2 q + e') - e')).
  set (D := - e').
  assert (HD : 1 <= D <= 105) by (unfold D, e'; lia).
  pose proof (pow2_pos (- ex) ltac:(lia)) as Px.
  pose proof (pow2_pos (- ey) ltac:(lia)) as Py.
  pose proof (pow2_pos D ltac:(lia)) as PD.
  assert (Hm' : m' <= Z.pos my * 2 ^ D).
  { unfold m'. rewrite Hx, Hy.
    assert (E : 2 ^ (- ey) * 2 ^ D = 2 ^ (- ex) * 2 ^ 53).
    { rewrite <- !Z.pow_add_r by lia. f_equal. unfold D, e'. lia. }
    rewrite <- !Z.mul_assoc, E.
    apply Z.mul_le_mono_nonneg_r; [|assumption].
    assert (0 < 2 ^ 53) by (apply pow2_pos; lia). nia. }
  assert (Hq0 : 0 <= q) by (unfold q; apply Z.div_pos; unfold m'; lia).
  assert (HqD : q <= 2 ^ D).
  { unfold q. apply Z.div_le_upper_bound; lia. }
  assert (Hdq : Zdigits2 q <= D + 1).
  { apply Zdigits2_le; try lia.
    replace (D + 1) with (Z.succ D) by lia. rewrite Z.pow_succ_r by lia. lia. }
  assert (Hk : 0 <= k <= D).
  { unfold k. rewrite fexp64_eq. unfold D in *. lia. }
  pose proof (pow2_pos k ltac:(lia)) as Pk.
  assert (Epow : 2 ^ D = 2 ^ (D - k) * 2 ^ k).
  { rewrite <- Z.pow_add_r by lia. f_equal. lia. }
  pose proof (pow2_pos (D - k) ltac:(lia)) as PDk.
  apply at_most_le with (scaled (2 ^ (D - k)) (e' + k)).
  - apply binary_round_aux_upper; fold k.
    + assumption.
    + apply Z.div_le_upper_bound; [lia|]. rewrite Z.mul_comm, <- Epow. assumption.
    + intros Eq.
      assert (Hq : q = 2 ^ D).
      { assert (2 ^ (D - k) * 2 ^ k <= q).
        { rewrite <- Eq. rewrite Z.mul_comm. apply Z.mul_div_le. lia. }
        lia. }
      split.
      * assert (Hr : m' mod Z.pos my = 0).
        { pose proof (Z.div_mod m' (Z.pos my) ltac:(lia)) as Hdm.
          pose proof (Z.mod_pos_bound m' (Z.pos my) ltac:(lia)) as Hb.
          fold q in Hdm. rewrite Hq in Hdm. lia. }
        rewrite Hr. apply new_location_0.
      * rewrite Hq, Epow. apply Z.mod_mul. lia.
    + unfold e'. lia.
  - rewrite scaled_pow2 by lia.
    replace (D - k + (e' + k)) with 0 by (unfold D; lia). simpl. lra.
Qed.

Lemma scaled_le_inv (m m' e : Z) : (scaled m e <= scaled m' e)%Q -> m <= m'.
Proof.
  unfold scaled. intros H.
  apply Qmult_le_r in H; [|apply pow2_Q_pos].
  rewrite <- Zle_Qle in H. assumption.
Qed.

Lemma scaled_le_1 (m : positive) (e : Z) :
  (scaled (Z.pos m) e <= 1)%Q -> e <= 0 /\ Z.pos m <= 2 ^ (- e).
Proof.
  intros H. destruct (Z_lt_le_dec 0 e) as [Hpos | Hneg].
  - exfalso.
    assert (H1 : (scaled (Z.pos m * 2 ^ e) 0 <= scaled 1 0)%Q).
    { rewrite <- scaled_shift by lia. rewrite Z.add_0_l.
      eapply Qle_trans; [exact H|]. vm_compute. discriminate. }
    apply scaled_le_inv in H1.
    assert (2 ^ 1 <= 2 ^ e) by (apply Z.pow_le_mono_r; lia).
    change (2 ^ 1) with 2 in H0. nia.
  - split; [assumption|].
    apply (scaled_le_inv _ _ e).
    eapply Qle_trans; [exact H|].
    rewrite scaled_pow2 by lia.
    replace (- e + e) with 0 by lia. vm_compute. discriminate.
Qed.

Lemma SFmul_100_at_most (x : spec_float) :
  at_most x 1 ->
  at_most (SFmul FloatOps.prec FloatOps.emax x (S754_finite false 7036874417766400 (-46))) 100.
Proof.
  destruct x as [[|]|s| |[|] M E]; cbn [at_most]; try contradiction; intros H.
  - cbn. lra.
  - destruct (scaled_le_1 M E H) as [HE HM].
    cbn [SFmul xorb].
    set (q := Z.pos (M * 7036874417766400)).
    set (e := E + -46).
    set (k := Z.max 0 (SpecFloat.fexp FloatOps.prec FloatOps.emax (Zdigits2 q + e) - e)).
    pose proof (pow2_pos (- E) ltac:(lia)) as PF.
    assert (Hq : q = Z.pos M * (25 * 2 ^ 48)) by (unfold q; rewrite Pos2Z.inj_mul; reflexivity).
    assert (Hq0 : 0 <= q) by (unfold q; lia).
    assert (Hqu : q <= 25 * 2 ^ (- E + 48)).
    { rewrite Hq, Z.pow_add_r by lia. assert (0 < 2 ^ 48) by (apply pow2_pos; lia). nia. }
    assert (Hdq : Zdigits2 q <= - E + 53).
    { apply Zdigits2_le; try lia.
      replace (- E + 53) with (5 + (- E + 48)) by lia.
      rewrite Z.pow_add_r by lia.
      assert (0 < 2 ^ (- E + 48)) by (apply pow2_pos; lia).
      change (2 ^ 5) with 32. lia. }
    assert (Hk : 0 <= k /\ e + k <= -46).
    { unfold k, e. rewrite fexp64_eq. lia. }
    pose proof (pow2_pos k ltac:(lia)) as Pk.
    set (G := 2 - (e + k)).
    assert (HG : 48 <= G) by (unfold G; lia).
    pose proof (pow2_pos G ltac:(lia)) as PG.
    assert (Epow : 25 * 2 ^ (- E + 48) = 25 * 2 ^ G * 2 ^ k).
    { rewrite <- Z.mul_assoc, <- Z.pow_add_r by lia. do 2 f_equal. unfold G, e. lia. }
    apply at_most_le with (scaled (25 * 2 ^ G) (e + k)).
    + apply binary_round_aux_upper; fold k.
      * assumption.
      * apply Z.div_le_upper_bound; [lia|]. rewrite Z.mul_comm, <- Epow. assumption.
      * intros Eq. split; [reflexivity|].
        assert (Hq' : q = 25 * 2 ^ G * 2 ^ k).
        { assert (25 * 2 ^ G * 2 ^ k <= q).
          { rewrite <- Eq. rewrite Z.mul_comm. apply Z.mul_div_le. lia. }
          lia. }
        rewrite Hq'. apply Z.mod_mul. lia.
      * lia.
    + unfold scaled. rewrite inject_Z_mult, Zpower_Qpower by lia.
      change (inject_Z 2) with 2%Q.
      rewrite <- Qmult_assoc, <- Qpower_plus by apply two_neq_0.
      replace (G + (e + k)) with 2 by (unfold G; lia).
      vm_compute. discriminate.
Qed.

(** Each rate the code computes lies between 0 and 100. *)
Theorem rate_range (count total : nat) :
  (count <= total)%nat -> Z.of_nat total < 2 ^ 53 ->
  exists v, float_value (rate count total) = Some v /\ (0 <= v <= 100)%Q.
Proof.
  intros Hle Hlt. unfold float_value. apply at_most_value.
  unfold rate. destruct total as [|t].
  - cbn. lra.
  - cbn [Nat.ltb Nat.leb].
    rewrite mul_spec, div_spec.
    change (Prim2SF 100) with (S754_finite false 7036874417766400 (-46)).
    apply SFmul_100_at_most.
    destruct (float_of_nat_spec (S t) ltac:(lia) Hlt) as (my & ey & -> & Hdy & Hey & Hy).
    destruct count as [|c].
    + rewrite float_of_nat_0. cbn. lra.
    + destruct (float_of_nat_spec (S c) ltac:(lia) ltac:(lia)) as (mx & ex & -> & Hdx & Hex & Hx).
      apply (SFdiv_at_most_1 mx my ex ey (Z.of_nat (S c)) (Z.of_nat (S t))); try assumption.
      lia.
Qed.

(** *** Two decimals *)

Lemma round_half_even_nearest (n d : Z) :
  0 < d -> 2 * Z.abs (round_half_even n d * d - n) <= d.
Proof.
  intros Hd. unfold round_half_even.
  pose proof (Z.div_mod n d ltac:(lia)) as Hdm.
  pose proof (Z.mod_pos_bound n d Hd) as Hb.
  generalize dependent (n mod d). generalize dependent (n / d).
  intros q r Hdm Hb.
  replace (d * q) with (q * d) in Hdm by ring.
  assert (E0 : q * d - n = - r) by lia.
  assert (E1 : (q + 1) * d - n = d - r) by (rewrite Z.mul_add_distr_r; lia).
  destruct (2 * r ?= d) eqn:E.
  - apply Z.compare_eq in E. destruct (Z.even q); rewrite ?E0, ?E1; lia.
  - rewrite Z.compare_lt_iff in E. rewrite E0. lia.
  - rewrite Z.compare_gt_iff in E. rewrite E1. lia.
Qed.

(** [format_2f] prints the multiple of 0.01 nearest to the float's value. *)
Lemma hundredths_nearest (m : positive) (e : Z) :
  (Qabs (inject_Z (hundredths m e) - 100 * scaled (Z.pos m) e) <= 1 # 2)%Q.
Proof.
  unfold hundredths. destruct (0 <=? e) eqn:He.
  - apply Z.leb_le in He.
    assert (E : (inject_Z (Z.pos m * 2 ^ e * 100) - 100 * scaled (Z.pos m) e == 0)%Q).
    { unfold scaled. rewrite !inject_Z_mult, Zpower_Qpower by assumption.
      change (inject_Z 2) with 2%Q. change (inject_Z 100) with 100%Q. ring. }
    rewrite E. vm_compute. discriminate.
  - apply Z.leb_gt in He.
    set (d := 2 ^ (- e)).
    assert (Hd : 0 < d) by (apply pow2_pos; lia).
    pose proof (round_half_even_nearest (Z.pos m * 100) d Hd) as H.
    set (r := round_half_even (Z.pos m * 100) d) in *.
    assert (Es : (scaled (Z.pos m) e == inject_Z (Z.pos m) / inject_Z d)%Q).
    { unfold scaled, d. rewrite Zpower_Qpower by lia. change (inject_Z 2) with 2%Q.
      unfold Qdiv. rewrite Qpower_opp, Qinv_involutive. reflexivity. }
    assert (Hdq : (0 < inject_Z d)%Q) by (rewrite <- (Zlt_Qlt 0); assumption).
    assert (E : (inject_Z r - 100 * scaled (Z.pos m) e
                 == inject_Z (r * d - Z.pos m * 100) / inject_Z d)%Q).
    { rewrite Es. unfold Zminus. rewrite inject_Z_plus, inject_Z_opp, !inject_Z_mult.
      change (inject_Z 100) with 100%Q. field. lra. }
    set (z := r * d - Z.pos m * 100) in *.
    assert (X1 : (inject_Z (- d) <= inject_Z (2 * z))%Q) by (rewrite <- Zle_Qle; lia).
    assert (X2 : (inject_Z (2 * z) <= inject_Z d)%Q) by (rewrite <- Zle_Qle; lia).
    rewrite inject_Z_opp in X1. rewrite inject_Z_mult in X1, X2.
    change (inject_Z 2) with 2%Q in X1, X2.
    apply Qabs_Qle_condition. rewrite E. split.
    + apply Qle_shift_div_l; [assumption|]. lra.
    + apply Qle_shift_div_r; [assumption|]. lra.
Qed.

End Binary64.

(** The counts bound the exact quotients: winning plus losing never exceeds the
    total, so the quotients count / total × 100, taken over the rationals,
    lie between 0 and 100 and add up to at most 100. *)
Lemma counts_bound_exact_rates (data : list dict) (fs : filesystem) :
  Forall trade_record data ->
  exists s, calculate_summary data fs = (inr s, fs) /\
    (winning_trades s + losing_trades s <= total_trades s)%nat /\
    (0 <= exact_rate (winning_trades s) (total_trades s) <= 100)%Q /\
    (0 <= exact_rate (losing_trades s) (total_trades s) <= 100)%Q /\
    (exact_rate (winning_trades s) (total_trades s)
     + exact_rate (losing_trades s) (total_trades s) <= 100)%Q.
Proof.
  intros Hall.
  destruct (calculate_summary_run data fs Hall)
    as (s & Hrun & Ht & Hw & Hl & Hb & _).
  exists s. split; [assumption|].
  pose proof (count_partition (pl_column data)) as Hpart.
  rewrite <- Hw, <- Hl, <- Hb, <- Ht in Hpart.
  assert (Hle : (winning_trades s + losing_trades s <= total_trades s)%nat) by lia.
  split; [assumption|].
  unfold exact_rate.
  set (w := winning_trades s) in *. set (l := losing_trades s) in *.
  set (t := total_trades s) in *.
  destruct (Nat.eq_dec t 0) as [E | E].
  - assert (w = 0%nat) by lia. assert (l = 0%nat) by lia. subst w l.
    rewrite E, H, H0. vm_compute. intuition discriminate.
  - assert (Ht0 : (0 < inject_Z (Z.of_nat t))%Q).
    { rewrite <- (Zlt_Qlt 0). lia. }
    assert (Hw0 : (0 <= inject_Z (Z.of_nat w))%Q) by (rewrite <- (Zle_Qle 0); lia).
    assert (Hl0 : (0 <= inject_Z (Z.of_nat l))%Q) by (rewrite <- (Zle_Qle 0); lia).
    assert (Hwl : (inject_Z (Z.of_nat w) + inject_Z (Z.of_nat l)
                   <= inject_Z (Z.of_nat t))%Q).
    { rewrite <- inject_Z_plus, <- Zle_Qle. lia. }
    set (a := inject_Z (Z.of_nat w)) in *. set (b := inject_Z (Z.of_nat l)) in *.
    set (c := inject_Z (Z.of_nat t)) in *.
    assert (Ha : (0 <= a / c)%Q) by (apply Qle_shift_div_l; [assumption|lra]).
    assert (Hb' : (0 <= b / c)%Q) by (apply Qle_shift_div_l; [assumption|lra]).
    assert (Hab : (a / c + b / c <= 1)%Q).
    { assert (Hd : (a / c + b / c == (a + b) / c)%Q) by (field; lra).
      rewrite Hd. apply Qle_shift_div_r; [assumption|lra]. }
    repeat split; lra.
Qed.

(** C10, as amended. For every sequence of trade records (fewer than 2^53 of
    them, so that the counts are exact as floats) the numeric win rate and
    lose rate each lie between 0 and 100 inclusive; the winning and losing
    counts add up to at most the total count, so the exact quotients
    count / total × 100 add up to at most 100. Nothing is said of the sum of
    the two binary64 rates, each of which is rounded twice. *)
Theorem rates_between_0_and_100 (data : list dict) (fs : filesystem) :
  Forall trade_record data ->
  (Z.of_nat (length data) < 2 ^ 53)%Z ->
  exists s w l, calculate_summary data fs = (inr s, fs) /\
    float_value (rate (winning_trades s) (total_trades s)) = Some w /\
    float_value (rate (losing_trades s) (total_trades s)) = Some l /\
    (0 <= w <= 100)%Q /\ (0 <= l <= 100)%Q /\
    (winning_trades s + losing_trades s <= total_trades s)%nat /\
    (exact_rate (winning_trades s) (total_trades s)
     + exact_rate (losing_trades s) (total_trades s) <= 100)%Q.
Proof.
  intros Hall Hlen.
  destruct (counts_bound_exact_rates data fs Hall) as (s & Hrun & Hle & _ & _ & Hsum).
  destruct (calculate_summary_run data fs Hall) as (s' & Hrun' & Ht & _).
  assert (s' = s) by congruence. subst s'.
  unfold pl_column in Ht. rewrite length_map in Ht.
  destruct (rate_range (winning_trades s) (total_trades s)) as (w & Hw & Hwr);
    [lia | rewrite Ht; exact Hlen |].
  destruct (rate_range (losing_trades s) (total_trades s)) as (l & Hl & Hlr);
    [lia | rewrite Ht; exact Hlen |].
  exists s, w, l. repeat split; try assumption; try apply Hwr; apply Hlr.
Qed.

(** ** The printed rates *)

Lemma rate_at_most_100 (count total : nat) :
  (count <= total)%nat -> (Z.of_nat total < 2 ^ 53)%Z ->
  at_most (Prim2SF (rate count total)) 100.
Proof.
  intros Hle Hlt. unfold rate. destruct total as [|t].
  - cbn. lra.
  - cbn [Nat.ltb Nat.leb].
    rewrite mul_spec, div_spec.
    change (Prim2SF 100) with (S754_finite false 7036874417766400 (-46)).
    apply SFmul_100_at_most.
    destruct (float_of_nat_spec (S t) ltac:(lia) Hlt) as (my & ey & -> & Hdy & Hey & Hy).
    destruct count as [|c].
    + rewrite float_of_nat_0. cbn. lra.
    + destruct (float_of_nat_spec (S c) ltac:(lia) ltac:(lia)) as (mx & ex & -> & Hdx & Hex & Hx).
      apply (SFdiv_at_most_1 mx my ex ey (Z.of_nat (S c)) (Z.of_nat (S t))); try assumption.
      lia.
Qed.

(** A rate between 0 and 100 prints as a number of hundredths between 0 and
    10000, the one nearest to it. *)
Lemma format_2f_grid (x : float) :
  at_most (Prim2SF x) 100 ->
  exists (h : Z) (v : Q),
    format_2f x = fixed2 h /\ (0 <= h <= 10000)%Z /\
    float_value x = Some v /\ (Qabs (inject_Z h - 100 * v) <= 1 # 2)%Q.
Proof.
  unfold format_2f, float_value.
  destruct (Prim2SF x) as [[|]|sg| |[|] m e]; cbn [at_most spec_value]; try contradiction;
    intros H.
  - exists 0%Z, 0%Q. split; [reflexivity|]. split; [lia|]. split; [reflexivity|].
    vm_compute. discriminate.
  - pose proof (hundredths_nearest m e) as Hn.
    pose proof (scaled_nonneg (Z.pos m) e ltac:(lia)) as H0.
    exists (hundredths m e), (scaled (Z.pos m) e).
    split; [reflexivity|]. split; [|split; [reflexivity | exact Hn]].
    apply Qabs_Qle_condition in Hn as [Hn1 Hn2].
    split.
    + destruct (Z_lt_le_dec (hundredths m e) 0) as [Hneg|]; [|assumption].
      exfalso.
      assert (X : (inject_Z (hundredths m e) <= inject_Z (-1))%Q)
        by (rewrite <- Zle_Qle; lia).
      change (inject_Z (-1)) with (-1)%Q in X. lra.
    + destruct (Z_lt_le_dec 10000 (hundredths m e)) as [Hbig|]; [|assumption].
      exfalso.
      assert (X : (inject_Z 10001 <= inject_Z (hundredths m e))%Q)
        by (rewrite <- Zle_Qle; lia).
      change (inject_Z 10001) with 10001%Q in X. lra.
Qed.

(** C2, as amended. For every sequence of fewer than 2^53 trade records the
    win rate is the binary64 number winning count / total count × 100
    (division, then multiplication, each rounded) printed as the number of
    hundredths nearest to it, between 0.00 and 100.00; it is "0.00" for an
    empty sequence; the lose rate is the same on the losing count; for the
    P/L values 100, -50, 0 the win rate is "33.33". The print is that of the
    binary64 number, not of the quotient taken over the rationals. *)
Theorem rates_are_formatted_percentages (data : list dict) (fs : filesystem) :
  Forall trade_record data ->
  (Z.of_nat (length data) < 2 ^ 53)%Z ->
  exists s hw hl vw vl, calculate_summary data fs = (inr s, fs) /\
    total_trades s = length data /\
    winning_trades s = length (winners data) /\
    losing_trades s = length (losers data) /\
    float_value (rate (winning_trades s) (total_trades s)) = Some vw /\
    float_value (rate (losing_trades s) (total_trades s)) = Some vl /\
    win_rate s = fixed2 hw /\ lose_rate s = fixed2 hl /\
    (0 <= hw <= 10000)%Z /\ (0 <= hl <= 10000)%Z /\
    (Qabs (inject_Z hw - 100 * vw) <= 1 # 2)%Q /\
    (Qabs (inject_Z hl - 100 * vl) <= 1 # 2)%Q /\
    (length data = 0%nat -> win_rate s = "0.00" /\ lose_rate s = "0.00") /\
    (Forall2 Qeq (pl_column data) [100; -50; 0]%Q -> win_rate s = "33.33").
Proof.
  intros Hall Hlen.
  destruct (calculate_summary_run data fs Hall)
    as (s & Hrun & Ht & Hw & Hl & Hb & Hwr & Hlr & _).
  pose proof (count_partition (pl_column data)) as Hpart.
  rewrite <- Hw, <- Hl, <- Hb, <- Ht in Hpart.
  assert (Hlen' : total_trades s = length data).
  { rewrite Ht. unfold pl_column. apply length_map. }
  assert (Hlt : (Z.of_nat (total_trades s) < 2 ^ 53)%Z) by (rewrite Hlen'; exact Hlen).
  destruct (format_2f_grid _ (rate_at_most_100 (winning_trades s) (total_trades s)
                                ltac:(lia) Hlt)) as (hw & vw & Ew & Bw & Vw & Nw).
  destruct (format_2f_grid _ (rate_at_most_100 (losing_trades s) (total_trades s)
                                ltac:(lia) Hlt)) as (hl & vl & El & Bl & Vl & Nl).
  exists s, hw, hl, vw, vl.
  split; [exact Hrun|]. split; [exact Hlen'|].
  split; [exact Hw|]. split; [exact Hl|].
  split; [exact Vw|]. split; [exact Vl|].
  split; [rewrite Hwr; exact Ew|]. split; [rewrite Hlr; exact El|].
  split; [exact Bw|]. split; [exact Bl|].
  split; [exact Nw|]. split; [exact Nl|].
  split.
  - intros E. rewrite Hwr, Hlr, Hlen', E. split; reflexivity.
  - intros Hex. rewrite Hwr.
    assert (Hlen3 : length data = 3%nat).
    { apply Forall2_length in Hex. unfold pl_column in Hex.
      rewrite length_map in Hex. exact Hex. }
    assert (Hcount : count_where (fun x => Qltb 0 x) (pl_column data) = 1%nat).
    { rewrite (count_where_Forall2 (fun x => Qltb 0 x) _ _ Qltb_0_compat Hex).
      reflexivity. }
    rewrite Hw, Hcount, Hlen', Hlen3.
    vm_compute. reflexivity.
Qed.

(** ** Sums of whole numbers

    Binary64 addition is exact on integers while the result stays below 2^53
    in magnitude, so numpy's pairwise summation, whatever its grouping, adds a
    column of whole numbers exactly when their absolute values add up to less
    than 2^53. *)

Section ExactSums.

Local Open Scope Z_scope.

Lemma digits2_pos_unique (p : positive) (d : Z) :
  2 ^ (d - 1) <= Z.pos p < 2 ^ d -> Z.pos (digits2_pos p) = d.
Proof.
  intros [L U].
  pose proof (digits_upper p) as U'. pose proof (digits_lower p) as L'.
  assert (Hd : 0 < d).
  { destruct (Z_lt_le_dec 0 d); [assumption|]. exfalso.
    assert (2 ^ d <= 2 ^ 0) by (apply Z.pow_le_mono_r; lia). simpl in *. lia. }
  destruct (Z.lt_trichotomy (Z.pos (digits2_pos p)) d) as [H | [H | H]]; [|exact H|].
  - exfalso. assert (2 ^ Z.pos (digits2_pos p) <= 2 ^ (d - 1)) by (apply Z.pow_le_mono_r; lia). lia.
  - exfalso. assert (2 ^ d <= 2 ^ (Z.pos (digits2_pos p) - 1)) by (apply Z.pow_le_mono_r; lia). lia.
Qed.

Lemma Zdigits2_shift (m : positive) (j : Z) :
  0 <= j -> Zdigits2 (Z.pos m * 2 ^ j) = Z.pos (digits2_pos m) + j.
Proof.
  intros Hj.
  pose proof (digits_upper m) as U. pose proof (digits_lower m) as L.
  assert (P : 0 < 2 ^ j) by (apply Z.pow_pos_nonneg; lia).
  destruct (Z.pos m * 2 ^ j) as [|p|p] eqn:E; try lia.
  cbn [Zdigits2]. apply digits2_pos_unique. rewrite <- E.
  replace (Z.pos (digits2_pos m) + j - 1) with (Z.pos (digits2_pos m) - 1 + j) by lia.
  rewrite !Z.pow_add_r by lia. split; nia.
Qed.

(** Rounding a number that is representable leaves it as it is. *)
Lemma binary_round_aux_shift (s : bool) (m : positive) (e j : Z) :
  digits2_pos m = 53%positive -> -1074 <= e <= 971 -> 0 <= j ->
  binary_round_aux FloatOps.prec FloatOps.emax s (Z.pos m * 2 ^ j) (e - j) loc_Exact
  = S754_finite s m e.
Proof.
  intros Hd He Hj. unfold binary_round_aux, shr_fexp.
  rewrite Zdigits2_shift by assumption. rewrite Hd, fexp64_eq.
  replace (Z.max (53 + j + (e - j) - 53) (-1074) - (e - j)) with j by lia.
  assert (P : 0 < 2 ^ j) by (apply Z.pow_pos_nonneg; lia).
  destruct (shr_spec (Z.pos m * 2 ^ j) (e - j) j loc_Exact ltac:(apply Z.mul_nonneg_nonneg; lia))
    as (mrs & -> & Hm & Hexact).
  replace (Z.max 0 j) with j in * by lia.
  rewrite Z.div_mul in Hm by lia.
  specialize (Hexact eq_refl (Z.mod_mul (Z.pos m) (2 ^ j) ltac:(lia))).
  rewrite (round_nearest_even_exact mrs Hexact), Hm.
  replace (e - j + j) with e by lia.
  cbn [Zdigits2]. rewrite Hd, fexp64_eq.
  replace (Z.max (53 + e - 53) (-1074) - e) with 0 by lia.
  cbn [shr shr_record_of_loc shr_m].
  replace (e <=? FloatOps.emax - FloatOps.prec) with true; [reflexivity|].
  symmetry. apply Z.leb_le. change (FloatOps.emax - FloatOps.prec) with 971. lia.
Qed.

(** The canonical mantissa of a positive integer below 2^53. *)
Lemma canonical_of_int (N : positive) :
  Z.pos N < 2 ^ 53 ->
  exists m, digits2_pos m = 53%positive /\
    Z.pos m = Z.pos N * 2 ^ (53 - Z.pos (digits2_pos N)) /\
    -52 <= Z.pos (digits2_pos N) - 53 <= 0.
Proof.
  intros Hlt.
  pose proof (digits_lower N) as L.
  assert (Hd : Z.pos (digits2_pos N) <= 53).
  { destruct (Z_lt_le_dec 53 (Z.pos (digits2_pos N))) as [H|]; [|assumption].
    exfalso. assert (2 ^ 53 <= 2 ^ (Z.pos (digits2_pos N) - 1))
      by (apply Z.pow_le_mono_r; lia). lia. }
  set (k := 53 - Z.pos (digits2_pos N)).
  assert (P : 0 < 2 ^ k) by (apply Z.pow_pos_nonneg; lia).
  pose proof (Zdigits2_shift N k ltac:(lia)) as D.
  destruct (Z.pos N * 2 ^ k) as [|m|m] eqn:E; try lia.
  exists m. cbn [Zdigits2] in D. split; [lia|]. split; [reflexivity | lia].
Qed.

(** Normalising an integer below 2^53 that is written with [k] more binary
    places than it needs gives its canonical form. *)
Lemma binary_round_int (s : bool) (N p m : positive) (k : Z) :
  Z.pos N < 2 ^ 53 -> 0 <= k ->
  Z.pos p = Z.pos N * 2 ^ k ->
  digits2_pos m = 53%positive ->
  Z.pos m = Z.pos N * 2 ^ (53 - Z.pos (digits2_pos N)) ->
  -52 <= Z.pos (digits2_pos N) - 53 <= 0 ->
  binary_round FloatOps.prec FloatOps.emax s p (- k)
  = S754_finite s m (Z.pos (digits2_pos N) - 53).
Proof.
  intros Hlt Hk Hp Hdm Hm Hd. unfold binary_round.
  pose proof (Zdigits2_shift N k Hk) as D. rewrite <- Hp in D. cbn [Zdigits2] in D.
  rewrite D, fexp64_eq.
  replace (Z.max (Z.pos (digits2_pos N) + k + - k - 53) (-1074))
    with (Z.pos (digits2_pos N) - 53) by lia.
  set (e := Z.pos (digits2_pos N) - 53) in *.
  unfold shl_align.
  destruct (e - - k) as [|j|j] eqn:Ej.
  - (* already canonical *)
    assert (p = m).
    { apply Pos2Z.inj. rewrite Hp, Hm. f_equal. f_equal. lia. }
    subst p. replace (- k) with e by lia.
    pose proof (binary_round_aux_shift s m e 0 Hdm ltac:(lia) ltac:(lia)) as H.
    rewrite Z.pow_0_r, Z.mul_1_r, Z.sub_0_r in H. exact H.
  - (* too many places: they are zeros *)
    pose proof (binary_round_aux_shift s m e (Z.pos j) Hdm ltac:(lia) ltac:(lia)) as H.
    replace (e - Z.pos j) with (- k) in H by lia.
    replace (Z.pos m * 2 ^ Z.pos j) with (Z.pos p) in H; [exact H|].
    rewrite Hp, Hm, <- Z.mul_assoc, <- Z.pow_add_r by lia. do 2 f_equal. lia.
  - (* too few places: shift left *)
    destruct (iter_xO_spec p j) as [Hv Hdig].
    assert (Pos.iter xO p j = m).
    { apply Pos2Z.inj. rewrite Hv, Hp, Hm, <- Z.mul_assoc, <- Z.pow_add_r by lia.
      do 2 f_equal. lia. }
    rewrite H.
    pose proof (binary_round_aux_shift s m e 0 Hdm ltac:(lia) ltac:(lia)) as H'.
    rewrite Z.pow_0_r, Z.mul_1_r, Z.sub_0_r in H'. exact H'.
Qed.

Lemma int_float_intro (s : bool) (N m : positive) (z : Z) :
  Z.abs z = Z.pos N -> s = (z <? 0) ->
  digits2_pos m = 53%positive ->
  Z.pos m = Z.pos N * 2 ^ (53 - Z.pos (digits2_pos N)) ->
  -52 <= Z.pos (digits2_pos N) - 53 <= 0 ->
  int_float (S754_finite s m (Z.pos (digits2_pos N) - 53)) z.
Proof.
  intros Hz Hs Hdm Hm Hd. unfold int_float.
  destruct z as [|q|q]; [discriminate| |];
    (exists m, (Z.pos (digits2_pos N) - 53); rewrite Hs, Hz;
     split; [reflexivity|]; split; [exact Hdm|]; split; [exact Hd|];
     rewrite Hm; do 2 f_equal; lia).
Qed.

(** [binary_normalize] on an integer below 2^53 in magnitude, written with
    [k] binary places. *)
Lemma binary_normalize_int (z k : Z) :
  Z.abs z < 2 ^ 53 -> 0 <= k ->
  int_float (binary_normalize FloatOps.prec FloatOps.emax (z * 2 ^ k) (- k) false) z.
Proof.
  intros Hlt Hk.
  assert (P : 0 < 2 ^ k) by (apply Z.pow_pos_nonneg; lia).
  destruct z as [|N|N].
  - reflexivity.
  - destruct (canonical_of_int N Hlt) as (m & Hdm & Hm & Hd).
    destruct (Z.pos N * 2 ^ k) as [|p|p] eqn:E; try lia.
    cbn [binary_normalize].
    rewrite (binary_round_int false N p m k Hlt Hk (eq_sym E) Hdm Hm Hd).
    apply (int_float_intro false N m); try assumption; reflexivity.
  - destruct (canonical_of_int N Hlt) as (m & Hdm & Hm & Hd).
    destruct (Z.neg N * 2 ^ k) as [|p|p] eqn:E; try lia.
    cbn [binary_normalize].
    assert (E' : Z.pos p = Z.pos N * 2 ^ k) by lia.
    rewrite (binary_round_int true N p m k Hlt Hk E' Hdm Hm Hd).
    apply (int_float_intro true N m); try assumption; reflexivity.
Qed.

Lemma shl_align_fst (m : positive) (e e' : Z) :
  e' <= e -> Z.pos (fst (shl_align m e e')) = Z.pos m * 2 ^ (e - e').
Proof.
  intros H. unfold shl_align.
  destruct (e' - e) as [|j|j] eqn:E; try lia.
  - replace (e - e') with 0 by lia. simpl. lia.
  - destruct (iter_xO_spec m j) as [Hv _]. cbn [fst]. rewrite Hv.
    do 2 f_equal. lia.
Qed.

Lemma int_float_mantissa (s : bool) (m : positive) (e z : Z) :
  int_float (S754_finite s m e) z ->
  -52 <= e <= 0 /\ cond_Zopp s (Z.pos m) = z * 2 ^ (- e).
Proof.
  unfold int_float. destruct z as [|q|q]; [discriminate| |];
    intros (m' & e' & E & _ & He & Hm); injection E as -> -> ->;
    (split; [exact He|]); cbn [cond_Zopp Z.ltb Z.compare]; rewrite Hm; simpl Z.abs; lia.
Qed.

(** Adding two integers held in binary64 is exact while the sum stays below
    2^53 in magnitude. *)
Lemma SFadd_int (x y : spec_float) (za zb : Z) :
  int_float x za -> int_float y zb -> Z.abs (za + zb) < 2 ^ 53 ->
  int_float (SFadd FloatOps.prec FloatOps.emax x y) (za + zb).
Proof.
  intros Hx Hy Hlt.
  destruct (Z.eq_dec za 0) as [-> | Ha].
  { simpl in Hx. subst x. rewrite Z.add_0_l.
    destruct (Z.eq_dec zb 0) as [-> | Hb].
    - simpl in Hy. subst y. reflexivity.
    - assert (Fy : exists sb mb eb, y = S754_finite sb mb eb).
      { destruct zb as [|q|q]; [congruence| |]; destruct Hy as (m & e & -> & _); eauto. }
      destruct Fy as (sb & mb & eb & ->). exact Hy. }
  destruct (Z.eq_dec zb 0) as [-> | Hb].
  { simpl in Hy. subst y. rewrite Z.add_0_r.
    assert (Fx : exists sa ma ea, x = S754_finite sa ma ea).
    { destruct za as [|q|q]; [congruence| |]; destruct Hx as (m & e & -> & _); eauto. }
    destruct Fx as (sa & ma & ea & ->). exact Hx. }
  assert (Fx : exists sa ma ea, x = S754_finite sa ma ea).
  { destruct za as [|q|q]; [congruence| |]; destruct Hx as (m & e & -> & _); eauto. }
  assert (Fy : exists sb mb eb, y = S754_finite sb mb eb).
  { destruct zb as [|q|q]; [congruence| |]; destruct Hy as (m & e & -> & _); eauto. }
  destruct Fx as (sa & ma & ea & ->). destruct Fy as (sb & mb & eb & ->).
  destruct (int_float_mantissa _ _ _ _ Hx) as [Hea Hma].
  destruct (int_float_mantissa _ _ _ _ Hy) as [Heb Hmb].
  cbn [SFadd]. 
  change (IntDef.Z.min ea eb) with (Z.min ea eb).
  set (ez := Z.min ea eb).
  assert (Hez : ez <= ea /\ ez <= eb /\ -52 <= ez <= 0) by (unfold ez; lia).
  assert (Ea : cond_Zopp sa (Z.pos (fst (shl_align ma ea ez))) = za * 2 ^ (- ez)).
  { rewrite shl_align_fst by lia.
    replace (- ez) with (- ea + (ea - ez)) by lia.
    rewrite Z.pow_add_r, Z.mul_assoc, <- Hma by lia.
    destruct sa; cbn [cond_Zopp]; lia. }
  assert (Eb : cond_Zopp sb (Z.pos (fst (shl_align mb eb ez))) = zb * 2 ^ (- ez)).
  { rewrite shl_align_fst by lia.
    replace (- ez) with (- eb + (eb - ez)) by lia.
    rewrite Z.pow_add_r, Z.mul_assoc, <- Hmb by lia.
    destruct sb; cbn [cond_Zopp]; lia. }
  rewrite Ea, Eb, <- Z.mul_add_distr_r.
  pose proof (binary_normalize_int (za + zb) (- ez) Hlt ltac:(lia)) as H.
  rewrite Z.opp_involutive in H. exact H.
Qed.

Lemma add_int (a b : float) (za zb : Z) :
  int_float (Prim2SF a) za -> int_float (Prim2SF b) zb ->
  Z.abs (za + zb) < 2 ^ 53 ->
  int_float (Prim2SF (a + b)) (za + zb).
Proof. intros Ha Hb Hlt. rewrite add_spec. apply SFadd_int; assumption. Qed.

Lemma int_float_value (f : spec_float) (z : Z) :
  int_float f z -> exists v, spec_value f = Some v /\ (v == inject_Z z)%Q.
Proof.
  unfold int_float. destruct z as [|q|q].
  - intros ->. exists 0%Q. split; reflexivity.
  - intros (m & e & -> & _ & He & Hm). eexists. split; [reflexivity|].
    cbn [Z.ltb Z.compare]. unfold scaled. rewrite Hm. simpl Z.abs.
    rewrite inject_Z_mult, Zpower_Qpower by lia. change (inject_Z 2) with 2%Q.
    rewrite <- Qmult_assoc, <- Qpower_plus by (apply two_neq_0).
    replace (- e + e) with 0 by lia. simpl. rewrite Qmult_1_r. reflexivity.
  - intros (m & e & -> & _ & He & Hm). eexists. split; [reflexivity|].
    cbn [Z.ltb Z.compare]. unfold scaled. rewrite Hm. simpl Z.abs.
    rewrite inject_Z_mult, Zpower_Qpower by lia. change (inject_Z 2) with 2%Q.
    rewrite <- Qmult_assoc, <- Qpower_plus by (apply two_neq_0).
    replace (- e + e) with 0 by lia. simpl. rewrite Qmult_1_r. reflexivity.
Qed.

Lemma Qred_inject_Z (z : Z) : Qred (inject_Z z) = inject_Z z.
Proof.
  unfold Qred, inject_Z.
  pose proof (Z.ggcd_gcd z 1) as G. pose proof (Z.ggcd_correct_divisors z 1) as D.
  destruct (Z.ggcd z 1) as [g [a b]]. cbn [fst snd] in *.
  rewrite Z.gcd_1_r in G. subst g. destruct D as [Da Db].
  rewrite Z.mul_1_l in Da, Db. subst a b. reflexivity.
Qed.

Lemma SFdiv_by_one (s : bool) (N m : positive) :
  Z.pos N < 2 ^ 53 ->
  digits2_pos m = 53%positive ->
  Z.pos m = Z.pos N * 2 ^ (53 - Z.pos (digits2_pos N)) ->
  -52 <= Z.pos (digits2_pos N) - 53 <= 0 ->
  SFdiv FloatOps.prec FloatOps.emax (S754_finite s N 0) (S754_finite false 1 0)
  = S754_finite s m (Z.pos (digits2_pos N) - 53).
Proof.
  intros Hlt Hdm Hm Hd.
  unfold SFdiv, SFdiv_core_binary. cbn [Zdigits2 digits2_pos]. rewrite fexp64_eq.
  change (IntDef.Z.min ?a ?b) with (Z.min a b).
  change (IntDef.Z.shiftl ?a ?b) with (Z.shiftl a b).
  change (IntDef.Z.div_eucl ?a ?b) with (Z.div_eucl a b).
  replace (Z.min (Z.max (Z.pos (digits2_pos N) + 0 - (1 + 0) - 53) (-1074)) (0 - 0))
    with (Z.pos (digits2_pos N) - 54) by lia.
  set (e := Z.pos (digits2_pos N) - 53) in *.
  replace (0 - 0 - (Z.pos (digits2_pos N) - 54)) with (1 - e) by lia.
  destruct (1 - e) as [|j|j] eqn:Ej; try lia.
  rewrite Z.shiftl_mul_pow2 by lia.
  assert (P : 0 < 2 ^ Z.pos j) by (apply Z.pow_pos_nonneg; lia).
  pose proof (Z.div_eucl_eq (Z.pos N * 2 ^ Z.pos j) 1 ltac:(lia)) as Hq.
  pose proof (Z.mod_pos_bound (Z.pos N * 2 ^ Z.pos j) 1 ltac:(lia)) as Hr.
  unfold Z.modulo in Hr.
  destruct (Z.div_eucl (Z.pos N * 2 ^ Z.pos j) 1) as [q r].
  assert (r = 0) by lia. subst r. assert (q = Z.pos N * 2 ^ Z.pos j) by lia. subst q.
  rewrite new_location_0. rewrite xorb_false_r.
  pose proof (binary_round_aux_shift s m e 1 Hdm ltac:(lia) ltac:(lia)) as H.
  replace (Z.pos (digits2_pos N) - 54) with (e - 1) by lia.
  replace (Z.pos N * 2 ^ Z.pos j) with (Z.pos m * 2 ^ 1); [exact H|].
  rewrite Hm, <- Z.mul_assoc, <- Z.pow_add_r by lia. do 2 f_equal. lia.
Qed.

Lemma int_float_valid (f : spec_float) (z : Z) :
  int_float f z -> valid_binary f = true.
Proof.
  unfold int_float. destruct z as [|q|q]; [intros ->; reflexivity| |];
    intros (m & e & -> & Hd & He & _);
    cbn [SpecFloat.valid_binary]; unfold bounded, canonical_mantissa;
    rewrite Hd, fexp64_eq;
    (replace (Z.max (53 + e - 53) (-1074) =? e) with true
       by (symmetry; apply Z.eqb_eq; lia));
    apply Z.leb_le; change (FloatOps.emax - FloatOps.prec) with 971; lia.
Qed.

(** The cell of a [float64] column for a whole number below 2^53 in
    magnitude holds that number. *)
Lemma binary64_int (q : Q) (z : Z) :
  (q == inject_Z z)%Q -> Z.abs z < 2 ^ 53 ->
  int_float (Prim2SF (binary64 q)) z.
Proof.
  intros Hq Hlt. unfold binary64.
  rewrite (Qred_complete _ _ Hq), Qred_inject_Z. cbn [Qnum Qden inject_Z].
  destruct z as [|N|N].
  - reflexivity.
  - destruct (canonical_of_int N Hlt) as (m & Hdm & Hm & Hd).
    rewrite (SFdiv_by_one false N m Hlt Hdm Hm Hd).
    pose proof (int_float_intro false N m (Z.pos N) eq_refl eq_refl Hdm Hm Hd) as H.
    rewrite Prim2SF_SF2Prim by (apply (int_float_valid _ _ H)). exact H.
  - destruct (canonical_of_int N Hlt) as (m & Hdm & Hm & Hd).
    rewrite (SFdiv_by_one true N m Hlt Hdm Hm Hd).
    pose proof (int_float_intro true N m (Z.neg N) eq_refl eq_refl Hdm Hm Hd) as H.
    rewrite Prim2SF_SF2Prim by (apply (int_float_valid _ _ H)). exact H.
Qed.

Lemma abs_sum_nonneg (zs : list Z) : 0 <= abs_sum zs.
Proof. induction zs as [|z zs IH]; simpl; lia. Qed.

Lemma sumZ_abs (zs : list Z) : Z.abs (sumZ zs) <= abs_sum zs.
Proof. induction zs as [|z zs IH]; simpl; lia. Qed.

Lemma sumZ_app (xs ys : list Z) : sumZ (xs ++ ys) = sumZ xs + sumZ ys.
Proof. induction xs as [|x xs IH]; simpl; lia. Qed.

Lemma abs_sum_app (xs ys : list Z) : abs_sum (xs ++ ys) = abs_sum xs + abs_sum ys.
Proof. induction xs as [|x xs IH]; simpl; lia. Qed.

Lemma fold_add_int (a : list float) (zs : list Z) (acc : float) (z0 : Z) :
  ints a zs -> int_float (Prim2SF acc) z0 ->
  Z.abs z0 + abs_sum zs < 2 ^ 53 ->
  int_float (Prim2SF (fold_left PrimFloat.add a acc)) (z0 + sumZ zs).
Proof.
  intros H. revert acc z0.
  induction H as [|f z a zs Hf _ IH]; intros acc z0 Hacc Hlt.
  - simpl. rewrite Z.add_0_r. exact Hacc.
  - cbn [fold_left sumZ fold_right]. cbn [abs_sum fold_right] in Hlt.
    fold (abs_sum zs) in Hlt. fold (sumZ zs).
    replace (z0 + (z + sumZ zs)) with (z0 + z + sumZ zs) by lia.
    pose proof (abs_sum_nonneg zs).
    apply IH; [apply add_int; try assumption; lia | lia].
Qed.

Lemma add8_int (r a : list float) (rz az : list Z) :
  ints r rz -> ints a az ->
  abs_sum rz + abs_sum az < 2 ^ 53 ->
  length r = length a ->
  exists rz', ints (add8 r a) rz' /\ length (add8 r a) = length r /\
    sumZ rz' = sumZ rz + sumZ az /\ abs_sum rz' <= abs_sum rz + abs_sum az.
Proof.
  intros Hr. revert a az.
  induction Hr as [|f z r rz Hf _ IH]; intros a az Ha Hlt Hlen.
  - destruct a; [|discriminate]. inversion Ha; subst.
    exists []. repeat split; try constructor. simpl. lia.
  - destruct Ha as [|g y a az Hg Ha]; [discriminate|].
    cbn [abs_sum fold_right] in Hlt. fold (abs_sum rz) in Hlt. fold (abs_sum az) in Hlt.
    pose proof (abs_sum_nonneg rz). pose proof (abs_sum_nonneg az).
    destruct (IH a az Ha ltac:(lia) ltac:(simpl in Hlen; lia))
      as (rz' & Hi & Hl & Hs & Hab).
    exists ((z + y) :: rz'). unfold add8 in *. cbn [combine map fst snd length].
    split; [constructor; [apply add_int; try assumption; lia | exact Hi]|].
    split; [rewrite Hl; reflexivity|].
    cbn [sumZ abs_sum fold_right]. fold (sumZ rz') (sumZ rz) (sumZ az).
    fold (abs_sum rz') (abs_sum rz) (abs_sum az). split; lia.
Qed.

Lemma ints_take (n : nat) (a : list float) (zs : list Z) :
  ints a zs -> ints (firstn n a) (firstn n zs).
Proof. apply Forall2_take. Qed.

Lemma ints_drop (n : nat) (a : list float) (zs : list Z) :
  ints a zs -> ints (skipn n a) (skipn n zs).
Proof. apply Forall2_drop. Qed.

Lemma sumZ_split (n : nat) (zs : list Z) :
  sumZ zs = sumZ (firstn n zs) + sumZ (skipn n zs).
Proof. rewrite <- sumZ_app, firstn_skipn. reflexivity. Qed.

Lemma abs_sum_split (n : nat) (zs : list Z) :
  abs_sum zs = abs_sum (firstn n zs) + abs_sum (skipn n zs).
Proof. rewrite <- abs_sum_app, firstn_skipn. reflexivity. Qed.

Lemma unrolled_int (blocks : nat) (r a : list float) (rz az : list Z) :
  ints r rz -> ints a az -> length r = 8%nat ->
  abs_sum rz + abs_sum az < 2 ^ 53 ->
  exists r' rest rz' tz,
    unrolled blocks r a = (r', rest) /\
    ints r' rz' /\ length r' = 8%nat /\ ints rest tz /\
    sumZ rz' + sumZ tz = sumZ rz + sumZ az /\
    abs_sum rz' + abs_sum tz <= abs_sum rz + abs_sum az.
Proof.
  revert r a rz az.
  induction blocks as [|b IH]; intros r a rz az Hr Ha Hlen Hlt.
  - exists r, a, rz, az. repeat split; try assumption; lia.
  - cbn [unrolled]. destruct (8 <=? length a)%nat eqn:E.
    + apply Nat.leb_le in E.
      pose proof (abs_sum_split 8 az) as Sa. pose proof (sumZ_split 8 az) as Ss.
      pose proof (abs_sum_nonneg (skipn 8 az)).
      destruct (add8_int r (firstn 8 a) rz (firstn 8 az) Hr (ints_take 8 _ _ Ha)
                  ltac:(lia) ltac:(rewrite length_firstn; lia))
        as (rz1 & Hi & Hl & Hs & Hab).
      destruct (IH (add8 r (firstn 8 a)) (skipn 8 a) rz1 (skipn 8 az) Hi
                  (ints_drop 8 _ _ Ha) ltac:(lia) ltac:(lia))
        as (r' & rest & rz' & tz & Hu & Hr' & Hl' & Ht & Hs' & Hab').
      exists r', rest, rz', tz. repeat split; try assumption; lia.
    + exists r, a, rz, az. repeat split; try assumption; lia.
Qed.

Lemma accumulate_int (r : list float) (rz : list Z) :
  ints r rz -> length r = 8%nat -> abs_sum rz < 2 ^ 53 ->
  int_float (Prim2SF (accumulate r)) (sumZ rz).
Proof.
  intros Hr Hlen Hlt.
  do 8 (destruct Hr as [|? ? r rz ? Hr]; [discriminate|]).
  destruct Hr; [|discriminate].
  cbn [accumulate sumZ abs_sum fold_right] in *.
  match goal with
  | |- int_float _ (?z0 + (?z1 + (?z2 + (?z3 + (?z4 + (?z5 + (?z6 + (?z7 + 0)))))))) =>
      replace (z0 + (z1 + (z2 + (z3 + (z4 + (z5 + (z6 + (z7 + 0))))))))
        with (((z0 + z1) + (z2 + z3)) + ((z4 + z5) + (z6 + z7))) by lia
  end.
  repeat (apply add_int; try assumption; try lia).
Qed.

(** numpy's pairwise summation adds whole numbers exactly while their
    absolute values add up to less than 2^53. *)
Lemma pairwise_sum_int (fuel : nat) (a : list float) (zs : list Z) :
  ints a zs -> (length a <= fuel + 128)%nat -> abs_sum zs < 2 ^ 53 ->
  int_float (Prim2SF (pairwise_sum fuel a)) (sumZ zs).
Proof.
  revert a zs. induction fuel as [|fuel IH]; intros a zs Ha Hlen Hlt.
  - cbn [pairwise_sum]. destruct (length a <? 8)%nat eqn:E8.
    + apply (fold_add_int a zs 0%float 0 Ha); [reflexivity | simpl; lia].
    + replace (length a <=? 128)%nat with true by (symmetry; apply Nat.leb_le; lia).
      apply Nat.ltb_ge in E8.
      pose proof (abs_sum_split 8 zs) as Sa. pose proof (sumZ_split 8 zs) as Ss.
      destruct (unrolled_int (length a) (firstn 8 a) (skipn 8 a)
                  (firstn 8 zs) (skipn 8 zs) (ints_take 8 _ _ Ha) (ints_drop 8 _ _ Ha)
                  ltac:(rewrite length_firstn; lia) ltac:(lia))
        as (r' & rest & rz' & tz & -> & Hr' & Hl' & Ht & Hs' & Hab').
      pose proof (abs_sum_nonneg tz). pose proof (abs_sum_nonneg rz').
      pose proof (sumZ_abs rz').
      replace (sumZ zs) with (sumZ rz' + sumZ tz) by lia.
      apply fold_add_int; [exact Ht | apply accumulate_int; try assumption; lia | lia].
  - cbn [pairwise_sum]. destruct (length a <? 8)%nat eqn:E8.
    + apply (fold_add_int a zs 0%float 0 Ha); [reflexivity | simpl; lia].
    + apply Nat.ltb_ge in E8. destruct (length a <=? 128)%nat eqn:E128.
      * pose proof (abs_sum_split 8 zs) as Sa. pose proof (sumZ_split 8 zs) as Ss.
        destruct (unrolled_int (length a) (firstn 8 a) (skipn 8 a)
                    (firstn 8 zs) (skipn 8 zs) (ints_take 8 _ _ Ha) (ints_drop 8 _ _ Ha)
                    ltac:(rewrite length_firstn; lia) ltac:(lia))
          as (r' & rest & rz' & tz & -> & Hr' & Hl' & Ht & Hs' & Hab').
        pose proof (abs_sum_nonneg tz). pose proof (abs_sum_nonneg rz').
        pose proof (sumZ_abs rz').
        replace (sumZ zs) with (sumZ rz' + sumZ tz) by lia.
        apply fold_add_int; [exact Ht | apply accumulate_int; try assumption; lia | lia].
      * apply Nat.leb_gt in E128.
        set (n2 := (length a / 2 - (length a / 2) mod 8)%nat).
        assert (Hn2 : (64 <= n2 < length a)%nat).
        { unfold n2.
          pose proof (Nat.div_mod_eq (length a) 2) as D2.
          pose proof (Nat.mod_upper_bound (length a) 2 ltac:(lia)).
          pose proof (Nat.div_mod_eq (length a / 2) 8) as D8.
          pose proof (Nat.mod_upper_bound (length a / 2) 8 ltac:(lia)).
          lia. }
        pose proof (abs_sum_split n2 zs) as Sa. pose proof (sumZ_split n2 zs) as Ss.
        pose proof (abs_sum_nonneg (firstn n2 zs)).
        pose proof (abs_sum_nonneg (skipn n2 zs)).
        pose proof (sumZ_abs (firstn n2 zs)). pose proof (sumZ_abs (skipn n2 zs)).
        rewrite Ss. apply add_int.
        -- apply IH; [apply ints_take; exact Ha | rewrite length_firstn; lia | lia].
        -- apply IH; [apply ints_drop; exact Ha | rewrite length_skipn; lia | lia].
        -- lia.
Qed.

End ExactSums.

(** ** The total P/L *)

Lemma whole_number_int (q : Q) :
  whole_number q -> (q == inject_Z (Qnum (Qred q)))%Q.
Proof.
  unfold whole_number. intros H. rewrite <- (Qred_correct q) at 1.
  destruct (Qred q) as [n d]. simpl in *. subst d. reflexivity.
Qed.

Lemma whole_int (q : Q) (z : Z) : (q == inject_Z z)%Q -> whole q = z.
Proof.
  unfold whole, Qeq. simpl. intros H. rewrite Z.mul_1_r in H. rewrite H.
  apply Z.div_mul. lia.
Qed.

Lemma fold_left_add_sumZ (zs : list Z) (acc : Z) :
  fold_left Z.add zs acc = (acc + sumZ zs)%Z.
Proof.
  revert acc. induction zs as [|z zs IH]; intros acc; simpl.
  - unfold sumZ. simpl. lia.
  - rewrite IH. unfold sumZ. simpl. lia.
Qed.

Lemma abs_le_abs_sum (zs : list Z) :
  Forall (fun z => (Z.abs z <= abs_sum zs)%Z) zs.
Proof.
  induction zs as [|z zs IH]; constructor.
  - pose proof (abs_sum_nonneg zs). unfold abs_sum in *. simpl. lia.
  - eapply Forall_impl; [exact IH|]. intros x Hx. simpl in Hx.
    unfold abs_sum in *. simpl. lia.
Qed.

Lemma whole_column (col : list Q) (zs : list Z) :
  Forall2 (fun q z => (q == inject_Z z)%Q) col zs -> map whole col = zs.
Proof.
  induction 1 as [|q z col zs Hq _ IH]; simpl; [reflexivity|].
  rewrite (whole_int q z Hq), IH. reflexivity.
Qed.

Lemma binary64_column (col : list Q) (zs : list Z) :
  Forall2 (fun q z => (q == inject_Z z)%Q) col zs ->
  Forall (fun z => (Z.abs z < 2 ^ 53)%Z) zs ->
  ints (map binary64 col) zs.
Proof.
  unfold ints. induction 1 as [|q z col zs Hq _ IH]; intros Hall; simpl.
  - constructor.
  - apply Forall_cons_1 in Hall as [Hz Hall]. constructor.
    + apply binary64_int; assumption.
    + apply IH. assumption.
Qed.

Lemma sum_list_ints (col : list Q) (zs : list Z) :
  Forall2 (fun q z => (q == inject_Z z)%Q) col zs ->
  (sum_list col == inject_Z (sumZ zs))%Q.
Proof.
  induction 1 as [|q z col zs Hq _ IH]; simpl; [reflexivity|].
  change (sumZ (z :: zs)) with (z + sumZ zs)%Z.
  rewrite inject_Z_plus, Hq, IH. reflexivity.
Qed.

Lemma sum_abs_ints (col : list Q) (zs : list Z) :
  Forall2 (fun q z => (q == inject_Z z)%Q) col zs ->
  (sum_list (map Qabs col) == inject_Z (abs_sum zs))%Q.
Proof.
  induction 1 as [|q z col zs Hq _ IH]; simpl; [reflexivity|].
  change (abs_sum (z :: zs)) with (Z.abs z + abs_sum zs)%Z.
  rewrite inject_Z_plus, IH, Hq. reflexivity.
Qed.

(** A column of whole numbers is summed exactly when the sum is within the
    range of its integer type or, for a [float64] column, the absolute values
    add up to less than 2^53. *)
Lemma series_sum_exact (dt : dtype) (col : list Q) (zs : list Z) :
  Forall2 (fun q z => (q == inject_Z z)%Q) col zs ->
  match dt with
  | int64 => (- 2 ^ 63 <= sumZ zs < 2 ^ 63)%Z
  | uint64 => (0 <= sumZ zs < 2 ^ 64)%Z
  | float64 => (abs_sum zs < 2 ^ 53)%Z
  end ->
  exists v, number_value (series_sum dt col) = Some v /\
            (v == inject_Z (sumZ zs))%Q.
Proof.
  intros Hcol Hrange.
  destruct dt; unfold series_sum.
  - rewrite (whole_column col zs Hcol), fold_left_add_sumZ, Z.add_0_l.
    unfold wrap_int64. rewrite Z.mod_small by lia.
    eexists. split; [reflexivity|]. f_equiv. lia.
  - rewrite (whole_column col zs Hcol), fold_left_add_sumZ, Z.add_0_l.
    rewrite Z.mod_small by lia.
    eexists. split; reflexivity.
  - unfold number_value, float_value, numpy_sum.
    apply int_float_value, pairwise_sum_int.
    + apply binary64_column; [assumption|].
      eapply Forall_impl; [apply abs_le_abs_sum|]. intros z Hz. simpl in Hz. lia.
    + lia.
    + assumption.
Qed.

(** The whole numbers a column of whole P/L values holds. *)
Lemma whole_pl_column (data : list dict) :
  Forall (fun d => whole_number (pl_of d)) data ->
  Forall2 (fun q z => (q == inject_Z z)%Q) (pl_column data)
    (map (fun d => Qnum (Qred (pl_of d))) data).
Proof.
  unfold pl_column. induction 1 as [|d data Hd _ IH]; simpl; constructor.
  - apply whole_number_int. assumption.
  - assumption.
Qed.

(** The total [calculate_summary] reports for a journal of whole P/L values
    in that range. *)
Lemma total_of_exact (data : list dict) :
  whole_in_range data ->
  exists v, number_value (total_of data) = Some v /\
            (v == sum_list (pl_column data))%Q.
Proof.
  intros (Hwhole & Hrange).
  pose proof (whole_pl_column data Hwhole) as Hcol.
  set (zs := map (fun d => Qnum (Qred (pl_of d))) data) in *.
  pose proof (sum_list_ints _ _ Hcol) as Hsum.
  pose proof (sum_abs_ints _ _ Hcol) as Habs.
  destruct data as [|d rest].
  - exists 0%Q. split; reflexivity.
  - unfold total_of.
    destruct (series_sum_exact (column_dtype (raw_column (d :: rest)))
                (pl_column (d :: rest)) zs Hcol) as (v & Hv & Hvz).
    + destruct (column_dtype (raw_column (d :: rest))).
      * rewrite Hsum in Hrange.
        change (- 2 ^ 63)%Q with (inject_Z (- 2 ^ 63)) in Hrange.
        change (2 ^ 63)%Q with (inject_Z (2 ^ 63)) in Hrange.
        rewrite <- Zle_Qle, <- Zlt_Qlt in Hrange. exact Hrange.
      * rewrite Hsum in Hrange.
        change 0%Q with (inject_Z 0) in Hrange.
        change (2 ^ 64)%Q with (inject_Z (2 ^ 64)) in Hrange.
        rewrite <- Zle_Qle, <- Zlt_Qlt in Hrange. exact Hrange.
      * rewrite Habs in Hrange.
        change (2 ^ 53)%Q with (inject_Z (2 ^ 53)) in Hrange.
        rewrite <- Zlt_Qlt in Hrange. exact Hrange.
    + exists v. split; [exact Hv|]. rewrite Hvz, Hsum. reflexivity.
Qed.



(** ** The journal file *)

Lemma get_journal_data_total (fs : filesystem) :
  get_journal_data fs =
  match fs !! DATA_FILE with
  | Some rows =>
      if existsb (existsb oversized) (read_text rows) then (inl CsvError, fs)
      else (inr (DictReader (read_text rows)), fs)
  | None => (inr [], fs)
  end.
Proof.
  unfold get_journal_data, try_except, bind, open_read, list_DictReader, ret, raise.
  destruct (fs !! DATA_FILE); [destruct (existsb _ _)|]; reflexivity.
Qed.

(** Listing reads the file and nothing else; the one way it fails is the
    reader's error. *)
Lemma get_journal_data_outcome (fs : filesystem) :
  get_journal_data fs = (inl CsvError, fs) \/
  exists journal, get_journal_data fs = (inr journal, fs).
Proof.
  rewrite get_journal_data_total.
  destruct (fs !! DATA_FILE); [destruct (existsb _ _)|]; eauto.
Qed.

Lemma header_readable : readable_row HEADER.
Proof. repeat constructor. Qed.

Lemma readable_rows_read_text (rows : list csv_row) :
  Forall readable_row rows ->
  existsb (existsb oversized) (read_text rows) = false.
Proof.
  unfold read_text. induction 1 as [|row rows Hrow _ IH]; [reflexivity|].
  simpl. rewrite IH, orb_false_r.
  induction Hrow as [|cell row Hcell _ IHrow]; [reflexivity|].
  simpl. rewrite IHrow, orb_false_r. exact Hcell.
Qed.

Ltac form_field form key :=
  destruct (form !! key); cbn -[str insert]; [| eexists; reflexivity].

Lemma index_post_run (form : gmap string string) (fs : filesystem)
    (journal : list dict) :
  get_journal_data fs = (inr journal, fs) ->
  match new_entry_of (length journal + 1) form with
  | Some row =>
      index (POST form) fs =
      (inr (Redirect "index"),
       <[DATA_FILE := default [] (fs !! DATA_FILE) ++ [row]]> fs)
  | None => exists key, index (POST form) fs = (inl (BadRequestKeyError key), fs)
  end.
Proof.
  intros Hj. unfold index, bind. rewrite !Hj.
  unfold new_entry_of, FORM_KEYS, form_get, ret, raise, open_append_row.
  cbn -[str insert].
  form_field form "script_name". form_field form "time".
  form_field form "long_short". form_field form "entry_price".
  form_field form "sl". form_field form "quantity".
  form_field form "account_risked". form_field form "target_price".
  form_field form "exit_price". form_field form "exit_time".
  form_field form "rr". form_field form "pl". form_field form "follow_rules".
  reflexivity.
Qed.

Lemma new_entry_of_shape (sl_no : nat) (form : gmap string string) (row : csv_row) :
  new_entry_of sl_no form = Some row ->
  length row = 14%nat /\ row !! 0%nat = Some (str sl_no).
Proof.
  unfold new_entry_of. intros H.
  destruct (mapM (fun key => form !! key) FORM_KEYS) as [values|] eqn:E;
    [|discriminate].
  simpl in H. injection H as <-.
  apply mapM_Some in E. apply Forall2_length in E.
  simpl. rewrite <- E. split; reflexivity.
Qed.

Lemma new_entry_of_complete (sl_no : nat) (form : gmap string string) :
  form_complete form -> is_Some (new_entry_of sl_no form).
Proof.
  intros H. unfold new_entry_of.
  assert (Hm : is_Some (mapM (fun key => form !! key) FORM_KEYS))
    by (apply mapM_is_Some; exact H).
  destruct Hm as [values ->]. simpl. eauto.
Qed.




Lemma no_blank_rows (rows : list csv_row) :
  Forall (fun row => length row = 14%nat) rows ->
  List.filter (fun r => negb (is_blank r)) (read_text rows) = read_text rows.
Proof.
  unfold read_text. induction 1 as [|row rows Hlen _ IH]; [reflexivity|].
  simpl. destruct row as [|c row]; [discriminate|]. simpl.
  f_equal. exact IH.
Qed.

Lemma numbered_rows_length (rows : list csv_row) :
  numbered_rows rows -> Forall (fun row => length row = 14%nat) rows.
Proof.
  intros H. apply Forall_lookup. intros i row Hrow. apply (H i row Hrow).
Qed.

(** Listing a journal file: one record per row, in file order. *)
Lemma get_journal_data_journal_file (fs : filesystem) (rows : list csv_row) :
  journal_file fs rows ->
  get_journal_data fs = (inr (map listed rows), fs).
Proof.
  intros (Hfile & Hrows & Hread).
  rewrite get_journal_data_total, Hfile.
  rewrite (readable_rows_read_text (HEADER :: rows))
    by (constructor; [apply header_readable | exact Hread]).
  change (read_text (HEADER :: rows)) with (HEADER :: read_text rows).
  unfold DictReader.
  rewrite (no_blank_rows rows (numbered_rows_length rows Hrows)).
  unfold read_text. rewrite map_map. reflexivity.
Qed.


Lemma pl_of_listed_present (row : csv_row) :
  length row = 14%nat -> trade_record (listed row).
Proof.
  intros Hlen.
  do 14 (destruct row as [|? row]; [discriminate|]).
  destruct row; [|discriminate].
  unfold trade_record. eexists. reflexivity.
Qed.

Lemma numbered_rows_snoc (rows : list csv_row) (row : csv_row) :
  numbered_rows rows ->
  length row = 14%nat -> row !! 0%nat = Some (str (S (length rows))) ->
  numbered_rows (rows ++ [row]).
Proof.
  intros Hrows Hlen Hfirst i r Hr.
  apply lookup_app_Some in Hr as [Hr | [Hge Hr]].
  - apply (Hrows i r Hr).
  - apply list_lookup_singleton_Some in Hr as [Hi <-].
    assert (i = length rows) by lia. subst i. split; assumption.
Qed.

Lemma index_get_state (fs : filesystem) : (index GET fs).2 = fs.
Proof.
  unfold index, bind.
  destruct (get_journal_data_outcome fs) as [-> | [journal ->]]; [reflexivity|].
  rewrite calculate_summary_frame.
  destruct (calculate_summary _ ∅).1; reflexivity.
Qed.

(** Appending to a journal file: what [index] does with a POST. *)
Lemma index_post_journal_file (form : gmap string string) (fs : filesystem)
    (rows : list csv_row) :
  journal_file fs rows ->
  match new_entry_of (length rows + 1) form with
  | Some row =>
      index (POST form) fs =
      (inr (Redirect "index"), <[DATA_FILE := HEADER :: rows ++ [row]]> fs)
      /\ (readable_row row ->
          journal_file (<[DATA_FILE := HEADER :: rows ++ [row]]> fs) (rows ++ [row]))
  | None => exists key, index (POST form) fs = (inl (BadRequestKeyError key), fs)
  end.
Proof.
  intros Hfile.
  pose proof (index_post_run form fs _ (get_journal_data_journal_file fs rows Hfile))
    as Hrun.
  rewrite length_map in Hrun.
  destruct (new_entry_of (length rows + 1) form) as [row|] eqn:E; [|exact Hrun].
  destruct Hfile as (Hfile & Hrows & Hread).
  rewrite Hfile in Hrun. simpl in Hrun. split; [exact Hrun|].
  intros Hrow.
  split; [apply lookup_insert_eq|]. split.
  - apply new_entry_of_shape in E as [Hlen Hfirst].
    apply numbered_rows_snoc; try assumption.
    rewrite Hfirst. f_equal. f_equal. lia.
  - apply Forall_app. split; [exact Hread | constructor; [exact Hrow | constructor]].
Qed.

(** Every file system reached through readable rows holds a journal file. *)
Lemma reachable_journal_file (fs : filesystem) :
  reachable_readable fs -> exists rows, journal_file fs rows.
Proof.
  induction 1 as [fs Hmissing | fs _ [rows Hfile]
                  | fs form journal _ [rows Hfile] Hlist Hentry].
  - exists []. unfold ensure_data_file, open_write_row. rewrite Hmissing. simpl.
    split; [apply lookup_insert_eq|].
    split; [intros i row Hrow; discriminate | constructor].
  - exists rows. rewrite index_get_state. exact Hfile.
  - pose proof (index_post_journal_file form fs rows Hfile) as Hpost.
    rewrite (get_journal_data_journal_file fs rows Hfile) in Hlist.
    injection Hlist as <-. rewrite length_map in Hentry.
    destruct (new_entry_of (length rows + 1) form) as [row|] eqn:E.
    + destruct Hpost as [-> Hfile']. exists (rows ++ [row]).
      apply Hfile'. apply (Hentry row E).
    + destruct Hpost as [key ->]. exists rows. exact Hfile.
Qed.

(** The states reached through readable rows are among those the application
    can reach. *)
Lemma reachable_readable_reachable (fs : filesystem) :
  reachable_readable fs -> reachable fs.
Proof.
  induction 1 as [fs Hmissing | fs _ IH | fs form journal _ IH _ _].
  - apply reachable_start. exact Hmissing.
  - apply reachable_request. exact IH.
  - apply reachable_request. exact IH.
Qed.

(** Every listing the running application obtains consists of trade records,
    and the page is rendered with their summary. *)
Lemma reachable_listing_records (fs : filesystem) :
  reachable_readable fs ->
  exists data, get_journal_data fs = (inr data, fs) /\ Forall trade_record data.
Proof.
  intros Hreach. destruct (reachable_journal_file fs Hreach) as [rows Hfile].
  exists (map listed rows). split; [apply get_journal_data_journal_file; exact Hfile|].
  apply Forall_map. eapply Forall_impl; [apply numbered_rows_length, Hfile|].
  intros row Hlen. simpl. apply pl_of_listed_present. exact Hlen.
Qed.

Lemma index_get_reachable (fs : filesystem) :
  reachable_readable fs ->
  exists data s,
    index GET fs = (inr (RenderTemplate "index.html" data s), fs) /\
    summarises s (pl_column data) (total_of data).
Proof.
  intros Hreach.
  destruct (reachable_listing_records fs Hreach) as (data & Hlist & Hrec).
  destruct (calculate_summary_run data fs Hrec) as (s & Hrun & Hs).
  exists data, s. split; [|exact Hs].
  unfold index, bind. rewrite Hlist, Hrun. reflexivity.
Qed.

(** Outside the journal's header: rows none of which has a P/L field make
    [df['P/L']] raise. *)
Lemma calculate_summary_without_column (data : list dict) (fs : filesystem) :
  data <> [] ->
  Forall (fun d => fields d !! "P/L" = None) data ->
  calculate_summary data fs = (inl (KeyError "P/L"), fs).
Proof.
  intros Hne Hall. unfold calculate_summary.
  destruct data as [|d rest]; [congruence|].
  assert (E : existsb (has_key "P/L") (d :: rest) = false).
  { clear Hne. induction Hall as [|d' rest' Hd _ IH]; [reflexivity|].
    simpl. rewrite IH. unfold has_key. rewrite Hd.
    rewrite bool_decide_eq_false_2; [reflexivity|].
    intros [x Hx]. discriminate. }
  unfold frame_column. rewrite E. reflexivity.
Qed.




(** C7. When the journal file does not exist, listing the records returns the
    empty list instead of raising, and the page is rendered with the all-zero
    summary of the empty journal. *)
Theorem missing_file_is_empty_journal (fs : filesystem) :
  fs !! DATA_FILE = None ->
  get_journal_data fs = (inr [], fs) /\
  index GET fs = (inr (RenderTemplate "index.html" [] empty_summary), fs) /\
  total_trades empty_summary = 0%nat /\ winning_trades empty_summary = 0%nat /\
  losing_trades empty_summary = 0%nat /\ break_even_trades empty_summary = 0%nat /\
  win_rate empty_summary = "0.00" /\ lose_rate empty_summary = "0.00" /\
  largest_win empty_summary = 0%Q /\ largest_loss empty_summary = 0%Q /\
  total_pl empty_summary = Int 0.
Proof.
  intros Hmissing.
  assert (Hlist : get_journal_data fs = (inr [], fs))
    by (rewrite get_journal_data_total, Hmissing; reflexivity).
  split; [exact Hlist|]. split.
  - unfold index, bind. rewrite Hlist. reflexivity.
  - repeat split; reflexivity.
Qed.

End Journal.

(** ** The development at work: decimal cells *)

Ltac by_computation := apply (bool_decide_unpack _); vm_compute; exact I.

Lemma example_journal_records : Forall trade_record example_journal.
Proof. unfold trade_record. by_computation. Qed.

Lemma eleven_trades_records : Forall trade_record eleven_trades.
Proof. unfold trade_record. by_computation. Qed.

(** The worked example of the specification, run through the code. *)
Example summary_of_example_journal :
  calculate_summary decimal_literal decimal_dtype example_journal ∅ =
  (inr {| total_trades := 3; winning_trades := 1; losing_trades := 1;
          break_even_trades := 1; win_rate := "33.33"; lose_rate := "33.33";
          largest_win := 100; largest_loss := -50; total_pl := Int 50 |}, ∅).
Proof. vm_compute. reflexivity. Qed.

Lemma largest_trades_witness :
  Forall trade_record example_journal /\
  exists s, calculate_summary decimal_literal decimal_dtype example_journal ∅ = (inr s, ∅) /\
    (winners decimal_literal example_journal <> [] ->
       is_maximum (largest_win s) (winners decimal_literal example_journal)) /\
    (winners decimal_literal example_journal = [] -> largest_win s = 0%Q) /\
    (losers decimal_literal example_journal <> [] ->
       is_minimum (largest_loss s) (losers decimal_literal example_journal)) /\
    (losers decimal_literal example_journal = [] -> largest_loss s = 0%Q) /\
    (0 <= largest_win s)%Q /\ (largest_loss s <= 0)%Q.
Proof.
  split.
  - unfold trade_record. by_computation.
  - apply (largest_trades_are_bucket_extrema decimal_literal decimal_dtype example_journal ∅).
    unfold trade_record. by_computation.
Defined.

Lemma rates_witness :
  Forall trade_record example_journal /\
  (Z.of_nat (length example_journal) < 2 ^ 53)%Z /\
  exists s hw hl vw vl,
    calculate_summary decimal_literal decimal_dtype example_journal ∅ = (inr s, ∅) /\
    total_trades s = length example_journal /\
    winning_trades s = length (winners decimal_literal example_journal) /\
    losing_trades s = length (losers decimal_literal example_journal) /\
    float_value (rate (winning_trades s) (total_trades s)) = Some vw /\
    float_value (rate (losing_trades s) (total_trades s)) = Some vl /\
    win_rate s = fixed2 hw /\ lose_rate s = fixed2 hl /\
    (0 <= hw <= 10000)%Z /\ (0 <= hl <= 10000)%Z /\
    (Qabs (inject_Z hw - 100 * vw) <= 1 # 2)%Q /\
    (Qabs (inject_Z hl - 100 * vl) <= 1 # 2)%Q /\
    (length example_journal = 0%nat -> win_rate s = "0.00" /\ lose_rate s = "0.00") /\
    (Forall2 Qeq (pl_column decimal_literal example_journal) [100; -50; 0]%Q ->
       win_rate s = "33.33").
Proof.
  split; [|split].
  - unfold trade_record. by_computation.
  - vm_compute. reflexivity.
  - apply (rates_are_formatted_percentages decimal_literal decimal_dtype example_journal ∅).
    + unfold trade_record. by_computation.
    + vm_compute. reflexivity.
Defined.

(** C2 as stated fails on the binary64 rates. With 23 winners among 160
    trades the quotient 23/160 × 100 is 14.375 exactly, which to two decimal
    places is 14.38, ties going to the even neighbour or away from zero
    alike. The code divides and multiplies in binary64, gets a number just
    below 14.375 and prints "14.37". *)
Lemma rate_is_not_the_rational_quotient :
  Forall trade_record trades_23_of_160 /\
  exists s,
    calculate_summary decimal_literal decimal_dtype trades_23_of_160 ∅ = (inr s, ∅) /\
    length (winners decimal_literal trades_23_of_160) = 23%nat /\
    length trades_23_of_160 = 160%nat /\
    win_rate s = "14.37" /\
    (exact_rate 23 160 == 115 # 8)%Q /\
    spec_rate round_half_even 23 160 = "14.38" /\
    spec_rate round_half_up 23 160 = "14.38" /\
    win_rate s <> spec_rate round_half_even
                    (length (winners decimal_literal trades_23_of_160))
                    (length trades_23_of_160) /\
    win_rate s <> spec_rate round_half_up
                    (length (winners decimal_literal trades_23_of_160))
                    (length trades_23_of_160).
Proof.
  split.
  - unfold trade_record. by_computation.
  - eexists. split; [vm_compute; reflexivity|].
    cbn [win_rate].
    split; [vm_compute; reflexivity|].
    split; [vm_compute; reflexivity|].
    split; [reflexivity|].
    split; [vm_compute; reflexivity|].
    split; [vm_compute; reflexivity|].
    split; [vm_compute; reflexivity|].
    split; vm_compute; discriminate.
Qed.

Lemma counts_witness :
  Forall trade_record example_journal /\
  exists s, calculate_summary decimal_literal decimal_dtype example_journal ∅ = (inr s, ∅) /\
    total_trades s = length example_journal /\
    winning_trades s =
      length (List.filter (fun d => Qltb 0 (pl_of decimal_literal d)) example_journal) /\
    losing_trades s =
      length (List.filter (fun d => Qltb (pl_of decimal_literal d) 0) example_journal) /\
    break_even_trades s =
      length (List.filter (fun d => Qeq_bool (pl_of decimal_literal d) 0) example_journal) /\
    (winning_trades s + losing_trades s + break_even_trades s)%nat = total_trades s.
Proof.
  split.
  - unfold trade_record. by_computation.
  - apply (counts_partition_total decimal_literal decimal_dtype example_journal ∅).
    unfold trade_record. by_computation.
Defined.





Lemma rates_between_0_and_100_witness :
  Forall trade_record eleven_trades /\
  (Z.of_nat (length eleven_trades) < 2 ^ 53)%Z /\
  exists s w l, calculate_summary decimal_literal decimal_dtype eleven_trades ∅ = (inr s, ∅) /\
    float_value (rate (winning_trades s) (total_trades s)) = Some w /\
    float_value (rate (losing_trades s) (total_trades s)) = Some l /\
    (0 <= w <= 100)%Q /\ (0 <= l <= 100)%Q /\
    (winning_trades s + losing_trades s <= total_trades s)%nat /\
    (exact_rate (winning_trades s) (total_trades s)
     + exact_rate (losing_trades s) (total_trades s) <= 100)%Q.
Proof.
  split; [|split].
  - unfold trade_record. by_computation.
  - vm_compute. reflexivity.
  - apply (rates_between_0_and_100 decimal_literal decimal_dtype eleven_trades ∅).
    + unfold trade_record. by_computation.
    + vm_compute. reflexivity.
Defined.

(** C10 as stated fails on the binary64 rates: with two winners and nine
    losers among eleven trades the two rates, taken at their exact values, add
    up to more than 100 (18.181818181818183 + 81.81818181818183), and so does
    their binary64 sum. *)
Lemma rates_sum_exceeds_100 :
  exists s a b,
    calculate_summary decimal_literal decimal_dtype eleven_trades ∅ = (inr s, ∅) /\
    winning_trades s = 2%nat /\ losing_trades s = 9%nat /\ total_trades s = 11%nat /\
    float_value (rate (winning_trades s) (total_trades s)) = Some a /\
    float_value (rate (losing_trades s) (total_trades s)) = Some b /\
    (100 < a + b)%Q /\
    (100 <? rate (winning_trades s) (total_trades s)
            + rate (losing_trades s) (total_trades s))%float = true.
Proof.
  eexists. eexists. eexists.
  split; [vm_compute; reflexivity|].
  split; [reflexivity|]. split; [reflexivity|]. split; [reflexivity|].
  split; [vm_compute; reflexivity|].
  split; [vm_compute; reflexivity|].
  split; [vm_compute; reflexivity | vm_compute; reflexivity].
Qed.





Lemma missing_file_witness :
  (∅ : filesystem) !! DATA_FILE = None /\
  get_journal_data ∅ = (inr [], ∅) /\
  index decimal_literal decimal_dtype GET ∅
  = (inr (RenderTemplate "index.html" [] empty_summary), ∅).
Proof.
  split.
  - reflexivity.
  - destruct (missing_file_is_empty_journal decimal_literal decimal_dtype ∅) as (H1 & H2 & _).
    + reflexivity.
    + split; assumption.
Defined.

Lemma calculate_summary_pure_witness :
  holds example_world 1 example_journal /\
  exists r w',
    calculate_summary_at decimal_literal decimal_dtype 1 example_world = Some (r, w') /\
    files w' = files example_world /\
    (forall l o, heap example_world !! l = Some o -> heap w' !! l = Some o) /\
    holds w' 1 example_journal /\
    answer r w'
    = Some (calculate_summary decimal_literal decimal_dtype example_journal
              (files example_world)).1 /\
    (exists r2 w'',
       calculate_summary_at decimal_literal decimal_dtype 1 w' = Some (r2, w'') /\
       answer r2 w'' = answer r w') /\
    (forall w2 data2, holds w2 data2 example_journal ->
       exists r2 w2',
         calculate_summary_at decimal_literal decimal_dtype data2 w2 = Some (r2, w2') /\
         answer r2 w2' = answer r w').
Proof.
  assert (H : holds example_world 1 example_journal).
  { exists [2; 3; 4]%positive. split; [reflexivity|].
    repeat constructor. }
  split; [exact H|].
  apply (calculate_summary_pure decimal_literal decimal_dtype example_world 1
           example_journal H).
Defined.
(** * Further properties of the journal code *)

Section JournalExtras.

Variable to_numeric : string -> option Q.
Variable column_dtype : list (option (option string)) -> dtype.

(** X1. Start-up creates the journal file with the header row only when no
    file of that name exists: an existing file, whatever it holds, is left as
    it is, and running the start-up code a second time changes nothing. *)
Theorem ensure_data_file_keeps_existing (fs : filesystem) :
  ensure_data_file fs
  = (inr tt, <[DATA_FILE := default [HEADER] (fs !! DATA_FILE)]> fs) /\
  ensure_data_file (ensure_data_file fs).2 = (inr tt, (ensure_data_file fs).2) /\
  (forall rows, fs !! DATA_FILE = Some rows -> (ensure_data_file fs).2 = fs).
Proof.
  unfold ensure_data_file, open_write_row.
  destruct (fs !! DATA_FILE) as [rows|] eqn:E; simpl.
  - rewrite insert_id by exact E. rewrite E. repeat split; congruence.
  - rewrite lookup_insert_eq. repeat split; congruence.
Qed.

Ltac missing_field form i key :=
  let E := fresh "E" in
  destruct (form !! key) eqn:E; cbn -[str insert];
  [| exists (take i FORM_KEYS), key, (drop (S i) FORM_KEYS);
     split; [reflexivity|];
     split; [repeat constructor; eauto|];
     split; [assumption | reflexivity]].

(** X2. A POST whose form lacks one of the thirteen fields writes nothing to
    the journal file. The handler lists the journal first: when the csv reader
    refuses the file, the POST is aborted with the reader's error; otherwise
    it is aborted with [BadRequestKeyError] for the first missing field, in
    the order the handler reads them. *)
Theorem post_incomplete_form_rejected (fs : filesystem) (form : gmap string string) :
  ~ form_complete form ->
  (get_journal_data fs = (inl CsvError, fs) /\
   index to_numeric column_dtype (POST form) fs = (inl CsvError, fs))
  \/
  (exists journal, get_journal_data fs = (inr journal, fs)) /\
  exists before key after,
    FORM_KEYS = before ++ key :: after /\
    Forall (fun k => is_Some (form !! k)) before /\
    form !! key = None /\
    index to_numeric column_dtype (POST form) fs = (inl (BadRequestKeyError key), fs).
Proof.
  intros Hinc. destruct (get_journal_data_outcome fs) as [Herr | [journal Hj]].
  { left. split; [exact Herr|]. unfold index, bind. rewrite Herr. reflexivity. }
  right. split; [eauto|].
  unfold index, bind. rewrite Hj.
  unfold form_get, ret, raise, open_append_row. cbn -[str insert].
  missing_field form 0%nat "script_name". missing_field form 1%nat "time".
  missing_field form 2%nat "long_short". missing_field form 3%nat "entry_price".
  missing_field form 4%nat "sl". missing_field form 5%nat "quantity".
  missing_field form 6%nat "account_risked". missing_field form 7%nat "target_price".
  missing_field form 8%nat "exit_price". missing_field form 9%nat "exit_time".
  missing_field form 10%nat "rr". missing_field form 11%nat "pl".
  missing_field form 12%nat "follow_rules".
  exfalso. apply Hinc. unfold form_complete, FORM_KEYS. repeat constructor; eauto.
Qed.

Lemma no_pl_column (data : list dict) :
  existsb (has_key "P/L") data = false <->
  Forall (fun d => fields d !! "P/L" = None) data.
Proof.
  induction data as [|d rest IH]; simpl.
  - split; [constructor | reflexivity].
  - rewrite orb_false_iff, IH, Forall_cons. unfold has_key.
    destruct (fields d !! "P/L") eqn:E.
    + rewrite bool_decide_eq_true_2 by eauto. split; intros [? ?]; discriminate.
    + rewrite bool_decide_eq_false_2 by (intros [x Hx]; discriminate). tauto.
Qed.

Lemma calculate_summary_raises (data : list dict) (fs : filesystem) (e : exn) :
  calculate_summary to_numeric column_dtype data fs = (inl e, fs) ->
  e = KeyError "P/L" /\ data <> [] /\
  Forall (fun d => fields d !! "P/L" = None) data.
Proof.
  unfold calculate_summary. destruct data as [|d rest]; [discriminate|].
  unfold frame_column.
  destruct (existsb (has_key "P/L") (d :: rest)) eqn:Ex; [discriminate|].
  intros H. injection H as <-. split; [reflexivity|]. split; [discriminate|].
  apply no_pl_column. exact Ex.
Qed.

(** X7. [calculate_summary] raises in one case only: the records are not
    empty and none of them has a P/L key, and the exception is then
    [KeyError "P/L"]. On every other input it returns a summary. *)
Theorem calculate_summary_fails_iff (data : list dict) (fs : filesystem) (e : exn) :
  calculate_summary to_numeric column_dtype data fs = (inl e, fs) <->
  e = KeyError "P/L" /\ data <> [] /\
  Forall (fun d => fields d !! "P/L" = None) data.
Proof.
  split.
  - apply calculate_summary_raises.
  - intros (-> & Hne & Hall).
    apply calculate_summary_without_column; assumption.
Qed.

(** X3. A GET leaves the file system as it is and ends in one of three ways.
    It raises the csv reader's error, exactly when the journal file holds a
    field that, read in text mode, is over the field size limit. It raises
    [KeyError "P/L"], exactly when the listing is not empty and no record in
    it has a P/L key. Otherwise it renders [index.html] with the listing of
    the journal and the summary of that listing. *)
Theorem get_renders_listing_or_fails (fs : filesystem) :
  (get_journal_data fs = (inl CsvError, fs) /\
   index to_numeric column_dtype GET fs = (inl CsvError, fs) /\
   exists rows, fs !! DATA_FILE = Some rows /\
     existsb (existsb oversized) (read_text rows) = true)
  \/
  exists journal,
    get_journal_data fs = (inr journal, fs) /\
    (forall rows, fs !! DATA_FILE = Some rows ->
       existsb (existsb oversized) (read_text rows) = false) /\
    (index to_numeric column_dtype GET fs = (inl (KeyError "P/L"), fs) /\
       journal <> [] /\ Forall (fun d => fields d !! "P/L" = None) journal
     \/
     exists s, calculate_summary to_numeric column_dtype journal fs = (inr s, fs) /\
       index to_numeric column_dtype GET fs
       = (inr (RenderTemplate "index.html" journal s), fs)).
Proof.
  assert (Hcases :
    (get_journal_data fs = (inl CsvError, fs) /\
     exists rows, fs !! DATA_FILE = Some rows /\
       existsb (existsb oversized) (read_text rows) = true)
    \/
    exists journal, get_journal_data fs = (inr journal, fs) /\
      forall rows, fs !! DATA_FILE = Some rows ->
        existsb (existsb oversized) (read_text rows) = false).
  { rewrite get_journal_data_total.
    destruct (fs !! DATA_FILE) as [rows|] eqn:Efile.
    - destruct (existsb (existsb oversized) (read_text rows)) eqn:Ebig.
      + left. split; [reflexivity|]. exists rows. split; [reflexivity | exact Ebig].
      + right. eexists. split; [reflexivity|]. intros rows' E. congruence.
    - right. eexists. split; [reflexivity|]. intros rows' E. discriminate. }
  destruct Hcases as [(Herr & Hbig) | (journal & Hj & Hsmall)].
  { left. split; [exact Herr|]. split; [|exact Hbig].
    unfold index, bind. rewrite Herr. reflexivity. }
  right. exists journal. split; [exact Hj|]. split; [exact Hsmall|].
  unfold index, bind. rewrite Hj.
  destruct (calculate_summary to_numeric column_dtype journal fs) as [[e|s] fs'] eqn:Erun.
  - assert (fs' = fs).
    { rewrite calculate_summary_frame in Erun. congruence. }
    subst fs'. left.
    apply calculate_summary_raises in Erun as (-> & Hne & Hall).
    split; [reflexivity|]. split; assumption.
  - assert (fs' = fs).
    { rewrite calculate_summary_frame in Erun. congruence. }
    subst fs'. right. exists s. split; reflexivity.
Qed.

Lemma universal_newlines_no_cr (s : string) :
  contains_cr s = false -> universal_newlines s = s.
Proof.
  induction s as [|c rest IH]; [reflexivity|].
  simpl. destruct (Ascii.eqb c CR); [discriminate|].
  simpl. intros H. rewrite IH by exact H. reflexivity.
Qed.

Lemma universal_newlines_cons (c : ascii) (rest : string) :
  universal_newlines (String c rest) =
  if Ascii.eqb c CR then
    match rest with
    | String c' rest' =>
        if Ascii.eqb c' LF then String LF (universal_newlines rest')
        else String LF (universal_newlines rest)
    | EmptyString => String LF EmptyString
    end
  else String c (universal_newlines rest).
Proof. destruct rest; reflexivity. Qed.

Lemma universal_newlines_removes_cr (s : string) :
  contains_cr (universal_newlines s) = false.
Proof.
  assert (H : forall n s, (String.length s <= n)%nat ->
                contains_cr (universal_newlines s) = false).
  { clear s. induction n as [|n IH]; intros s Hlen.
    - destruct s; [reflexivity|simpl in Hlen; lia].
    - destruct s as [|c rest]; [reflexivity|].
      rewrite universal_newlines_cons.
      destruct (Ascii.eqb c CR) eqn:Ec.
      + destruct rest as [|c' rest']; [reflexivity|].
        destruct (Ascii.eqb c' LF).
        * cbn [contains_cr]. change (Ascii.eqb LF CR) with false. cbn [orb].
          apply IH. simpl in Hlen |- *. lia.
        * cbn [contains_cr]. change (Ascii.eqb LF CR) with false. cbn [orb].
          apply IH. simpl in Hlen |- *. lia.
      + cbn [contains_cr]. rewrite Ec. cbn [orb]. apply IH. simpl in Hlen |- *. lia. }
  apply (H (String.length s)). lia.
Qed.

Lemma universal_newlines_fixed_iff (s : string) :
  universal_newlines s = s <-> contains_cr s = false.
Proof.
  split.
  - intros H. rewrite <- H. apply universal_newlines_removes_cr.
  - apply universal_newlines_no_cr.
Qed.

(** Every named field of a record read from a fourteen-cell row. *)
Lemma fields_of_listed (row : csv_row) (i : nat) (column cell : string) :
  length row = 14%nat ->
  HEADER !! i = Some column -> row !! i = Some cell ->
  fields (listed row) !! column = Some (Some (universal_newlines cell)) /\
  restkey (listed row) = None.
Proof.
  intros Hlen Hcol Hcell.
  do 14 (destruct row as [|? row]; [discriminate|]).
  destruct row; [|discriminate].
  do 14 (destruct i as [|i];
         [injection Hcol as <-; injection Hcell as <-; split; reflexivity|]).
  discriminate.
Qed.

Lemma new_entry_of_cells (sl_no : nat) (form : gmap string string) (row : csv_row)
    (i : nat) (key : string) :
  new_entry_of sl_no form = Some row ->
  FORM_KEYS !! i = Some key ->
  row !! S i = form !! key /\ is_Some (form !! key).
Proof.
  unfold new_entry_of. intros H Hkey.
  destruct (mapM (fun key => form !! key) FORM_KEYS) as [values|] eqn:E;
    [|discriminate].
  simpl in H. injection H as <-.
  apply mapM_Some in E.
  destruct (Forall2_lookup_l _ _ _ _ _ E Hkey) as (v & Hv & Hf).
  simpl. rewrite Hv, Hf. split; [reflexivity | eauto].
Qed.

(** X4. Once the application runs on a journal the csv reader accepts (no
    field over its limit of 131072 characters), a POST of a complete form
    whose row the reader accepts appends one record to the listing, with no
    cells beyond the header's columns; each column after the sequence number
    holds the submitted text of its form field with CR LF and lone CR turned
    into LF, hence the submitted text itself exactly when that text holds no
    carriage return. *)
Theorem post_then_list_round_trip (fs : filesystem) (form : gmap string string) :
  reachable_readable to_numeric column_dtype fs -> form_complete form ->
  (forall journal, get_journal_data fs = (inr journal, fs) ->
     readable_entry (length journal + 1) form) ->
  exists journal entry fs',
    get_journal_data fs = (inr journal, fs) /\
    index to_numeric column_dtype (POST form) fs = (inr (Redirect "index"), fs') /\
    get_journal_data fs' = (inr (journal ++ [entry]), fs') /\
    restkey entry = None /\
    forall i column key value,
      HEADER !! S i = Some column -> FORM_KEYS !! i = Some key ->
      form !! key = Some value ->
      fields entry !! column = Some (Some (universal_newlines value)) /\
      (fields entry !! column = Some (Some value) <-> contains_cr value = false).
Proof.
  intros Hreach Hform Hentry.
  destruct (reachable_journal_file to_numeric column_dtype fs Hreach) as [rows Hfile].
  pose proof (get_journal_data_journal_file _ _ Hfile) as Hlist.
  specialize (Hentry _ Hlist). rewrite length_map in Hentry.
  pose proof (index_post_journal_file to_numeric column_dtype form fs rows Hfile) as Hpost.
  destruct (new_entry_of_complete (length rows + 1) form Hform) as [row Hrow].
  rewrite Hrow in Hpost. destruct Hpost as [Hpost Hfile'].
  specialize (Hfile' (Hentry row Hrow)).
  pose proof (get_journal_data_journal_file _ _ Hfile') as Hlist'.
  rewrite map_app in Hlist'. simpl in Hlist'.
  destruct (new_entry_of_shape _ _ _ Hrow) as [Hlen Hfirst].
  exists (map listed rows), (listed row), (<[DATA_FILE := HEADER :: rows ++ [row]]> fs).
  split; [exact Hlist|].
  split; [exact Hpost|]. split; [exact Hlist'|].
  split.
  - apply (fields_of_listed row 0 "Sl No." _ Hlen eq_refl Hfirst).
  - intros i column key value Hcol Hkey Hval.
    destruct (new_entry_of_cells _ _ _ i key Hrow Hkey) as [Hcell _].
    rewrite Hval in Hcell.
    destruct (fields_of_listed row (S i) column value Hlen Hcol Hcell) as [Hf _].
    split; [exact Hf|]. rewrite Hf. rewrite <- universal_newlines_fixed_iff.
    split; [intros H; congruence | intros ->; reflexivity].
Qed.

(** ** Order of the records, and one more record *)

Lemma count_where_Permutation (mask : Q -> bool) (xs ys : list Q) :
  Permutation xs ys -> count_where mask xs = count_where mask ys.
Proof.
  induction 1 as [|x xs ys _ IH|x y xs|xs ys zs _ IH1 _ IH2].
  - reflexivity.
  - rewrite !count_where_cons, IH. reflexivity.
  - rewrite !count_where_cons. lia.
  - congruence.
Qed.

Lemma sum_list_Permutation (xs ys : list Q) :
  Permutation xs ys -> (sum_list xs == sum_list ys)%Q.
Proof.
  induction 1 as [|x xs ys _ IH|x y xs|xs ys zs _ IH1 _ IH2]; simpl.
  - reflexivity.
  - rewrite IH. reflexivity.
  - ring.
  - rewrite IH1. exact IH2.
Qed.

Lemma is_maximum_unique (m m' : Q) (l l' : list Q) :
  is_maximum m l -> is_maximum m' l' ->
  (forall x, In x l <-> In x l') -> (m == m')%Q.
Proof.
  intros [Hin Hle] [Hin' Hle'] Hsame.
  apply Qle_antisym.
  - apply Hle', Hsame, Hin.
  - apply Hle, Hsame, Hin'.
Qed.

Lemma is_minimum_unique (m m' : Q) (l l' : list Q) :
  is_minimum m l -> is_minimum m' l' ->
  (forall x, In x l <-> In x l') -> (m == m')%Q.
Proof.
  intros [Hin Hle] [Hin' Hle'] Hsame.
  apply Qle_antisym.
  - apply Hle, Hsame, Hin'.
  - apply Hle', Hsame, Hin.
Qed.

Lemma same_elements_nil {A} (l l' : list A) :
  (forall x, In x l <-> In x l') -> l = [] -> l' = [].
Proof.
  intros H ->. destruct l' as [|x l']; [reflexivity|].
  exfalso. apply (H x). left. reflexivity.
Qed.

(** The largest win (loss) of a column depends on its elements only. *)
Lemma largest_win_same_elements (col col' : list Q) (m m' : Q) :
  (forall x, In x col <-> In x col') ->
  m = (if (0 <? count_where (fun x => Qltb 0 x) col)%nat
       then series_max col else 0%Q) ->
  m' = (if (0 <? count_where (fun x => Qltb 0 x) col')%nat
        then series_max col' else 0%Q) ->
  (m == m')%Q.
Proof.
  intros Hsame Hm Hm'.
  destruct (largest_win_spec col m Hm) as (W1 & W2 & _).
  destruct (largest_win_spec col' m' Hm') as (W1' & W2' & _).
  assert (Hf : forall x, In x (List.filter (fun x => Qltb 0 x) col) <->
                         In x (List.filter (fun x => Qltb 0 x) col')).
  { intros x. rewrite !filter_In, Hsame. reflexivity. }
  destruct (List.filter (fun x => Qltb 0 x) col) as [|w ws] eqn:E.
  - rewrite W2, W2'; [reflexivity| |reflexivity].
    apply (same_elements_nil _ _ Hf eq_refl).
  - assert (Hne' : List.filter (fun x => Qltb 0 x) col' <> []).
    { intros E'. apply (same_elements_nil _ _ (fun x => iff_sym (Hf x))) in E'.
      discriminate. }
    apply (is_maximum_unique m m' _ _ (W1 ltac:(discriminate)) (W1' Hne') Hf).
Qed.

Lemma largest_loss_same_elements (col col' : list Q) (m m' : Q) :
  (forall x, In x col <-> In x col') ->
  m = (if (0 <? count_where (fun x => Qltb x 0) col)%nat
       then series_min col else 0%Q) ->
  m' = (if (0 <? count_where (fun x => Qltb x 0) col')%nat
        then series_min col' else 0%Q) ->
  (m == m')%Q.
Proof.
  intros Hsame Hm Hm'.
  destruct (largest_loss_spec col m Hm) as (W1 & W2 & _).
  destruct (largest_loss_spec col' m' Hm') as (W1' & W2' & _).
  assert (Hf : forall x, In x (List.filter (fun x => Qltb x 0) col) <->
                         In x (List.filter (fun x => Qltb x 0) col')).
  { intros x. rewrite !filter_In, Hsame. reflexivity. }
  destruct (List.filter (fun x => Qltb x 0) col) as [|w ws] eqn:E.
  - rewrite W2, W2'; [reflexivity| |reflexivity].
    apply (same_elements_nil _ _ Hf eq_refl).
  - assert (Hne' : List.filter (fun x => Qltb x 0) col' <> []).
    { intros E'. apply (same_elements_nil _ _ (fun x => iff_sym (Hf x))) in E'.
      discriminate. }
    apply (is_minimum_unique m m' _ _ (W1 ltac:(discriminate)) (W1' Hne') Hf).
Qed.

(** X6. The counts, the rates and the extremes of the summary do not depend
    on the order of the records: for a rearrangement of the same trade
    records the counts and the two rate strings are the same and the largest
    win and largest loss are equal as numbers. The total P/L is the same
    number when, in both orders, the P/L values are whole numbers whose sum
    pandas computes without wrap-around or rounding; a [float64] column of
    other values is added in the order of the records, and its total can
    change with the order. *)
Theorem summary_ignores_record_order (data data' : list dict) (fs : filesystem) :
  Permutation data data' -> Forall trade_record data ->
  exists s s',
    calculate_summary to_numeric column_dtype data fs = (inr s, fs) /\
    calculate_summary to_numeric column_dtype data' fs = (inr s', fs) /\
    total_trades s = total_trades s' /\
    winning_trades s = winning_trades s' /\
    losing_trades s = losing_trades s' /\
    break_even_trades s = break_even_trades s' /\
    win_rate s = win_rate s' /\ lose_rate s = lose_rate s' /\
    (largest_win s == largest_win s')%Q /\
    (largest_loss s == largest_loss s')%Q /\
    (whole_in_range to_numeric column_dtype data ->
     whole_in_range to_numeric column_dtype data' ->
     exists v v', number_value (total_pl s) = Some v /\
       number_value (total_pl s') = Some v' /\ (v == v')%Q).
Proof.
  intros Hperm Hall.
  assert (Hall' : Forall trade_record data').
  { eapply Permutation_Forall; eauto. }
  destruct (calculate_summary_run to_numeric column_dtype data fs Hall)
    as (s & Hrun & Ht & Hw & Hl & Hb & Hwr & Hlr & Hmax & Hmin & Hsum).
  destruct (calculate_summary_run to_numeric column_dtype data' fs Hall')
    as (s' & Hrun' & Ht' & Hw' & Hl' & Hb' & Hwr' & Hlr' & Hmax' & Hmin' & Hsum').
  assert (Hcol : Permutation (pl_column to_numeric data) (pl_column to_numeric data')).
  { unfold pl_column. apply Permutation_map. exact Hperm. }
  assert (Hsame : forall x, In x (pl_column to_numeric data) <->
                            In x (pl_column to_numeric data')).
  { intros x. split; apply Permutation_in; [exact Hcol | symmetry; exact Hcol]. }
  assert (Et : total_trades s = total_trades s').
  { rewrite Ht, Ht'. apply Permutation_length. exact Hcol. }
  assert (Ew : winning_trades s = winning_trades s').
  { rewrite Hw, Hw'. apply count_where_Permutation. exact Hcol. }
  assert (El : losing_trades s = losing_trades s').
  { rewrite Hl, Hl'. apply count_where_Permutation. exact Hcol. }
  exists s, s'. split; [exact Hrun|]. split; [exact Hrun'|].
  split; [exact Et|]. split; [exact Ew|]. split; [exact El|].
  split; [rewrite Hb, Hb'; apply count_where_Permutation; exact Hcol|].
  split; [rewrite Hwr, Hwr', Ew, Et; reflexivity|].
  split; [rewrite Hlr, Hlr', El, Et; reflexivity|].
  split; [|split].
  - rewrite Hw in Hmax. rewrite Hw' in Hmax'.
    exact (largest_win_same_elements _ _ _ _ Hsame Hmax Hmax').
  - rewrite Hl in Hmin. rewrite Hl' in Hmin'.
    exact (largest_loss_same_elements _ _ _ _ Hsame Hmin Hmin').
  - intros Hrange Hrange'.
    destruct (total_of_exact to_numeric column_dtype data Hrange) as (v & Hv & Hvs).
    destruct (total_of_exact to_numeric column_dtype data' Hrange') as (v' & Hv' & Hvs').
    exists v, v'. rewrite Hsum, Hsum'.
    split; [exact Hv|]. split; [exact Hv'|].
    rewrite Hvs, Hvs'. apply sum_list_Permutation. exact Hcol.
Qed.








(** X8. When the journal file is missing while requests are served, a POST
    creates it without a header row: the first entry is then read as the
    header, so the listing stays empty after the first POST, the second entry
    is numbered 1 again, and, the csv reader accepting both rows (no field
    over its limit), the listing after the second POST is one record keyed by
    the cells of the first entry. *)
Theorem post_on_missing_file_reuses_number
    (fs : filesystem) (form1 form2 : gmap string string) :
  fs !! DATA_FILE = None -> form_complete form1 -> form_complete form2 ->
  readable_entry 1 form1 -> readable_entry 1 form2 ->
  exists row1 row2 fs1 fs2 d,
    index to_numeric column_dtype (POST form1) fs = (inr (Redirect "index"), fs1) /\
    get_journal_data fs1 = (inr [], fs1) /\
    index to_numeric column_dtype (POST form2) fs1 = (inr (Redirect "index"), fs2) /\
    fs2 !! DATA_FILE = Some [row1; row2] /\
    row1 !! 0%nat = Some "1" /\ row2 !! 0%nat = Some "1" /\
    get_journal_data fs2 = (inr [d], fs2) /\
    d = DictReader_row (map universal_newlines row1) (map universal_newlines row2).
Proof.
  intros Hmissing Hf1 Hf2 Hread1 Hread2.
  assert (Hlist : get_journal_data fs = (inr [], fs))
    by (rewrite get_journal_data_total, Hmissing; reflexivity).
  pose proof (index_post_run to_numeric column_dtype form1 fs [] Hlist) as Hp1.
  destruct (new_entry_of_complete (length (@nil dict) + 1) form1 Hf1) as [row1 Hr1].
  rewrite Hr1, Hmissing in Hp1.
  change (default [] None ++ [row1]) with [row1] in Hp1.
  set (fs1 := <[DATA_FILE := [row1]]> fs) in *.
  assert (Hfile1 : fs1 !! DATA_FILE = Some [row1]) by apply lookup_insert_eq.
  pose proof (Hread1 row1 Hr1) as Hrow1.
  assert (Hlist1 : get_journal_data fs1 = (inr [], fs1)).
  { rewrite get_journal_data_total, Hfile1.
    rewrite (readable_rows_read_text [row1]) by (repeat constructor; exact Hrow1).
    reflexivity. }
  pose proof (index_post_run to_numeric column_dtype form2 fs1 [] Hlist1) as Hp2.
  destruct (new_entry_of_complete (length (@nil dict) + 1) form2 Hf2) as [row2 Hr2].
  rewrite Hr2, Hfile1 in Hp2.
  change (default [] (Some [row1]) ++ [row2]) with [row1; row2] in Hp2.
  pose proof (Hread2 row2 Hr2) as Hrow2.
  destruct (new_entry_of_shape _ _ _ Hr1) as [Hlen1 Hfirst1].
  destruct (new_entry_of_shape _ _ _ Hr2) as [Hlen2 Hfirst2].
  exists row1, row2, fs1, (<[DATA_FILE := [row1; row2]]> fs1).
  eexists.
  split; [exact Hp1|]. split; [exact Hlist1|]. split; [exact Hp2|].
  split; [apply lookup_insert_eq|].
  split; [exact Hfirst1|]. split; [exact Hfirst2|].
  split; [|reflexivity].
  rewrite get_journal_data_total, lookup_insert_eq.
  rewrite (readable_rows_read_text [row1; row2])
    by (repeat constructor; assumption).
  destruct row2 as [|c row2]; [discriminate|]. reflexivity.
Qed.

(** ** The two ends of the rate scale *)

Lemma rate_of_none (total : nat) :
  (0 < total)%nat -> (Z.of_nat total < 2 ^ 53)%Z ->
  Prim2SF (rate 0 total) = S754_zero false.
Proof.
  intros Hpos Hlt. unfold rate.
  destruct total as [|t]; [lia|]. cbn [Nat.ltb Nat.leb].
  rewrite mul_spec, div_spec, float_of_nat_0.
  destruct (float_of_nat_spec (S t) Hpos Hlt) as (m & e & -> & _).
  reflexivity.
Qed.

Lemma rate_of_all (total : nat) :
  (0 < total)%nat -> (Z.of_nat total < 2 ^ 53)%Z ->
  Prim2SF (rate total total) = S754_finite false 7036874417766400 (-46).
Proof.
  intros Hpos Hlt. unfold rate.
  destruct total as [|t]; [lia|]. cbn [Nat.ltb Nat.leb].
  rewrite mul_spec, div_spec.
  destruct (float_of_nat_spec (S t) Hpos Hlt) as (m & e & -> & Hd & He & _).
  rewrite SFdiv_finite by assumption.
  rewrite (Z.mul_comm (Z.pos m) (2 ^ 53)), Z.div_mul, Z.mod_mul by lia.
  rewrite new_location_0.
  replace (e - e - 53)%Z with (-53)%Z by lia.
  reflexivity.
Qed.

(** X9. For a non-empty journal of fewer than 2^53 trade records: a rate is
    "0.00" when its count is 0, and when every trade is a winner (a loser)
    the win (lose) rate is "100.00" and the other rate "0.00". *)
Theorem rates_at_the_ends (data : list dict) (fs : filesystem) :
  Forall trade_record data -> data <> [] ->
  (Z.of_nat (length data) < 2 ^ 53)%Z ->
  exists s, calculate_summary to_numeric column_dtype data fs = (inr s, fs) /\
    (winning_trades s = 0%nat -> win_rate s = "0.00") /\
    (winning_trades s = total_trades s -> win_rate s = "100.00" /\ lose_rate s = "0.00") /\
    (losing_trades s = 0%nat -> lose_rate s = "0.00") /\
    (losing_trades s = total_trades s -> lose_rate s = "100.00" /\ win_rate s = "0.00").
Proof.
  intros Hall Hne Hlen.
  destruct (calculate_summary_run to_numeric column_dtype data fs Hall)
    as (s & Hrun & Ht & Hw & Hl & Hb & Hwr & Hlr & _).
  pose proof (count_partition (pl_column to_numeric data)) as Hpart.
  rewrite <- Hw, <- Hl, <- Hb, <- Ht in Hpart.
  assert (Hlen' : total_trades s = length data).
  { rewrite Ht. unfold pl_column. apply length_map. }
  assert (Hpos : (0 < total_trades s)%nat).
  { rewrite Hlen'. destruct data; [congruence|simpl; lia]. }
  assert (Hlt : (Z.of_nat (total_trades s) < 2 ^ 53)%Z) by (rewrite Hlen'; exact Hlen).
  assert (Hzero : format_2f (rate 0 (total_trades s)) = "0.00").
  { unfold format_2f. rewrite (rate_of_none _ Hpos Hlt). reflexivity. }
  assert (Hfull : format_2f (rate (total_trades s) (total_trades s)) = "100.00").
  { unfold format_2f. rewrite (rate_of_all _ Hpos Hlt). vm_compute. reflexivity. }
  exists s. split; [exact Hrun|].
  split; [intros E; rewrite Hwr, E; exact Hzero|].
  split.
  { intros E. split; [rewrite Hwr, E; exact Hfull|].
    assert (losing_trades s = 0%nat) as E0 by lia. rewrite Hlr, E0. exact Hzero. }
  split; [intros E; rewrite Hlr, E; exact Hzero|].
  intros E. split; [rewrite Hlr, E; exact Hfull|].
  assert (winning_trades s = 0%nat) as E0 by lia. rewrite Hwr, E0. exact Hzero.
Qed.

(** X10. For a journal of fewer than 2^53 trade records each rate string is
    a whole number of hundredths between 0 and 10000, printed with two
    decimals (so between "0.00" and "100.00"), and that number is within one
    half of 100 times the binary64 rate. *)
Theorem rate_strings_on_the_grid (data : list dict) (fs : filesystem) :
  Forall trade_record data ->
  (Z.of_nat (length data) < 2 ^ 53)%Z ->
  exists s hw hl vw vl,
    calculate_summary to_numeric column_dtype data fs = (inr s, fs) /\
    win_rate s = fixed2 hw /\ (0 <= hw <= 10000)%Z /\
    lose_rate s = fixed2 hl /\ (0 <= hl <= 10000)%Z /\
    float_value (rate (winning_trades s) (total_trades s)) = Some vw /\
    float_value (rate (losing_trades s) (total_trades s)) = Some vl /\
    (Qabs (inject_Z hw - 100 * vw) <= 1 # 2)%Q /\
    (Qabs (inject_Z hl - 100 * vl) <= 1 # 2)%Q.
Proof.
  intros Hall Hlen.
  destruct (calculate_summary_run to_numeric column_dtype data fs Hall)
    as (s & Hrun & Ht & Hw & Hl & Hb & Hwr & Hlr & _).
  pose proof (count_partition (pl_column to_numeric data)) as Hpart.
  rewrite <- Hw, <- Hl, <- Hb, <- Ht in Hpart.
  assert (Hlen' : total_trades s = length data).
  { rewrite Ht. unfold pl_column. apply length_map. }
  assert (Hlt : (Z.of_nat (total_trades s) < 2 ^ 53)%Z) by (rewrite Hlen'; exact Hlen).
  destruct (format_2f_grid _ (rate_at_most_100 (winning_trades s) (total_trades s)
                                ltac:(lia) Hlt)) as (hw & vw & Ew & Bw & Vw & Nw).
  destruct (format_2f_grid _ (rate_at_most_100 (losing_trades s) (total_trades s)
                                ltac:(lia) Hlt)) as (hl & vl & El & Bl & Vl & Nl).
  exists s, hw, hl, vw, vl.
  rewrite Hwr, Hlr. repeat split; try assumption; lia.
Qed.

End JournalExtras.

(** ** The further properties at work *)

Lemma sample_entry_readable (journal : list dict) :
  get_journal_data (ensure_data_file ∅).2 = (inr journal, (ensure_data_file ∅).2) ->
  readable_entry (length journal + 1) (sample_form "120.50").
Proof.
  intros Hlist.
  assert (E : get_journal_data (ensure_data_file ∅).2 = (inr [], (ensure_data_file ∅).2))
    by (vm_compute; reflexivity).
  rewrite E in Hlist. injection Hlist as <-.
  intros row Hrow.
  assert (E' : new_entry_of (length (@nil dict) + 1) (sample_form "120.50")
               = Some (sample_row 1 "120.50")) by (vm_compute; reflexivity).
  rewrite E' in Hrow. injection Hrow as <-.
  unfold readable_row, readable_cell. by_computation.
Defined.

Lemma first_entry_readable (pl : string) :
  Forall readable_cell (sample_row 1 pl) ->
  readable_entry 1 (sample_form pl).
Proof.
  intros Hrow row Hnew.
  assert (E : new_entry_of 1 (sample_form pl) = Some (sample_row 1 pl))
    by (vm_compute; reflexivity).
  rewrite E in Hnew. injection Hnew as <-. exact Hrow.
Defined.

Lemma incomplete_form_witness :
  ~ form_complete (delete "pl" (sample_form "120.50")) /\
  ((get_journal_data ∅ = (inl CsvError, ∅) /\
    index decimal_literal decimal_dtype (POST (delete "pl" (sample_form "120.50"))) ∅
    = (inl CsvError, ∅))
   \/
   (exists journal, get_journal_data ∅ = (inr journal, ∅)) /\
   exists before key after,
     FORM_KEYS = before ++ key :: after /\
     Forall (fun k => is_Some (delete "pl" (sample_form "120.50") !! k)) before /\
     delete "pl" (sample_form "120.50") !! key = None /\
     index decimal_literal decimal_dtype (POST (delete "pl" (sample_form "120.50"))) ∅
     = (inl (BadRequestKeyError key), ∅)).
Proof.
  split.
  - unfold form_complete. by_computation.
  - apply (post_incomplete_form_rejected decimal_literal decimal_dtype ∅
             (delete "pl" (sample_form "120.50"))).
    unfold form_complete. by_computation.
Defined.

Lemma round_trip_witness :
  reachable_readable decimal_literal decimal_dtype (ensure_data_file ∅).2 /\
  form_complete (sample_form "120.50") /\
  exists journal entry fs',
    get_journal_data (ensure_data_file ∅).2 = (inr journal, (ensure_data_file ∅).2) /\
    index decimal_literal decimal_dtype (POST (sample_form "120.50")) (ensure_data_file ∅).2
    = (inr (Redirect "index"), fs') /\
    get_journal_data fs' = (inr (journal ++ [entry]), fs') /\
    restkey entry = None /\
    forall i column key value,
      HEADER !! S i = Some column -> FORM_KEYS !! i = Some key ->
      sample_form "120.50" !! key = Some value ->
      fields entry !! column = Some (Some (universal_newlines value)) /\
      (fields entry !! column = Some (Some value) <-> contains_cr value = false).
Proof.
  split; [|split].
  - apply readable_start. reflexivity.
  - unfold form_complete. by_computation.
  - apply (post_then_list_round_trip decimal_literal decimal_dtype (ensure_data_file ∅).2
             (sample_form "120.50")).
    + apply readable_start. reflexivity.
    + unfold form_complete. by_computation.
    + exact sample_entry_readable.
Defined.


Lemma record_order_witness :
  Permutation [sample_record 1 "100"; sample_record 2 "-50"]
              [sample_record 2 "-50"; sample_record 1 "100"] /\
  Forall trade_record [sample_record 1 "100"; sample_record 2 "-50"] /\
  exists s s' v v',
    calculate_summary decimal_literal decimal_dtype
      [sample_record 1 "100"; sample_record 2 "-50"] ∅
    = (inr s, ∅) /\
    calculate_summary decimal_literal decimal_dtype
      [sample_record 2 "-50"; sample_record 1 "100"] ∅
    = (inr s', ∅) /\
    total_trades s = total_trades s' /\
    win_rate s = win_rate s' /\ lose_rate s = lose_rate s' /\
    (largest_win s == largest_win s')%Q /\
    (largest_loss s == largest_loss s')%Q /\
    number_value (total_pl s) = Some v /\
    number_value (total_pl s') = Some v' /\ (v == v')%Q.
Proof.
  split; [|split].
  - apply perm_swap.
  - unfold trade_record. by_computation.
  - destruct (summary_ignores_record_order decimal_literal decimal_dtype
                [sample_record 1 "100"; sample_record 2 "-50"]
                [sample_record 2 "-50"; sample_record 1 "100"] ∅)
      as (s & s' & H1 & H2 & H3 & _ & _ & _ & H4 & H5 & H6 & H7 & H8).
    + apply perm_swap.
    + unfold trade_record. by_computation.
    + destruct H8 as (v & v' & Hv & Hv' & Hvv).
      * split; [repeat constructor; vm_compute; reflexivity
               | vm_compute; split; [discriminate | reflexivity]].
      * split; [repeat constructor; vm_compute; reflexivity
               | vm_compute; split; [discriminate | reflexivity]].
      * exists s, s', v, v'. repeat split; assumption.
Defined.


Lemma missing_file_post_witness :
  (∅ : filesystem) !! DATA_FILE = None /\
  form_complete (sample_form "120.50") /\ form_complete (sample_form "-40") /\
  readable_entry 1 (sample_form "120.50") /\ readable_entry 1 (sample_form "-40") /\
  exists row1 row2 fs1 fs2 d,
    index decimal_literal decimal_dtype (POST (sample_form "120.50")) ∅
    = (inr (Redirect "index"), fs1) /\
    get_journal_data fs1 = (inr [], fs1) /\
    index decimal_literal decimal_dtype (POST (sample_form "-40")) fs1
    = (inr (Redirect "index"), fs2) /\
    fs2 !! DATA_FILE = Some [row1; row2] /\
    row1 !! 0%nat = Some "1" /\ row2 !! 0%nat = Some "1" /\
    get_journal_data fs2 = (inr [d], fs2) /\
    d = DictReader_row (map universal_newlines row1) (map universal_newlines row2).
Proof.
  assert (R1 : readable_entry 1 (sample_form "120.50")).
  { apply first_entry_readable. unfold readable_cell. by_computation. }
  assert (R2 : readable_entry 1 (sample_form "-40")).
  { apply first_entry_readable. unfold readable_cell. by_computation. }
  split; [|split; [|split; [|split; [|split]]]].
  - reflexivity.
  - unfold form_complete. by_computation.
  - unfold form_complete. by_computation.
  - exact R1.
  - exact R2.
  - apply (post_on_missing_file_reuses_number decimal_literal decimal_dtype ∅
             (sample_form "120.50") (sample_form "-40")).
    + reflexivity.
    + unfold form_complete. by_computation.
    + unfold form_complete. by_computation.
    + exact R1.
    + exact R2.
Defined.

Lemma rates_at_the_ends_witness :
  Forall trade_record [sample_record 1 "100"; sample_record 2 "35.5"] /\
  [sample_record 1 "100"; sample_record 2 "35.5"] <> [] /\
  (Z.of_nat (length [sample_record 1 "100"; sample_record 2 "35.5"]) < 2 ^ 53)%Z /\
  exists s,
    calculate_summary decimal_literal decimal_dtype
      [sample_record 1 "100"; sample_record 2 "35.5"] ∅
    = (inr s, ∅) /\
    (winning_trades s = 0%nat -> win_rate s = "0.00") /\
    (winning_trades s = total_trades s -> win_rate s = "100.00" /\ lose_rate s = "0.00") /\
    (losing_trades s = 0%nat -> lose_rate s = "0.00") /\
    (losing_trades s = total_trades s -> lose_rate s = "100.00" /\ win_rate s = "0.00").
Proof.
  split; [|split; [|split]].
  - unfold trade_record. by_computation.
  - discriminate.
  - vm_compute. reflexivity.
  - apply (rates_at_the_ends decimal_literal decimal_dtype
             [sample_record 1 "100"; sample_record 2 "35.5"] ∅).
    + unfold trade_record. by_computation.
    + discriminate.
    + vm_compute. reflexivity.
Defined.

Lemma rate_strings_witness :
  Forall trade_record eleven_trades /\
  (Z.of_nat (length eleven_trades) < 2 ^ 53)%Z /\
  exists s hw hl vw vl,
    calculate_summary decimal_literal decimal_dtype eleven_trades ∅ = (inr s, ∅) /\
    win_rate s = fixed2 hw /\ (0 <= hw <= 10000)%Z /\
    lose_rate s = fixed2 hl /\ (0 <= hl <= 10000)%Z /\
    float_value (rate (winning_trades s) (total_trades s)) = Some vw /\
    float_value (rate (losing_trades s) (total_trades s)) = Some vl /\
    (Qabs (inject_Z hw - 100 * vw) <= 1 # 2)%Q /\
    (Qabs (inject_Z hl - 100 * vl) <= 1 # 2)%Q.
Proof.
  split; [|split].
  - unfold trade_record. by_computation.
  - vm_compute. reflexivity.
  - apply (rate_strings_on_the_grid decimal_literal decimal_dtype eleven_trades ∅).
    + unfold trade_record. by_computation.
    + vm_compute. reflexivity.
Defined.
(** * Properties of the page's script *)

(** ** The order of binary64 numbers *)

Lemma SFltb_finite_pos (m1 m2 : positive) (e1 e2 : Z) :
  SFltb (S754_finite false m1 e1) (S754_finite false m2 e2) = true <->
  (e1 < e2 \/ (e1 = e2 /\ (m1 < m2)%positive))%Z.
Proof.
  unfold SFltb, SFcompare.
  destruct (Z.compare_spec e1 e2) as [E|E|E].
  - change (Pos.compare_cont Eq m1 m2) with (Pos.compare m1 m2).
    destruct (Pos.compare_spec m1 m2) as [M|M|M]; split; intros H;
      try discriminate; try reflexivity; try lia.
  - split; [intros _; lia | reflexivity].
  - split; [discriminate | lia].
Qed.

Lemma SFltb_finite_neg (m1 m2 : positive) (e1 e2 : Z) :
  SFltb (S754_finite true m1 e1) (S754_finite true m2 e2) = true <->
  (e2 < e1 \/ (e1 = e2 /\ (m2 < m1)%positive))%Z.
Proof.
  unfold SFltb, SFcompare.
  destruct (Z.compare_spec e1 e2) as [E|E|E].
  - change (Pos.compare_cont Eq m1 m2) with (Pos.compare m1 m2).
    destruct (Pos.compare_spec m1 m2) as [M|M|M]; simpl; split; intros H;
      try discriminate; try reflexivity; try lia.
  - split; [discriminate | lia].
  - split; [intros _; lia | reflexivity].
Qed.

Lemma SFltb_trans (x y z : spec_float) :
  SFltb x y = true -> SFltb y z = true -> SFltb x z = true.
Proof.
  destruct x as [sx|sx| |sx mx ex], y as [sy|sy| |sy my ey], z as [sz|sz| |sz mz ez];
    try discriminate;
    try (destruct sx; discriminate); try (destruct sy; discriminate);
    try (destruct sx, sy; discriminate); try (destruct sy, sz; discriminate);
    try (destruct sx, sz; (discriminate || reflexivity));
    try (destruct sx, sy, sz; (discriminate || reflexivity)).
  all: destruct sx, sy, sz; try discriminate; try reflexivity.
  - rewrite !SFltb_finite_neg. lia.
  - rewrite !SFltb_finite_pos. lia.
Qed.

Lemma SFltb_irrefl (x : spec_float) : SFltb x x = false.
Proof.
  destruct x as [s|s| |s m e]; try reflexivity; try (destruct s; reflexivity).
  destruct s.
  - destruct (SFltb (S754_finite true m e) (S754_finite true m e)) eqn:E; [|reflexivity].
    apply SFltb_finite_neg in E. lia.
  - destruct (SFltb (S754_finite false m e) (S754_finite false m e)) eqn:E; [|reflexivity].
    apply SFltb_finite_pos in E. lia.
Qed.

Lemma SFltb_leb (x y : spec_float) : SFltb x y = true -> SFleb x y = true.
Proof.
  unfold SFltb, SFleb. destruct (SFcompare x y) as [[| |]|]; try discriminate. reflexivity.
Qed.

Lemma ltb_trans (a b c : float) :
  (a <? b)%float = true -> (b <? c)%float = true -> (a <? c)%float = true.
Proof. rewrite !ltb_spec. apply SFltb_trans. Qed.

Lemma ltb_irrefl (a : float) : (a <? a)%float = false.
Proof. rewrite ltb_spec. apply SFltb_irrefl. Qed.

Lemma ltb_leb (a b : float) : (a <? b)%float = true -> (a <=? b)%float = true.
Proof. rewrite ltb_spec, leb_spec. apply SFltb_leb. Qed.

(** ** The largest win and the largest loss *)

Lemma largestWin_snoc (trades : list trade) (t : trade) :
  largestWin (trades ++ [t]) =
  if js_gt (pl t) (largestWin trades) then default (largestWin trades) (pl t)
  else largestWin trades.
Proof. unfold largestWin. rewrite fold_left_app. reflexivity. Qed.

Lemma largestLoss_snoc (trades : list trade) (t : trade) :
  largestLoss (trades ++ [t]) =
  if js_lt (pl t) (largestLoss trades) then default (largestLoss trades) (pl t)
  else largestLoss trades.
Proof. unfold largestLoss. rewrite fold_left_app. reflexivity. Qed.

Lemma largestWin_spec (trades : list trade) :
  Forall (fun t => js_gt (pl t) (largestWin trades) = false) trades /\
  (largestWin trades = 0%float \/
   exists t, In t trades /\ pl t = Some (largestWin trades) /\
             (0 <? largestWin trades)%float = true).
Proof.
  induction trades as [|t trades [IHall IHor]] using rev_ind.
  - split; [constructor | left; reflexivity].
  - rewrite largestWin_snoc.
    set (r := largestWin trades) in *.
    destruct (pl t) as [a|] eqn:Ea; cbn [js_gt default from_option id].
    + destruct (r <? a)%float eqn:E.
      * assert (Hpos : (0 <? a)%float = true).
        { destruct IHor as [H0 | (t' & _ & _ & H0)].
          - rewrite <- H0. exact E.
          - exact (ltb_trans _ _ _ H0 E). }
        split.
        -- apply Forall_app. split.
           ++ eapply Forall_impl; [exact IHall|]. cbv beta.
              intros t' Ht'. destruct (pl t') as [p|]; [|reflexivity].
              cbn [js_gt] in *. destruct (a <? p)%float eqn:Eap; [|reflexivity].
              rewrite (ltb_trans _ _ _ E Eap) in Ht'. discriminate.
           ++ constructor; [|constructor]. rewrite Ea. cbn [js_gt]. apply ltb_irrefl.
        -- right. exists t. split; [apply in_or_app; right; left; reflexivity|].
           split; [exact Ea | exact Hpos].
      * split.
        -- apply Forall_app. split; [exact IHall|].
           constructor; [|constructor]. rewrite Ea. exact E.
        -- destruct IHor as [H0 | (t' & Hin & Hpl & H0)]; [left; exact H0|].
           right. exists t'. split; [apply in_or_app; left; exact Hin|]. split; assumption.
    + split.
      * apply Forall_app. split; [exact IHall|].
        constructor; [|constructor]. rewrite Ea. reflexivity.
      * destruct IHor as [H0 | (t' & Hin & Hpl & H0)]; [left; exact H0|].
        right. exists t'. split; [apply in_or_app; left; exact Hin|]. split; assumption.
Qed.

Lemma largestLoss_spec (trades : list trade) :
  Forall (fun t => js_lt (pl t) (largestLoss trades) = false) trades /\
  (largestLoss trades = 0%float \/
   exists t, In t trades /\ pl t = Some (largestLoss trades) /\
             (largestLoss trades <? 0)%float = true).
Proof.
  induction trades as [|t trades [IHall IHor]] using rev_ind.
  - split; [constructor | left; reflexivity].
  - rewrite largestLoss_snoc.
    set (r := largestLoss trades) in *.
    destruct (pl t) as [a|] eqn:Ea; cbn [js_lt default from_option id].
    + destruct (a <? r)%float eqn:E.
      * assert (Hneg : (a <? 0)%float = true).
        { destruct IHor as [H0 | (t' & _ & _ & H0)].
          - rewrite <- H0. exact E.
          - exact (ltb_trans _ _ _ E H0). }
        split.
        -- apply Forall_app. split.
           ++ eapply Forall_impl; [exact IHall|]. cbv beta.
              intros t' Ht'. destruct (pl t') as [p|]; [|reflexivity].
              cbn [js_lt] in *. destruct (p <? a)%float eqn:Eap; [|reflexivity].
              rewrite (ltb_trans _ _ _ Eap E) in Ht'. discriminate.
           ++ constructor; [|constructor]. rewrite Ea. cbn [js_lt]. apply ltb_irrefl.
        -- right. exists t. split; [apply in_or_app; right; left; reflexivity|].
           split; [exact Ea | exact Hneg].
      * split.
        -- apply Forall_app. split; [exact IHall|].
           constructor; [|constructor]. rewrite Ea. exact E.
        -- destruct IHor as [H0 | (t' & Hin & Hpl & H0)]; [left; exact H0|].
           right. exists t'. split; [apply in_or_app; left; exact Hin|]. split; assumption.
    + split.
      * apply Forall_app. split; [exact IHall|].
        constructor; [|constructor]. rewrite Ea. reflexivity.
      * destruct IHor as [H0 | (t' & Hin & Hpl & H0)]; [left; exact H0|].
        right. exists t'. split; [apply in_or_app; left; exact Hin|]. split; assumption.
Qed.

Lemma largestWin_nonneg (trades : list trade) :
  (0 <=? largestWin trades)%float = true.
Proof.
  destruct (largestWin_spec trades) as [_ [-> | (t & _ & _ & H)]];
    [reflexivity | apply ltb_leb; exact H].
Qed.

Lemma largestLoss_nonpos (trades : list trade) :
  (largestLoss trades <=? 0)%float = true.
Proof.
  destruct (largestLoss_spec trades) as [_ [-> | (t & _ & _ & H)]];
    [reflexivity | apply ltb_leb; exact H].
Qed.

(** X12. The largest win the script shows is never negative and never NaN,
    no trade's P/L exceeds it, it is 0 when no trade has a positive P/L and
    otherwise the P/L of one of the winning trades; the largest loss is the
    mirror image: never positive, below no trade's P/L, 0 without a losing
    trade and otherwise the P/L of one of them. *)
Theorem script_largest_trades (trades : list trade) :
  (0 <=? largestWin trades)%float = true /\
  Forall (fun t => js_gt (pl t) (largestWin trades) = false) trades /\
  (winningTrades trades = 0%nat -> largestWin trades = 0%float) /\
  ((0 < winningTrades trades)%nat ->
     exists t, In t trades /\ pl t = Some (largestWin trades) /\
               js_gt (pl t) 0 = true) /\
  (largestLoss trades <=? 0)%float = true /\
  Forall (fun t => js_lt (pl t) (largestLoss trades) = false) trades /\
  (losingTrades trades = 0%nat -> largestLoss trades = 0%float) /\
  ((0 < losingTrades trades)%nat ->
     exists t, In t trades /\ pl t = Some (largestLoss trades) /\
               js_lt (pl t) 0 = true).
Proof.
  destruct (largestWin_spec trades) as [Wall Wor].
  destruct (largestLoss_spec trades) as [Lall Lor].
  assert (Wnone : winningTrades trades = 0%nat ->
                  Forall (fun t => js_gt (pl t) 0 = false) trades).
  { unfold winningTrades. intros H. apply length_zero_iff_nil in H.
    apply List.Forall_forall. intros t Hin.
    destruct (js_gt (pl t) 0) eqn:E; [|reflexivity].
    assert (Hf : In t (List.filter (fun t => js_gt (pl t) 0) trades))
      by (apply filter_In; split; [exact Hin | exact E]).
    rewrite H in Hf. destruct Hf. }
  assert (Lnone : losingTrades trades = 0%nat ->
                  Forall (fun t => js_lt (pl t) 0 = false) trades).
  { unfold losingTrades. intros H. apply length_zero_iff_nil in H.
    apply List.Forall_forall. intros t Hin.
    destruct (js_lt (pl t) 0) eqn:E; [|reflexivity].
    assert (Hf : In t (List.filter (fun t => js_lt (pl t) 0) trades))
      by (apply filter_In; split; [exact Hin | exact E]).
    rewrite H in Hf. destruct Hf. }
  assert (Wsome : (0 < winningTrades trades)%nat -> largestWin trades <> 0%float).
  { unfold winningTrades. intros H E.
    destruct (List.filter (fun t => js_gt (pl t) 0) trades) as [|t ts] eqn:Ef;
      [simpl in H; lia|].
    assert (Hin : In t (List.filter (fun t => js_gt (pl t) 0) trades))
      by (rewrite Ef; left; reflexivity).
    apply filter_In in Hin as [Hin Hgt].
    rewrite List.Forall_forall in Wall. specialize (Wall t Hin).
    rewrite E in Wall. congruence. }
  assert (Lsome : (0 < losingTrades trades)%nat -> largestLoss trades <> 0%float).
  { unfold losingTrades. intros H E.
    destruct (List.filter (fun t => js_lt (pl t) 0) trades) as [|t ts] eqn:Ef;
      [simpl in H; lia|].
    assert (Hin : In t (List.filter (fun t => js_lt (pl t) 0) trades))
      by (rewrite Ef; left; reflexivity).
    apply filter_In in Hin as [Hin Hlt].
    rewrite List.Forall_forall in Lall. specialize (Lall t Hin).
    rewrite E in Lall. congruence. }
  split; [apply largestWin_nonneg|].
  split; [exact Wall|].
  split.
  { intros H. destruct Wor as [E | (t & Hin & Hpl & Hpos)]; [exact E|].
    specialize (Wnone H). rewrite List.Forall_forall in Wnone. specialize (Wnone t Hin).
    rewrite Hpl in Wnone. cbn [js_gt] in Wnone. congruence. }
  split.
  { intros H. destruct Wor as [E | (t & Hin & Hpl & Hpos)]; [destruct (Wsome H E)|].
    exists t. split; [exact Hin|]. split; [exact Hpl|]. rewrite Hpl. exact Hpos. }
  split; [apply largestLoss_nonpos|].
  split; [exact Lall|].
  split.
  { intros H. destruct Lor as [E | (t & Hin & Hpl & Hneg)]; [exact E|].
    specialize (Lnone H). rewrite List.Forall_forall in Lnone. specialize (Lnone t Hin).
    rewrite Hpl in Lnone. cbn [js_lt] in Lnone. congruence. }
  intros H. destruct Lor as [E | (t & Hin & Hpl & Hneg)]; [destruct (Lsome H E)|].
  exists t. split; [exact Hin|]. split; [exact Hpl|]. rewrite Hpl. exact Hneg.
Qed.

(** ** Printing with two decimals *)

Lemma round_half_up_nearest (n d : Z) :
  (0 < d)%Z -> (2 * Z.abs (round_half_up n d * d - n) <= d)%Z.
Proof.
  intros Hd. unfold round_half_up.
  pose proof (Z.div_mod (2 * n + d) (2 * d) ltac:(lia)) as Hdm.
  pose proof (Z.mod_pos_bound (2 * n + d) (2 * d) ltac:(lia)) as Hb.
  generalize dependent ((2 * n + d) mod (2 * d))%Z.
  generalize dependent ((2 * n + d) / (2 * d))%Z.
  intros q r Hdm Hb.
  assert (E : (2 * (q * d - n) = d - r)%Z) by lia.
  lia.
Qed.

Lemma hundredths_up_nearest (m : positive) (e : Z) :
  (Qabs (inject_Z (hundredths_up m e) - 100 * scaled (Z.pos m) e) <= 1 # 2)%Q.
Proof.
  unfold hundredths_up. destruct (0 <=? e)%Z eqn:He.
  - apply Z.leb_le in He.
    assert (E : (inject_Z (Z.pos m * 2 ^ e * 100) - 100 * scaled (Z.pos m) e == 0)%Q).
    { unfold scaled. rewrite !inject_Z_mult, Zpower_Qpower by assumption.
      change (inject_Z 2) with 2%Q. change (inject_Z 100) with 100%Q. ring. }
    rewrite E. vm_compute. discriminate.
  - apply Z.leb_gt in He.
    set (d := (2 ^ (- e))%Z).
    assert (Hd : (0 < d)%Z) by (apply pow2_pos; lia).
    pose proof (round_half_up_nearest (Z.pos m * 100) d Hd) as H.
    set (r := round_half_up (Z.pos m * 100) d) in *.
    assert (Es : (scaled (Z.pos m) e == inject_Z (Z.pos m) / inject_Z d)%Q).
    { unfold scaled, d. rewrite Zpower_Qpower by lia. change (inject_Z 2) with 2%Q.
      unfold Qdiv. rewrite Qpower_opp, Qinv_involutive. reflexivity. }
    assert (Hdq : (0 < inject_Z d)%Q) by (rewrite <- (Zlt_Qlt 0); assumption).
    assert (E : (inject_Z r - 100 * scaled (Z.pos m) e
                 == inject_Z (r * d - Z.pos m * 100) / inject_Z d)%Q).
    { rewrite Es. unfold Zminus. rewrite inject_Z_plus, inject_Z_opp, !inject_Z_mult.
      change (inject_Z 100) with 100%Q. field. lra. }
    set (z := (r * d - Z.pos m * 100)%Z) in *.
    assert (X1 : (inject_Z (- d) <= inject_Z (2 * z))%Q) by (rewrite <- Zle_Qle; lia).
    assert (X2 : (inject_Z (2 * z) <= inject_Z d)%Q) by (rewrite <- Zle_Qle; lia).
    rewrite inject_Z_opp in X1. rewrite inject_Z_mult in X1, X2.
    change (inject_Z 2) with 2%Q in X1, X2.
    apply Qabs_Qle_condition. rewrite E. split.
    + apply Qle_shift_div_l; [assumption|]. lra.
    + apply Qle_shift_div_r; [assumption|]. lra.
Qed.

(** ** Sums that differ in a zero *)

Lemma Prim2SF_inj (a b : float) : Prim2SF a = Prim2SF b -> a = b.
Proof.
  intros H. rewrite <- (SF2Prim_Prim2SF a), <- (SF2Prim_Prim2SF b), H. reflexivity.
Qed.

Lemma falsy_number_spec (a : float) :
  falsy_number a = true <->
  (exists s, Prim2SF a = S754_zero s) \/ Prim2SF a = S754_nan.
Proof.
  unfold falsy_number. rewrite !FloatAxioms.eqb_spec.
  change (Prim2SF 0) with (S754_zero false).
  destruct (Prim2SF a) as [s|s| |s m e]; unfold SFeqb, SFcompare.
  - split; [eauto | reflexivity].
  - destruct s; split; try discriminate; intros [[? ?] | ?]; discriminate.
  - split; [right; reflexivity | reflexivity].
  - assert (E : (e ?= e)%Z = Eq) by apply Z.compare_refl.
    assert (M : Pos.compare_cont Eq m m = Eq) by apply Pos.compare_refl.
    destruct s; rewrite E, M; cbn; split; try discriminate;
      intros [[? ?] | ?]; discriminate.
Qed.

Lemma or_zero_falsy (x : option float) : falsy x = true -> or_zero x = 0%float.
Proof. destruct x as [a|]; cbn; [intros ->; reflexivity | reflexivity]. Qed.

Lemma or_zero_not_negative_zero (x : option float) :
  Prim2SF (or_zero x) <> S754_zero true.
Proof.
  destruct x as [a|]; cbn; [|discriminate].
  destruct (falsy_number a) eqn:E; [discriminate|].
  intros H. assert (falsy_number a = true); [|congruence].
  apply falsy_number_spec. left. eauto.
Qed.

Lemma add_same_number (a b c : float) :
  same_number a b -> Prim2SF c <> S754_zero true -> (a + c)%float = (b + c)%float.
Proof.
  intros [-> | (s & s' & Ha & Hb)] Hc; [reflexivity|].
  apply Prim2SF_inj. rewrite !add_spec, Ha, Hb.
  unfold SF64add, SFadd.
  destruct (Prim2SF c) as [[|]| | |]; try reflexivity; [congruence|].
  destruct s, s'; reflexivity.
Qed.

Lemma add_zero_same_number (a : float) : same_number (a + 0)%float a.
Proof.
  destruct (Prim2SF a) as [s|s| |s m e] eqn:E.
  - right. exists false, s. split; [|exact E].
    rewrite add_spec, E. destruct s; reflexivity.
  - left. apply Prim2SF_inj. rewrite add_spec, E. reflexivity.
  - left. apply Prim2SF_inj. rewrite add_spec, E. reflexivity.
  - left. apply Prim2SF_inj. rewrite add_spec, E. reflexivity.
Qed.

Lemma fold_same_number (trades : list trade) (a b : float) :
  same_number a b ->
  same_number (fold_left (fun sum t => (sum + or_zero (pl t))%float) trades a)
              (fold_left (fun sum t => (sum + or_zero (pl t))%float) trades b).
Proof.
  revert a b. induction trades as [|t trades IH]; intros a b H; [exact H|].
  cbn [fold_left]. apply IH. left.
  apply add_same_number; [exact H | apply or_zero_not_negative_zero].
Qed.

Lemma same_number_ltb_l (a b c : float) :
  same_number a b -> (a <? c)%float = (b <? c)%float.
Proof.
  intros [-> | (s & s' & Ha & Hb)]; [reflexivity|].
  rewrite !ltb_spec, Ha, Hb. destruct (Prim2SF c); reflexivity.
Qed.

Lemma same_number_ltb_r (a b c : float) :
  same_number a b -> (c <? a)%float = (c <? b)%float.
Proof.
  intros [-> | (s & s' & Ha & Hb)]; [reflexivity|].
  rewrite !ltb_spec, Ha, Hb. destruct (Prim2SF c); reflexivity.
Qed.

Lemma falsy_not_greater (x : option float) (m : float) :
  falsy x = true -> (0 <=? m)%float = true -> js_gt x m = false.
Proof.
  destruct x as [a|]; [|reflexivity]. cbn [falsy js_gt].
  intros Hf Hm. apply falsy_number_spec in Hf.
  rewrite leb_spec in Hm. rewrite ltb_spec.
  change (Prim2SF 0) with (S754_zero false) in Hm.
  destruct Hf as [[s ->] | ->].
  - destruct (Prim2SF m) as [?|[|]| |[|] ? ?]; try reflexivity; discriminate.
  - destruct (Prim2SF m) as [?|[|]| |[|] ? ?]; reflexivity.
Qed.

Lemma falsy_not_less (x : option float) (m : float) :
  falsy x = true -> (m <=? 0)%float = true -> js_lt x m = false.
Proof.
  destruct x as [a|]; [|reflexivity]. cbn [falsy js_lt].
  intros Hf Hm. apply falsy_number_spec in Hf.
  rewrite leb_spec in Hm. rewrite ltb_spec.
  change (Prim2SF 0) with (S754_zero false) in Hm.
  destruct Hf as [[s ->] | ->].
  - destruct (Prim2SF m) as [?|[|]| |[|] ? ?]; try reflexivity; discriminate.
  - reflexivity.
Qed.
Section ScriptProperties.

Variable Number_toString : float -> string.

(** A number between 0 and 100 prints as a number of hundredths between 0 and
    10000, the one nearest to it. *)
Lemma toFixed2_grid (x : float) :
  at_most (Prim2SF x) 100 ->
  exists (h : Z) (v : Q),
    toFixed2 Number_toString x = fixed2 h /\ (0 <= h <= 10000)%Z /\
    float_value x = Some v /\ (Qabs (inject_Z h - 100 * v) <= 1 # 2)%Q.
Proof.
  unfold toFixed2, float_value.
  destruct (Prim2SF x) as [[|]|sg| |[|] m e]; cbn [at_most spec_value]; try contradiction;
    intros H.
  - exists 0%Z, 0%Q. split; [reflexivity|]. split; [lia|]. split; [reflexivity|].
    vm_compute. discriminate.
  - pose proof (hundredths_up_nearest m e) as Hn.
    pose proof (scaled_nonneg (Z.pos m) e ltac:(lia)) as H0.
    exists (hundredths_up m e), (scaled (Z.pos m) e).
    assert (Hsmall : ((0 <=? e) && (10 ^ 21 <=? Z.pos m * 2 ^ e))%Z = false).
    { destruct (0 <=? e)%Z eqn:He; [|reflexivity]. apply Z.leb_le in He.
      cbn [andb]. apply Z.leb_gt.
      assert (E : (scaled (Z.pos m) e == inject_Z (Z.pos m * 2 ^ e))%Q).
      { unfold scaled. rewrite inject_Z_mult, Zpower_Qpower by assumption. reflexivity. }
      rewrite E in H. change 100%Q with (inject_Z 100) in H.
      rewrite <- Zle_Qle in H. lia. }
    rewrite Hsmall.
    split; [reflexivity|]. split; [|split; [reflexivity | exact Hn]].
    apply Qabs_Qle_condition in Hn as [Hn1 Hn2].
    split.
    + destruct (Z_lt_le_dec (hundredths_up m e) 0) as [Hneg|]; [|assumption].
      exfalso.
      assert (X : (inject_Z (hundredths_up m e) <= inject_Z (-1))%Q)
        by (rewrite <- Zle_Qle; lia).
      change (inject_Z (-1)) with (-1)%Q in X. lra.
    + destruct (Z_lt_le_dec 10000 (hundredths_up m e)) as [Hbig|]; [|assumption].
      exfalso.
      assert (X : (inject_Z 10001 <= inject_Z (hundredths_up m e))%Q)
        by (rewrite <- Zle_Qle; lia).
      change (inject_Z 10001) with 10001%Q in X. lra.
Qed.

(** The run of [updateSummary] on an array when the five elements exist. *)
Lemma updateSummary_array (trades : list trade) (doc : document)
    (e1 e2 e3 e4 e5 : element) :
  doc !! "total-trades" = Some e1 -> doc !! "win-rate" = Some e2 ->
  doc !! "total-pl" = Some e3 -> doc !! "largest-win" = Some e4 ->
  doc !! "largest-loss" = Some e5 ->
  exists doc',
    updateSummary Number_toString (JsArray trades) doc = (inr tt, doc') /\
    doc' !! "total-trades" = Some (Element (str (length trades)) (classList e1)) /\
    doc' !! "win-rate" =
      Some (Element
              ((if (0 <? length trades)%nat
                then toFixed2 Number_toString
                       (float_of_nat (winningTrades trades)
                        / float_of_nat (length trades) * 100)%float
                else "0.00") ++ "%")%string
              (classList e2)) /\
    doc' !! "total-pl" =
      Some (Element (toFixed2 Number_toString (totalPL trades))
              (let kept := List.filter (fun c => negb (bool_decide (c ∈ TOTAL_CLASSES)))
                             (classList e3) in
               if bool_decide (total_class (totalPL trades) ∈ kept) then kept
               else kept ++ [total_class (totalPL trades)])) /\
    doc' !! "largest-win" =
      Some (Element (toFixed2 Number_toString (largestWin trades)) (classList e4)) /\
    doc' !! "largest-loss" =
      Some (Element (toFixed2 Number_toString (largestLoss trades)) (classList e5)) /\
    (forall i, i ∉ SUMMARY_IDS -> doc' !! i = doc !! i).
Proof.
  intros H1 H2 H3 H4 H5.
  unfold updateSummary, js_bind, set_textContent, classList_remove, classList_add.
  rewrite H1. rewrite lookup_insert_ne, H2 by discriminate.
  rewrite !lookup_insert_ne, H3 by discriminate.
  rewrite lookup_insert_eq. cbn [classList textContent].
  rewrite lookup_insert_eq. cbn [classList textContent].
  rewrite !lookup_insert_ne, H4 by discriminate.
  rewrite !lookup_insert_ne, H5 by discriminate.
  eexists. split; [reflexivity|].
  split; [rewrite !lookup_insert_ne by discriminate; apply lookup_insert_eq|].
  split; [rewrite !lookup_insert_ne by discriminate; apply lookup_insert_eq|].
  split; [rewrite !lookup_insert_ne by discriminate; apply lookup_insert_eq|].
  split; [rewrite !lookup_insert_ne by discriminate; apply lookup_insert_eq|].
  split; [apply lookup_insert_eq|].
  intros i Hi. unfold SUMMARY_IDS in Hi.
  rewrite !not_elem_of_cons in Hi. destruct Hi as (N1 & N2 & N3 & N4 & N5 & _).
  rewrite !lookup_insert_ne by congruence. reflexivity.
Qed.

Ltac missing_element doc i key :=
  let E := fresh "E" in
  destruct (doc !! key) eqn:E;
  [| exists (take i SUMMARY_IDS), key, (drop (S i) SUMMARY_IDS);
     split; [reflexivity|];
     split; [repeat constructor; eauto|];
     split; [assumption|];
     eexists; split; [reflexivity|];
     intros j Hj; unfold SUMMARY_IDS in Hj; cbn [take] in Hj;
     rewrite ?not_elem_of_cons in Hj;
     repeat match goal with H : _ /\ _ |- _ => destruct H end;
     rewrite ?lookup_insert_ne by congruence; reflexivity].

Lemma updateSummary_missing (trades : list trade) (doc : document) :
  ~ Forall (fun i => is_Some (doc !! i)) SUMMARY_IDS ->
  exists before missing after,
    SUMMARY_IDS = before ++ missing :: after /\
    Forall (fun i => is_Some (doc !! i)) before /\
    doc !! missing = None /\
    exists doc',
      updateSummary Number_toString (JsArray trades) doc = (inl TypeError, doc') /\
      (forall i, i ∉ before -> doc' !! i = doc !! i).
Proof.
  intros Hinc.
  unfold updateSummary, js_bind, set_textContent, classList_remove, classList_add.
  missing_element doc 0%nat "total-trades".
  rewrite lookup_insert_ne by discriminate.
  missing_element doc 1%nat "win-rate".
  rewrite !lookup_insert_ne by discriminate.
  missing_element doc 2%nat "total-pl".
  rewrite !lookup_insert_eq. cbn [classList textContent].
  rewrite !lookup_insert_ne by discriminate.
  missing_element doc 3%nat "largest-win".
  rewrite !lookup_insert_ne by discriminate.
  missing_element doc 4%nat "largest-loss".
  exfalso. apply Hinc. unfold SUMMARY_IDS. repeat constructor; eauto.
Qed.

Lemma summary_elements (doc : document) :
  Forall (fun i => is_Some (doc !! i)) SUMMARY_IDS ->
  exists e1 e2 e3 e4 e5,
    doc !! "total-trades" = Some e1 /\ doc !! "win-rate" = Some e2 /\
    doc !! "total-pl" = Some e3 /\ doc !! "largest-win" = Some e4 /\
    doc !! "largest-loss" = Some e5.
Proof.
  unfold SUMMARY_IDS. rewrite !Forall_cons.
  intros ([e1 H1] & [e2 H2] & [e3 H3] & [e4 H4] & [e5 H5] & _).
  exists e1, e2, e3, e4, e5. repeat split; assumption.
Qed.

Lemma updateSummary_success (trades : list trade) (doc doc' : document) :
  updateSummary Number_toString (JsArray trades) doc = (inr tt, doc') ->
  Forall (fun i => is_Some (doc !! i)) SUMMARY_IDS.
Proof.
  intros Hrun.
  destruct (decide (Forall (fun i => is_Some (doc !! i)) SUMMARY_IDS)) as [|Hn];
    [assumption|].
  destruct (updateSummary_missing trades doc Hn) as (? & ? & ? & _ & _ & _ & d & Hd & _).
  congruence.
Qed.

(** X13. [updateSummary] completes exactly when it is given an array and
    the page has the five summary elements; it then changes no other element.
    The call [updateSummary({})] of the sign-out handler raises a [TypeError]
    and leaves the page, the summary included, as it was. *)
Theorem updateSummary_succeeds_iff (arg : js_value) (doc : document) :
  ((exists doc', updateSummary Number_toString arg doc = (inr tt, doc')) <->
   (exists trades, arg = JsArray trades) /\
   Forall (fun i => is_Some (doc !! i)) SUMMARY_IDS) /\
  (forall doc' i, updateSummary Number_toString arg doc = (inr tt, doc') ->
     i ∉ SUMMARY_IDS -> doc' !! i = doc !! i) /\
  updateSummary Number_toString JsEmptyObject doc = (inl TypeError, doc).
Proof.
  split; [|split; [|reflexivity]].
  - split.
    + intros [doc' Hrun]. destruct arg as [trades|]; [|discriminate].
      split; [eauto|]. exact (updateSummary_success _ _ _ Hrun).
    + intros [[trades ->] Hall].
      destruct (summary_elements doc Hall)
        as (e1 & e2 & e3 & e4 & e5 & H1 & H2 & H3 & H4 & H5).
      destruct (updateSummary_array trades doc _ _ _ _ _ H1 H2 H3 H4 H5)
        as (doc' & Hrun & _).
      eauto.
  - intros doc' i Hrun Hi. destruct arg as [trades|]; [|discriminate].
    destruct (summary_elements doc (updateSummary_success _ _ _ Hrun))
      as (e1 & e2 & e3 & e4 & e5 & H1 & H2 & H3 & H4 & H5).
    destruct (updateSummary_array trades doc _ _ _ _ _ H1 H2 H3 H4 H5)
      as (d & Hd & _ & _ & _ & _ & _ & Hframe).
    assert (d = doc') by congruence. subst d. apply Hframe. exact Hi.
Qed.

Lemma total_class_in (total : float) : total_class total ∈ TOTAL_CLASSES.
Proof.
  unfold total_class, TOTAL_CLASSES.
  destruct (0 <? total)%float; [set_solver|].
  destruct (total <? 0)%float; set_solver.
Qed.

Lemma kept_classes (classes : list string) :
  Forall (fun c => c ∉ TOTAL_CLASSES)
    (List.filter (fun c => negb (bool_decide (c ∈ TOTAL_CLASSES))) classes).
Proof.
  apply List.Forall_forall. intros c Hc. apply filter_In in Hc as [_ Hc].
  apply negb_true_iff, bool_decide_eq_false in Hc. exact Hc.
Qed.

(** X14. After a completed [updateSummary] the total P/L element carries
    exactly one of the three colour classes, appended behind its other
    classes, which are kept in order: green exactly when the total is above 0
    and red exactly when it is below 0 (grey otherwise, a NaN total
    included). *)
Theorem total_class_is_exclusive (trades : list trade) (doc doc' : document) :
  updateSummary Number_toString (JsArray trades) doc = (inr tt, doc') ->
  exists old kept,
    classList <$> doc !! "total-pl" = Some old /\
    kept = List.filter (fun c => negb (bool_decide (c ∈ TOTAL_CLASSES))) old /\
    classList <$> doc' !! "total-pl" = Some (kept ++ [total_class (totalPL trades)]) /\
    (forall c, c ∈ TOTAL_CLASSES ->
       (c ∈ kept ++ [total_class (totalPL trades)] <-> c = total_class (totalPL trades))) /\
    (forall c, c ∉ TOTAL_CLASSES ->
       (c ∈ kept ++ [total_class (totalPL trades)] <-> c ∈ old)) /\
    (total_class (totalPL trades) = "text-green-600" <-> (0 <? totalPL trades)%float = true) /\
    (total_class (totalPL trades) = "text-red-600" <-> (totalPL trades <? 0)%float = true).
Proof.
  intros Hrun.
  destruct (summary_elements doc (updateSummary_success _ _ _ Hrun))
    as (e1 & e2 & e3 & e4 & e5 & H1 & H2 & H3 & H4 & H5).
  destruct (updateSummary_array trades doc _ _ _ _ _ H1 H2 H3 H4 H5)
    as (d & Hd & _ & _ & Hpl & _).
  assert (d = doc') by congruence. subst d.
  pose proof (kept_classes (classList e3)) as Hkept.
  pose proof (total_class_in (totalPL trades)) as Hin.
  set (colour := total_class (totalPL trades)) in *.
  set (kept := List.filter (fun c => negb (bool_decide (c ∈ TOTAL_CLASSES))) (classList e3)) in *.
  assert (Hnot : colour ∉ kept).
  { intros Hc. rewrite List.Forall_forall in Hkept.
    apply (Hkept colour); [apply list_elem_of_In; exact Hc | exact Hin]. }
  cbv zeta in Hpl. rewrite bool_decide_eq_false_2 in Hpl by exact Hnot.
  exists (classList e3), kept.
  split; [rewrite H3; reflexivity|]. split; [reflexivity|].
  split; [rewrite Hpl; reflexivity|].
  split.
  { intros c Hc. rewrite elem_of_app, list_elem_of_singleton. split; [|tauto].
    intros [Hk | ->]; [|reflexivity]. exfalso.
    rewrite List.Forall_forall in Hkept.
    apply (Hkept c); [apply list_elem_of_In; exact Hk | exact Hc]. }
  split.
  { intros c Hc. rewrite elem_of_app, list_elem_of_singleton. split.
    - intros [Hk | ->]; [|contradiction].
      apply list_elem_of_In in Hk. apply filter_In in Hk as [Hk _].
      apply list_elem_of_In. exact Hk.
    - intros Ho. left. apply list_elem_of_In. apply filter_In.
      split; [apply list_elem_of_In; exact Ho|].
      apply negb_true_iff, bool_decide_eq_false. exact Hc. }
  subst colour. unfold total_class.
  destruct (0 <? totalPL trades)%float eqn:Ep.
  - split; split; try reflexivity; try discriminate.
    intros Hn. exfalso.
    pose proof (ltb_trans _ _ _ Ep Hn) as Hc. rewrite ltb_irrefl in Hc. discriminate.
  - destruct (totalPL trades <? 0)%float; split; split; try reflexivity; discriminate.
Qed.

Lemma winningTrades_le (trades : list trade) : (winningTrades trades <= length trades)%nat.
Proof. unfold winningTrades. apply List.filter_length_le. Qed.

(** X15. After a completed [updateSummary] on fewer than 2^53 trades the
    win-rate element reads a whole number of hundredths between 0 and 10000,
    printed with two decimals and followed by the percent sign; that number
    is within one half of 100 times the binary64 rate, and it is 0 for no
    trades. *)
Theorem win_rate_text_on_grid (trades : list trade) (doc doc' : document) :
  updateSummary Number_toString (JsArray trades) doc = (inr tt, doc') ->
  (Z.of_nat (length trades) < 2 ^ 53)%Z ->
  exists (h : Z) (v : Q),
    textContent <$> doc' !! "win-rate" = Some (fixed2 h ++ "%")%string /\
    (0 <= h <= 10000)%Z /\
    float_value (rate (winningTrades trades) (length trades)) = Some v /\
    (Qabs (inject_Z h - 100 * v) <= 1 # 2)%Q /\
    (trades = [] -> h = 0%Z).
Proof.
  intros Hrun Hlen.
  destruct (summary_elements doc (updateSummary_success _ _ _ Hrun))
    as (e1 & e2 & e3 & e4 & e5 & H1 & H2 & H3 & H4 & H5).
  destruct (updateSummary_array trades doc _ _ _ _ _ H1 H2 H3 H4 H5)
    as (d & Hd & _ & Hwr & _).
  assert (d = doc') by congruence. subst d.
  rewrite Hwr. cbn [fmap option_fmap option_map textContent].
  destruct trades as [|t trades].
  - exists 0%Z, 0%Q. split; [reflexivity|]. split; [lia|]. split; [reflexivity|].
    split; [vm_compute; discriminate | reflexivity].
  - pose proof (rate_at_most_100 (winningTrades (t :: trades)) (length (t :: trades))
                  (winningTrades_le _) Hlen) as Hmost.
    destruct (toFixed2_grid _ Hmost) as (h & v & Eh & Bh & Vh & Nh).
    exists h, v.
    change (0 <? length (t :: trades))%nat with true. cbv iota.
    assert (Er : rate (winningTrades (t :: trades)) (length (t :: trades)) =
                 (float_of_nat (winningTrades (t :: trades))
                  / float_of_nat (length (t :: trades)) * 100)%float) by reflexivity.
    rewrite <- Er, Eh.
    split; [reflexivity|]. split; [exact Bh|]. split; [exact Vh|].
    split; [exact Nh | discriminate].
Qed.

Lemma toFixed2_same_number (a b : float) :
  same_number a b -> toFixed2 Number_toString a = toFixed2 Number_toString b.
Proof.
  intros [-> | (s & s' & Ha & Hb)]; [reflexivity|].
  unfold toFixed2. rewrite Ha, Hb. reflexivity.
Qed.

(** X16. A trade whose P/L is [undefined], NaN, 0 or -0 counts as a trade
    and nothing else: with it or without it the winning and losing counts,
    the largest win and loss, the printed total P/L and its colour class are
    the same. *)
Theorem falsy_pl_is_ignored (before after : list trade) (t : trade) :
  falsy (pl t) = true ->
  length (before ++ t :: after) = S (length (before ++ after)) /\
  winningTrades (before ++ t :: after) = winningTrades (before ++ after) /\
  losingTrades (before ++ t :: after) = losingTrades (before ++ after) /\
  largestWin (before ++ t :: after) = largestWin (before ++ after) /\
  largestLoss (before ++ t :: after) = largestLoss (before ++ after) /\
  toFixed2 Number_toString (totalPL (before ++ t :: after))
  = toFixed2 Number_toString (totalPL (before ++ after)) /\
  total_class (totalPL (before ++ t :: after)) = total_class (totalPL (before ++ after)).
Proof.
  intros Hf.
  assert (Hgt : js_gt (pl t) 0 = false) by (apply falsy_not_greater; [exact Hf | reflexivity]).
  assert (Hlt : js_lt (pl t) 0 = false) by (apply falsy_not_less; [exact Hf | reflexivity]).
  assert (Htotal : same_number (totalPL (before ++ t :: after)) (totalPL (before ++ after))).
  { unfold totalPL. rewrite !fold_left_app. cbn [fold_left].
    apply fold_same_number. rewrite (or_zero_falsy _ Hf). apply add_zero_same_number. }
  split; [rewrite !length_app; simpl; lia|].
  split; [unfold winningTrades; rewrite !List.filter_app; cbn [List.filter];
          rewrite Hgt; reflexivity|].
  split; [unfold losingTrades; rewrite !List.filter_app; cbn [List.filter];
          rewrite Hlt; reflexivity|].
  split.
  { pose proof (largestWin_nonneg before) as H0.
    unfold largestWin in *. rewrite !fold_left_app. cbn [fold_left].
    rewrite (falsy_not_greater _ _ Hf H0). reflexivity. }
  split.
  { pose proof (largestLoss_nonpos before) as H0.
    unfold largestLoss in *. rewrite !fold_left_app. cbn [fold_left].
    rewrite (falsy_not_less _ _ Hf H0). reflexivity. }
  split; [apply toFixed2_same_number; exact Htotal|].
  unfold total_class.
  rewrite (same_number_ltb_r _ _ 0%float Htotal), (same_number_ltb_l _ _ 0%float Htotal).
  reflexivity.
Qed.

End ScriptProperties.

(** ** The script at work *)

Example updateSummary_of_sample_trades :
  (updateSummary example_Number_toString (JsArray sample_trades) summary_page).2
  = <["largest-loss" := Element "-40.00" []]>
      (<["largest-win" := Element "120.50" []]>
         (<["total-pl" := Element "80.50" ["text-4xl"; "font-extrabold"; "text-green-600"]]>
            (<["win-rate" := Element "33.33%" ["text-4xl"; "font-extrabold"; "text-purple-600"]]>
               (<["total-trades" := Element "3" ["text-4xl"; "font-extrabold"; "text-blue-600"]]>
                  summary_page)))).
Proof. vm_compute. reflexivity. Qed.

Lemma total_class_witness :
  updateSummary example_Number_toString (JsArray sample_trades) summary_page
  = (inr tt, (updateSummary example_Number_toString (JsArray sample_trades) summary_page).2) /\
  exists old kept,
    classList <$> summary_page !! "total-pl" = Some old /\
    kept = List.filter (fun c => negb (bool_decide (c ∈ TOTAL_CLASSES))) old /\
    classList <$>
      (updateSummary example_Number_toString (JsArray sample_trades) summary_page).2
        !! "total-pl"
    = Some (kept ++ [total_class (totalPL sample_trades)]).
Proof.
  split.
  - vm_compute. reflexivity.
  - destruct (total_class_is_exclusive example_Number_toString sample_trades summary_page
                (updateSummary example_Number_toString (JsArray sample_trades) summary_page).2)
      as (old & kept & H1 & H2 & H3 & _).
    + vm_compute. reflexivity.
    + exists old, kept. repeat split; assumption.
Defined.

Lemma win_rate_text_witness :
  updateSummary example_Number_toString (JsArray sample_trades) summary_page
  = (inr tt, (updateSummary example_Number_toString (JsArray sample_trades) summary_page).2) /\
  (Z.of_nat (length sample_trades) < 2 ^ 53)%Z /\
  exists (h : Z) (v : Q),
    textContent <$>
      (updateSummary example_Number_toString (JsArray sample_trades) summary_page).2
        !! "win-rate"
    = Some (fixed2 h ++ "%")%string /\
    (0 <= h <= 10000)%Z /\
    float_value (rate (winningTrades sample_trades) (length sample_trades)) = Some v /\
    (Qabs (inject_Z h - 100 * v) <= 1 # 2)%Q /\
    (sample_trades = [] -> h = 0%Z).
Proof.
  split; [|split].
  - vm_compute. reflexivity.
  - vm_compute. reflexivity.
  - apply (win_rate_text_on_grid example_Number_toString sample_trades summary_page).
    + vm_compute. reflexivity.
    + vm_compute. reflexivity.
Defined.

Lemma falsy_pl_witness :
  falsy (pl (Trade "c" None)) = true /\
  length ([Trade "a" (Some 120.5%float); Trade "b" (Some (-40)%float)] ++ Trade "c" None :: [])
  = S (length ([Trade "a" (Some 120.5%float); Trade "b" (Some (-40)%float)] ++ [])) /\
  toFixed2 example_Number_toString
    (totalPL ([Trade "a" (Some 120.5%float); Trade "b" (Some (-40)%float)]
              ++ Trade "c" None :: []))
  = toFixed2 example_Number_toString
      (totalPL ([Trade "a" (Some 120.5%float); Trade "b" (Some (-40)%float)] ++ [])).
Proof.
  split.
  - reflexivity.
  - destruct (falsy_pl_is_ignored example_Number_toString
                [Trade "a" (Some 120.5%float); Trade "b" (Some (-40)%float)] []
                (Trade "c" None))
      as (H1 & _ & _ & _ & _ & H2 & _).
    + reflexivity.
    + split; assumption.
Defined.
